(** * mm-audio-api: resource tables, deferred command queues, fake caches
      and sample deduplication

    A shallow embedding of the C sources
      - [src/utils/queue.c]      (module [Queue])
      - [src/utils/misc.c]       (module [Misc])
      - [src/core/load_status.c] (module [LoadStatus])
      - [src/core/soundfont.c]   (module [SoundFont], sample copy and free)
      - [src/core/sequence.c] and [src/core/samplebank.c] (module [Tables])
    with the properties of the specification stated and proved over it.

    Integers are [Z] with the C wrap-around written out; arrays are lists
    read with [!!] and written with [<[i:=x]>]; the host hash sets and hash
    maps are [gset] and [gmap]; [recomp_alloc]ed memory is a finite map from
    addresses to blocks. *)

From Stdlib Require Import ZArith Lia Bool.
From stdpp Require Import base tactics option list gmap.

Local Open Scope Z_scope.

(** ** Machine integers *)

Definition u8 (x : Z) : Z := x mod 256.
Definition u16 (x : Z) : Z := x mod 65536.
Definition u32 (x : Z) : Z := x mod 4294967296.
Definition s16 (x : Z) : Z := (x + 32768) mod 65536 - 32768.

Definition NULL : Z := 0.

(** ** The host allocator

    [recomp_alloc] may return NULL.  Whether the n-th request of a run
    succeeds is an input of the model: the head of the list answers the next
    request, and an exhausted list answers "success". *)

Definition Oracle := list bool.

Definition next_alloc (o : Oracle) : bool * Oracle :=
  match o with
  | [] => (true, [])
  | b :: o' => (b, o')
  end.

(** Allocated memory: a finite map from the address of a block to its
    contents.  A new block is placed above every address in use, so it is
    never NULL and never the address of a block that is still allocated. *)

Definition RECOMP_HEAP_BASE : Z := 0x81000000.

Definition fresh_addr {B : Type} (m : gmap Z B) : Z :=
  map_fold (fun k _ r => Z.max (k + 1) r) RECOMP_HEAP_BASE m.

(** [recomp_alloc]: the block starts out with contents [b]. *)
Definition recomp_alloc {B : Type} (o : Oracle) (b : B) (m : gmap Z B)
  : Z * gmap Z B * Oracle :=
  let '(ok, o') := next_alloc o in
  if ok then (fresh_addr m, <[fresh_addr m := b]> m, o') else (NULL, m, o').

Definition recomp_free {B : Type} (p : Z) (m : gmap Z B) : gmap Z B :=
  delete p m.

Lemma fresh_addr_spec {B : Type} (m : gmap Z B) :
  RECOMP_HEAP_BASE <= fresh_addr m
  /\ forall k, is_Some (m !! k) -> k < fresh_addr m.
Proof.
  unfold fresh_addr.
  apply (map_fold_weak_ind
           (fun r (m : gmap Z B) =>
              RECOMP_HEAP_BASE <= r /\ forall k, is_Some (m !! k) -> k < r)).
  - split; [lia|]. intros k [x Hx]. rewrite lookup_empty in Hx. discriminate.
  - intros i x m' r _ [Hb Hr]. split; [lia|].
    intros k Hk. destruct (decide (i = k)) as [->|Hne]; [lia|].
    rewrite lookup_insert_ne in Hk by done. specialize (Hr k Hk). lia.
Qed.

Lemma fresh_addr_fresh {B : Type} (m : gmap Z B) : m !! fresh_addr m = None.
Proof.
  destruct (m !! fresh_addr m) eqn:H; [|reflexivity].
  destruct (fresh_addr_spec m) as [_ Hlt].
  specialize (Hlt (fresh_addr m) (ex_intro _ _ H)). lia.
Qed.


Lemma free_alloc_fresh {B : Type} (m : gmap Z B) (b : B) :
  recomp_free (fresh_addr m) (<[fresh_addr m := b]> m) = m.
Proof.
  unfold recomp_free. rewrite delete_insert_eq.
  apply delete_id, fresh_addr_fresh.
Qed.

(** [IS_KSEG0(x)]: the address lies in the cached, unmapped segment of the
    N64 address space, [K0BASE <= x < K1BASE]. *)
Definition IS_KSEG0 (x : Z) : bool :=
  (0x80000000 <=? u32 x) && (u32 x <? 0xA0000000).

(** Writing slot [n] of an array and reading back its first [n+1] slots. *)
Lemma take_insert_snoc {A} (l : list A) (n : nat) (x : A) :
  (n < length l)%nat -> take (S n) (<[n := x]> l) = take n l ++ [x].
Proof.
  revert l. induction n as [|n IH]; intros [|y l] Hlen; simpl in *; try lia.
  - reflexivity.
  - f_equal. apply IH. lia.
Qed.

Lemma s16_small x : -32768 <= x < 32768 -> s16 x = x.
Proof. intros H. unfold s16. rewrite Z.mod_small; lia. Qed.

Lemma IS_KSEG0_nonnull x : IS_KSEG0 x = true -> x <> NULL.
Proof. unfold IS_KSEG0, NULL. intros H ->. vm_compute in H. discriminate. Qed.

(** ** src/utils/queue.c *)

Module Queue.

(** [RecompQueueCmd { u32 op, arg0, arg1; union { void* data; ... } }] *)
Record RecompQueueCmd := mkCmd {
  op : Z;
  arg0 : Z;
  arg1 : Z;
  data : Z
}.

(** [RecompQueue { RecompQueueCmd* entries; u16 numEntries, capacity; }];
    [entries] is the whole buffer, of which the first [numEntries] slots are
    in use. *)
Record RecompQueue := mkQueue {
  entries : list RecompQueueCmd;
  numEntries : Z;
  capacity : Z
}.

#[global] Instance cmd_eq_dec : EqDecision RecompQueueCmd.
Proof. solve_decision. Defined.

Definition QUEUE_INITIAL_CAPACITY : Z := 16.

Definition zero_cmd : RecompQueueCmd := mkCmd 0 0 0 0.

(** The slots in use, oldest first. *)
Definition live (q : RecompQueue) : list RecompQueueCmd :=
  take (Z.to_nat (numEntries q)) (entries q).

(** Two allocations: the struct, then the 16-slot buffer. *)
Definition RecompQueue_Create (o : Oracle) : option RecompQueue * Oracle :=
  let '(okq, o1) := next_alloc o in
  if negb okq then (None, o1) else
  let '(oke, o2) := next_alloc o1 in
  if negb oke then (None, o2) else
  (Some (mkQueue (replicate (Z.to_nat QUEUE_INITIAL_CAPACITY) zero_cmd)
                 0 QUEUE_INITIAL_CAPACITY), o2).

(** [Lib_MemSet(new, 0, newSize); Lib_MemCpy(new, old, oldSize)] on a
    buffer of [newCapacity] slots. *)
Definition grown_buffer (old : list RecompQueueCmd) (oldCapacity newCapacity : Z)
  : list RecompQueueCmd :=
  take (Z.to_nat newCapacity)
       (take (Z.to_nat oldCapacity) old
        ++ replicate (Z.to_nat newCapacity - Z.to_nat oldCapacity)%nat zero_cmd).

Definition RecompQueue_Grow (o : Oracle) (q : RecompQueue)
  : bool * RecompQueue * Oracle :=
  let oldCapacity := capacity q in
  let newCapacity := u16 (Z.shiftl (capacity q) 1) in
  let '(ok, o') := next_alloc o in
  if negb ok then (false, q, o') else
  (true,
   mkQueue (grown_buffer (entries q) oldCapacity newCapacity)
           (numEntries q) newCapacity,
   o').

(** [data] is the [void**] argument: [None] is a NULL pointer, [Some v] a
    pointer to the pointer-sized value [v]. *)
Definition RecompQueue_Push (o : Oracle) (q : RecompQueue)
    (op arg0 arg1 : Z) (data : option Z) : bool * RecompQueue * Oracle :=
  let '(ok, q1, o1) :=
    if capacity q <=? numEntries q then RecompQueue_Grow o q else (true, q, o) in
  if negb ok then (false, q1, o1) else
  let cmd := mkCmd op arg0 arg1 (default NULL data) in
  (true,
   mkQueue (<[Z.to_nat (numEntries q1) := cmd]> (entries q1))
           (u16 (numEntries q1 + 1)) (capacity q1),
   o1).

Definition cmd_matches (op a0 a1 : Z) (c : RecompQueueCmd) : bool :=
  (Queue.op c =? op) && (arg0 c =? a0) && (arg1 c =? a1).

(** Linear scan over the slots in use. *)
Definition RecompQueue_IsCmdNotQueued (q : RecompQueue) (op a0 a1 : Z) : bool :=
  forallb (fun c => negb (cmd_matches op a0 a1 c)) (live q).

Definition RecompQueue_PushIfNotQueued (o : Oracle) (q : RecompQueue)
    (op arg0 arg1 : Z) (data : option Z) : bool * RecompQueue * Oracle :=
  if negb (RecompQueue_IsCmdNotQueued q op arg0 arg1) then (false, q, o)
  else RecompQueue_Push o q op arg0 arg1 data.

(** [drainFunc] acts on some state [S] of the caller; it is called on each
    slot in use, in index order, and then the count is reset. *)
Definition RecompQueue_Drain {S : Type} (q : RecompQueue)
    (drainFunc : RecompQueueCmd -> S -> S) (s : S) : RecompQueue * S :=
  (mkQueue (entries q) 0 (capacity q),
   fold_left (fun s c => drainFunc c s) (live q) s).


(** A queue as [RecompQueue_Create] and the pushes leave it: the buffer has
    [capacity] slots, the count is within it, and the next doubling does not
    leave the u16 range. *)
Record wf (q : RecompQueue) : Prop := {
  wf_len : length (entries q) = Z.to_nat (capacity q);
  wf_cap : 0 < capacity q;
  wf_num : 0 <= numEntries q <= capacity q;
  wf_u16 : numEntries q < 32768
}.

(** *** Properties of the queue *)

Lemma shiftl1_u16 c : 0 <= c < 32768 -> u16 (Z.shiftl c 1) = 2 * c.
Proof.
  intros Hc. unfold u16. rewrite Z.shiftl_mul_pow2 by lia.
  change (2 ^ 1) with 2. rewrite Z.mod_small; lia.
Qed.

Lemma live_length q : wf q -> length (live q) = Z.to_nat (numEntries q).
Proof.
  intros [Hl Hc Hn Hu]. unfold live. rewrite length_take, Hl. lia.
Qed.

Lemma take_grown_buffer (old : list RecompQueueCmd) (c n : Z) :
  length old = Z.to_nat c -> 0 <= n <= c -> 0 < c < 32768 ->
  take (Z.to_nat n) (grown_buffer old c (2 * c)) = take (Z.to_nat n) old
  /\ length (grown_buffer old c (2 * c)) = Z.to_nat (2 * c).
Proof.
  intros Hl Hn Hc. unfold grown_buffer.
  rewrite (take_ge old) by lia.
  rewrite (take_ge (old ++ _)) by (rewrite length_app, length_replicate; lia).
  split.
  - rewrite take_app_le by lia. reflexivity.
  - rewrite length_app, length_replicate. lia.
Qed.

(** An accepted push appends the command after the slots in use, keeps the
    queue well formed up to the u16 bound, and never shrinks the buffer. *)
Lemma push_accepted o q op a0 a1 d q1 o1 :
  wf q ->
  RecompQueue_Push o q op a0 a1 d = (true, q1, o1) ->
  live q1 = live q ++ [mkCmd op a0 a1 (default NULL d)]
  /\ numEntries q1 = numEntries q + 1
  /\ length (entries q1) = Z.to_nat (capacity q1)
  /\ numEntries q1 <= capacity q1.
Proof.
  intros [Hl Hc Hn Hu]. unfold RecompQueue_Push.
  destruct (capacity q <=? numEntries q) eqn:Hfull.
  - apply Z.leb_le in Hfull. assert (numEntries q = capacity q) as Heq by lia.
    unfold RecompQueue_Grow. destruct (next_alloc o) as [ok o'].
    destruct ok; simpl; [|discriminate].
    intros [= <- <-]. unfold live; simpl.
    rewrite shiftl1_u16 by lia.
    destruct (take_grown_buffer (entries q) (capacity q) (numEntries q))
      as [Htk Hlen]; [lia..|].
    assert (u16 (numEntries q + 1) = numEntries q + 1) as ->
      by (unfold u16; rewrite Z.mod_small; lia).
    replace (Z.to_nat (numEntries q + 1)) with (S (Z.to_nat (numEntries q))) by lia.
    rewrite take_insert_snoc by lia.
    rewrite Htk, length_insert. repeat split; try lia.
  - apply Z.leb_gt in Hfull. simpl. intros [= <- <-]. unfold live; simpl.
    assert (u16 (numEntries q + 1) = numEntries q + 1) as ->
      by (unfold u16; rewrite Z.mod_small; lia).
    replace (Z.to_nat (numEntries q + 1)) with (S (Z.to_nat (numEntries q))) by lia.
    rewrite take_insert_snoc by lia.
    rewrite length_insert. repeat split; try lia.
Qed.

Lemma not_queued_spec q op a0 a1 :
  RecompQueue_IsCmdNotQueued q op a0 a1 = true <->
  filter (fun c => cmd_matches op a0 a1 c = true) (live q) = [].
Proof.
  unfold RecompQueue_IsCmdNotQueued.
  induction (live q) as [|c l IH]; [done|].
  cbn [forallb]. destruct (cmd_matches op a0 a1 c) eqn:Hm.
  - rewrite filter_cons_True by exact Hm. simpl. split; discriminate.
  - rewrite filter_cons_False by (rewrite Hm; discriminate). exact IH.
Qed.

Lemma cmd_matches_self op a0 a1 d :
  cmd_matches op a0 a1 (mkCmd op a0 a1 d) = true.
Proof. unfold cmd_matches; simpl. rewrite !Z.eqb_refl. reflexivity. Qed.

(** A rejected or refused push leaves the queue as it was. *)
Lemma push_if_not_queued_dup o q op a0 a1 d :
  RecompQueue_IsCmdNotQueued q op a0 a1 = false ->
  RecompQueue_PushIfNotQueued o q op a0 a1 d = (false, q, o).
Proof. intros H. unfold RecompQueue_PushIfNotQueued. rewrite H. reflexivity. Qed.

Lemma fold_left_log {A} (l acc : list A) :
  fold_left (fun log c => log ++ [c]) l acc = acc ++ l.
Proof.
  revert acc. induction l as [|x l IH]; intros acc; simpl.
  - by rewrite app_nil_r.
  - rewrite IH, <- app_assoc. reflexivity.
Qed.

(** The dedup property in the words of the specification, at one queue
    state: whatever the queue holds, after two [pushIfAbsent] calls with the
    same triple the second was discarded and the only entry with that triple
    carries the payload of the first call. *)
Definition dedup_as_stated (o : Oracle) (q : RecompQueue)
    (op a b : Z) (pA pB : option Z) : Prop :=
  let '(_, q1, o1) := RecompQueue_PushIfNotQueued o q op a b pA in
  let '(r2, q2, _) := RecompQueue_PushIfNotQueued o1 q1 op a b pB in
  r2 = false
  /\ filter (fun c => cmd_matches op a b c = true) (live q2)
     = [mkCmd op a b (default NULL pA)].

(** A queue that already holds the triple (7, 1, 2) with payload 100. *)
Definition queue_holding_triple : RecompQueue :=
  mkQueue (mkCmd 7 1 2 100 :: replicate 15 zero_cmd) 1 16.

(** C3, counterexample: on a queue that already holds the triple, both
    calls are discarded and the entry keeps the payload registered before
    them (100), not the payload of the first call of the pair (200). *)
Lemma C3_counterexample :
  ~ dedup_as_stated [] queue_holding_triple 7 1 2 (Some 200) (Some 300).
Proof.
  unfold dedup_as_stated. vm_compute. intros [_ H]. discriminate H.
Qed.

(** C3, as amended: when the first of two [RecompQueue_PushIfNotQueued]
    calls with the same (op, arg0, arg1) is accepted (the triple was not yet
    queued, and there was room or the buffer could grow), the second call is
    discarded and changes nothing; the queue then holds the earlier entries
    followed by exactly one entry with that triple, carrying the payload of
    the first call; [RecompQueue_Drain] calls the callback once per entry in
    FIFO order, hence once for that triple, and leaves the count at zero
    with the buffer and capacity kept. *)
Theorem C3_first_registered_wins
    (o : Oracle) (q : RecompQueue) (op a b : Z) (pA pB : option Z)
    (q1 : RecompQueue) (o1 : Oracle) :
  wf q ->
  RecompQueue_PushIfNotQueued o q op a b pA = (true, q1, o1) ->
  RecompQueue_PushIfNotQueued o1 q1 op a b pB = (false, q1, o1)
  /\ live q1 = live q ++ [mkCmd op a b (default NULL pA)]
  /\ filter (fun c => cmd_matches op a b c = true) (live q1)
     = [mkCmd op a b (default NULL pA)]
  /\ (forall (S : Type) (f : RecompQueueCmd -> S -> S) (s : S),
        RecompQueue_Drain q1 f s
        = (mkQueue (entries q1) 0 (capacity q1),
           fold_left (fun s c => f c s)
                     (live q ++ [mkCmd op a b (default NULL pA)]) s))
  /\ snd (RecompQueue_Drain q1 (fun c log => log ++ [c]) [])
     = live q ++ [mkCmd op a b (default NULL pA)].
Proof.
  intros Hwf Hpush. unfold RecompQueue_PushIfNotQueued in Hpush.
  destruct (RecompQueue_IsCmdNotQueued q op a b) eqn:Hnq; simpl in Hpush;
    [|discriminate].
  destruct (push_accepted _ _ _ _ _ _ _ _ Hwf Hpush) as (Hlive & _ & _ & _).
  apply not_queued_spec in Hnq.
  assert (filter (fun c => cmd_matches op a b c = true) (live q1)
          = [mkCmd op a b (default NULL pA)]) as Hone.
  { rewrite Hlive, filter_app, Hnq. simpl.
    rewrite filter_cons_True by apply cmd_matches_self. reflexivity. }
  split; [|split; [exact Hlive | split; [exact Hone | split]]].
  - apply push_if_not_queued_dup.
    destruct (RecompQueue_IsCmdNotQueued q1 op a b) eqn:Hnq1; [|reflexivity].
    apply not_queued_spec in Hnq1. rewrite Hnq1 in Hone. discriminate.
  - intros S f s. unfold RecompQueue_Drain. rewrite Hlive. reflexivity.
  - unfold RecompQueue_Drain; simpl. rewrite fold_left_log, Hlive. reflexivity.
Qed.

(** An empty queue as [RecompQueue_Create] returns it. *)
Definition fresh_queue : RecompQueue :=
  mkQueue (replicate 16 zero_cmd) 0 16.

Lemma C3_first_registered_wins_witness :
  wf fresh_queue
  /\ RecompQueue_PushIfNotQueued
       [] (mkQueue (<[0%nat := mkCmd 7 1 2 200]> (replicate 16 zero_cmd)) 1 16)
       7 1 2 (Some 300)
     = (false, mkQueue (<[0%nat := mkCmd 7 1 2 200]> (replicate 16 zero_cmd)) 1 16, []).
Proof.
  assert (wf fresh_queue) as Hwf.
  { constructor; simpl; [reflexivity | lia | lia | lia]. }
  split; [exact Hwf|].
  exact (proj1 (C3_first_registered_wins [] fresh_queue 7 1 2 (Some 200) (Some 300)
                  _ _ Hwf eq_refl)).
Defined.

(** *** More of queue.c *)

(** A refused push leaves the queue as it was. *)
Lemma push_refused_same o q op a0 a1 d :
  (RecompQueue_Push o q op a0 a1 d).1.1 = false ->
  (RecompQueue_Push o q op a0 a1 d).1.2 = q.
Proof.
  unfold RecompQueue_Push, RecompQueue_Grow.
  destruct (next_alloc o) as [[] o']; destruct (capacity q <=? numEntries q); cbn; done.
Qed.

(** X4: a push is refused only for want of memory or as a duplicate, and a
    refused push leaves the queue as it was: [RecompQueue_Push] returns
    false exactly when the buffer is full and the allocation of the larger
    buffer fails; [RecompQueue_PushIfNotQueued] returns false exactly when
    the triple is queued or its push is refused. *)
Theorem push_refused (o : Oracle) (q : RecompQueue) (op a0 a1 : Z) (d : option Z) :
  ((RecompQueue_Push o q op a0 a1 d).1.1 = false
   <-> capacity q <= numEntries q /\ o !! 0%nat = Some false)
  /\ ((RecompQueue_PushIfNotQueued o q op a0 a1 d).1.1 = false
      <-> RecompQueue_IsCmdNotQueued q op a0 a1 = false
          \/ (capacity q <= numEntries q /\ o !! 0%nat = Some false))
  /\ ((RecompQueue_Push o q op a0 a1 d).1.1 = false ->
      (RecompQueue_Push o q op a0 a1 d).1.2 = q)
  /\ ((RecompQueue_PushIfNotQueued o q op a0 a1 d).1.1 = false ->
      (RecompQueue_PushIfNotQueued o q op a0 a1 d).1.2 = q).
Proof.
  assert (((RecompQueue_Push o q op a0 a1 d).1.1 = false
           <-> capacity q <= numEntries q /\ o !! 0%nat = Some false)
          /\ ((RecompQueue_Push o q op a0 a1 d).1.1 = false ->
              (RecompQueue_Push o q op a0 a1 d).1.2 = q)) as [Hpush Hsame].
  { unfold RecompQueue_Push, RecompQueue_Grow, next_alloc.
    destruct (Z.leb_spec (capacity q) (numEntries q)) as [Hfull|Hroom].
    - destruct o as [|[] o']; cbn; (split; [split|]); try done.
      + intros [_ [=]].
      + intros [_ [=]].
    - cbn. split; [split|]; try done. intros [? _]. lia. }
  split; [exact Hpush|]. split; [|split; [exact Hsame|]].
  - unfold RecompQueue_PushIfNotQueued.
    destruct (RecompQueue_IsCmdNotQueued q op a0 a1); cbn.
    + rewrite Hpush. split; [by right | by intros [|]].
    + split; [by left | done].
  - unfold RecompQueue_PushIfNotQueued.
    destruct (RecompQueue_IsCmdNotQueued q op a0 a1); cbn; [exact Hsame | done].
Qed.

(** The commands [cmds] pushed one after the other, until one is refused. *)
Fixpoint push_all (o : Oracle) (q : RecompQueue) (cmds : list RecompQueueCmd)
  : bool * RecompQueue * Oracle :=
  match cmds with
  | [] => (true, q, o)
  | c :: cmds' =>
      let '(ok, q1, o1) :=
        RecompQueue_Push o q (Queue.op c) (arg0 c) (arg1 c) (Some (data c)) in
      if ok then push_all o1 q1 cmds' else (false, q1, o1)
  end.

Lemma next_alloc_never_fails o :
  Forall (fun b => b = true) o ->
  (next_alloc o).1 = true /\ Forall (fun b => b = true) (next_alloc o).2.
Proof.
  intros Ho. destruct o as [|b o]; cbn; [done|].
  by apply Forall_cons in Ho.
Qed.

Lemma push_never_fails o q op a0 a1 d :
  Forall (fun b => b = true) o ->
  (RecompQueue_Push o q op a0 a1 d).1.1 = true
  /\ Forall (fun b => b = true) (RecompQueue_Push o q op a0 a1 d).2.
Proof.
  intros Ho. unfold RecompQueue_Push, RecompQueue_Grow.
  destruct (next_alloc_never_fails o Ho) as [Hok Ho'].
  destruct (next_alloc o) as [ok o']. cbn in Hok, Ho'. subst ok.
  destruct (capacity q <=? numEntries q); cbn; done.
Qed.

Lemma cmd_eta c : mkCmd (Queue.op c) (arg0 c) (arg1 c) (data c) = c.
Proof. by destruct c. Qed.

Lemma push_all_live cmds : forall o q,
  wf q ->
  Forall (fun b => b = true) o ->
  numEntries q + Z.of_nat (length cmds) <= 32768 ->
  (push_all o q cmds).1.1 = true
  /\ live (push_all o q cmds).1.2 = live q ++ cmds
  /\ numEntries (push_all o q cmds).1.2 = numEntries q + Z.of_nat (length cmds)
  /\ length (entries (push_all o q cmds).1.2)
     = Z.to_nat (capacity (push_all o q cmds).1.2)
  /\ numEntries (push_all o q cmds).1.2 <= capacity (push_all o q cmds).1.2
  /\ capacity q <= capacity (push_all o q cmds).1.2.
Proof.
  induction cmds as [|c cmds IH]; intros o q Hwf Ho Hmax.
  - cbn. rewrite app_nil_r. destruct Hwf. split_and!; try done; lia.
  - cbn [push_all length] in *.
    destruct (push_never_fails o q (Queue.op c) (arg0 c) (arg1 c) (Some (data c)) Ho)
      as [Hok Ho1].
    destruct (RecompQueue_Push o q (Queue.op c) (arg0 c) (arg1 c) (Some (data c)))
      as [[ok q1] o1] eqn:Hpush.
    cbn in Hok, Ho1. subst ok.
    assert (numEntries q < 32768) by lia.
    destruct (push_accepted _ _ _ _ _ _ _ _ Hwf Hpush) as (Hlive & Hn & Hlen & Hle).
    assert (capacity q <= capacity q1) as Hcap.
    { unfold RecompQueue_Push, RecompQueue_Grow in Hpush. destruct Hwf.
      destruct (next_alloc o) as [ok' o'].
      destruct (Z.leb_spec (capacity q) (numEntries q)).
      - destruct ok'; cbn in Hpush; [|done].
        injection Hpush as <- _. cbn. rewrite shiftl1_u16 by lia. lia.
      - cbn in Hpush. injection Hpush as <- _. cbn. lia. }
    destruct (decide (cmds = [])) as [->|Hne].
    { cbn. rewrite Hlive. cbn. rewrite cmd_eta. split_and!; try done; lia. }
    assert (wf q1) as Hwf1.
    { destruct Hwf. constructor; try lia.
      destruct cmds; [done|]. cbn [length] in Hmax. lia. }
    destruct (IH o1 q1 Hwf1 Ho1 ltac:(lia)) as (H1 & H2 & H3 & H4 & H5 & H6).
    split_and!; try done; try lia.
    rewrite H2, Hlive. cbn. rewrite cmd_eta, <- app_assoc. done.
Qed.

(** X5: pushes compose and the drain is FIFO: when no allocation fails,
    pushing the commands [cmds] on a well-formed queue that stays within
    32768 entries accepts every one of them and appends them in order to
    the entries in use, growing the buffer by doubling as needed; a drain
    then calls the callback on the old entries and on [cmds], oldest first,
    and leaves the queue empty with the capacity it had reached. *)
Theorem push_all_then_drain {S : Type} (o : Oracle) (q : RecompQueue)
    (cmds : list RecompQueueCmd) (f : RecompQueueCmd -> S -> S) (s : S) :
  wf q ->
  Forall (fun b => b = true) o ->
  numEntries q + Z.of_nat (length cmds) <= 32768 ->
  let q' := (push_all o q cmds).1.2 in
  (push_all o q cmds).1.1 = true
  /\ live q' = live q ++ cmds
  /\ capacity q <= capacity q'
  /\ (RecompQueue_Drain q' f s).2 = fold_left (fun s c => f c s) (live q ++ cmds) s
  /\ live (RecompQueue_Drain q' f s).1 = []
  /\ capacity (RecompQueue_Drain q' f s).1 = capacity q'.
Proof.
  intros Hwf Ho Hmax q'.
  destruct (push_all_live cmds o q Hwf Ho Hmax) as (H1 & H2 & _ & _ & _ & H6).
  fold q' in H2, H6. unfold RecompQueue_Drain. cbn. rewrite H2.
  split_and!; try done.
Qed.

(** The queue as [RecompQueue_Create] returns it. *)
Definition created_queue : RecompQueue :=
  mkQueue (replicate 16 zero_cmd) 0 16.

Lemma created_queue_wf : wf created_queue.
Proof. constructor; cbn; lia. Qed.

Lemma push_all_then_drain_witness :
  let cmds := map (fun i => mkCmd 1 i 0 (100 + i)) (seqZ 0 20) in
  let q' := (push_all [] created_queue cmds).1.2 in
  live q' = cmds
  /\ (RecompQueue_Drain q' (fun c log => log ++ [arg0 c]) []).2 = seqZ 0 20.
Proof.
  intros cmds q'.
  destruct (push_all_then_drain [] created_queue cmds
              (fun c log => log ++ [arg0 c]) [] created_queue_wf
              ltac:(apply Forall_nil_2) ltac:(vm_compute; intros E; discriminate E))
    as (_ & Hlive & _ & Hdrain & _).
  fold q' in Hlive, Hdrain. split; [exact Hlive|].
  rewrite Hdrain. vm_compute. reflexivity.
Defined.

(** The triples of the entries in use. *)
Definition triples (q : RecompQueue) : list (Z * Z * Z) :=
  map (fun c => (Queue.op c, arg0 c, arg1 c)) (live q).

Lemma not_queued_not_in q op a0 a1 :
  RecompQueue_IsCmdNotQueued q op a0 a1 = true -> (op, a0, a1) ∉ triples q.
Proof.
  unfold RecompQueue_IsCmdNotQueued, triples.
  induction (live q) as [|c l IH]; cbn; [intros _; apply not_elem_of_nil|].
  intros H. apply andb_true_iff in H as [Hc Hl].
  apply not_elem_of_cons. split; [|by apply IH].
  intros [= -> -> ->]. unfold cmd_matches in Hc. rewrite !Z.eqb_refl in Hc. done.
Qed.

(** X6: a queue filled through [RecompQueue_PushIfNotQueued] never holds
    two entries with the same (op, arg0, arg1): the call keeps the triples
    of a well-formed queue pairwise distinct, whether it accepts the
    command or not. *)
Theorem push_if_not_queued_keeps_triples_distinct
    (o : Oracle) (q : RecompQueue) (op a0 a1 : Z) (d : option Z) :
  wf q ->
  NoDup (triples q) ->
  NoDup (triples (RecompQueue_PushIfNotQueued o q op a0 a1 d).1.2).
Proof.
  intros Hwf Hnd. unfold RecompQueue_PushIfNotQueued.
  destruct (RecompQueue_IsCmdNotQueued q op a0 a1) eqn:Hnq; cbn; [|done].
  destruct (RecompQueue_Push o q op a0 a1 d) as [[ok q1] o1] eqn:Hpush.
  destruct ok.
  - destruct (push_accepted _ _ _ _ _ _ _ _ Hwf Hpush) as (Hlive & _).
    cbn. unfold triples. rewrite Hlive, map_app. cbn.
    apply NoDup_app. split; [exact Hnd|]. split; [|apply NoDup_singleton].
    intros t Ht Hin. apply list_elem_of_singleton in Hin as ->.
    by apply (not_queued_not_in q op a0 a1 Hnq).
  - pose proof (push_refused_same o q op a0 a1 d) as Hsame.
    rewrite Hpush in Hsame. cbn in Hsame. cbn. by rewrite Hsame.
Qed.

Lemma push_if_not_queued_keeps_triples_distinct_witness :
  NoDup (triples (RecompQueue_PushIfNotQueued
                    [] (push_all [] created_queue [mkCmd 1 2 3 4; mkCmd 1 2 4 5]).1.2
                    1 2 3 (Some 6)).1.2).
Proof.
  apply push_if_not_queued_keeps_triples_distinct.
  - constructor; vm_compute; try reflexivity. split; intros E; discriminate E.
  - vm_compute. apply NoDup_cons. split.
    + intros H. apply list_elem_of_singleton in H. discriminate H.
    + apply NoDup_singleton.
Defined.



End Queue.

(** ** src/utils/misc.c *)

Module Misc.

(** The refcount store: a host hash map from the pointer, used as a u32
    key, to a u16 count.  [recomputil_u32_memory_hashmap_create] adds a
    zero-filled element. *)
Definition refcounter_inc (ptr : Z) (rc : gmap Z Z) : Z * gmap Z Z :=
  let key := ptr in
  let rc1 := match rc !! key with
             | None => <[key := 0]> rc
             | Some _ => rc
             end in
  match rc1 !! key with
  | None => (0, rc1)
  | Some count => (u16 (count + 1), <[key := u16 (count + 1)]> rc1)
  end.

Definition refcounter_dec (ptr : Z) (rc : gmap Z Z) : Z * gmap Z Z :=
  let key := ptr in
  match rc !! key with
  | None => (0, rc)
  | Some count =>
      if u16 (count - 1) =? 0 then (0, delete key rc)
      else (u16 (count - 1), <[key := u16 (count - 1)]> rc)
  end.

Definition refcounter_get (ptr : Z) (rc : gmap Z Z) : Z :=
  match rc !! ptr with
  | None => 0
  | Some count => count
  end.

Definition FNV1_32A_INIT : Z := 0x811c9dc5.

(** One round of [fnv_32a_buf] on the byte [b]. *)
Definition fnv_round (hval b : Z) : Z :=
  let h := Z.lxor hval b in
  u32 (h + (u32 (Z.shiftl h 1) + u32 (Z.shiftl h 4) + u32 (Z.shiftl h 7)
            + u32 (Z.shiftl h 8) + u32 (Z.shiftl h 24))).

Definition fnv_32a_buf (buf : list Z) (hval : Z) : Z :=
  fold_left fnv_round buf hval.



Lemma refcounter_inc_untracked (ptr : Z) (rc : gmap Z Z) :
  rc !! ptr = None -> refcounter_inc ptr rc = (1, <[ptr := 1]> rc).
Proof.
  intros H. unfold refcounter_inc. rewrite H, lookup_insert_eq.
  rewrite insert_insert_eq. reflexivity.
Qed.

Lemma refcounter_inc_tracked (ptr c : Z) (rc : gmap Z Z) :
  rc !! ptr = Some c ->
  refcounter_inc ptr rc = (u16 (c + 1), <[ptr := u16 (c + 1)]> rc).
Proof. intros H. unfold refcounter_inc. rewrite H. cbn. rewrite H. reflexivity. Qed.

(** *** More of misc.c

    The FNV prime of the header comment of [fnv_32a_buf]. *)
Definition FNV_32_PRIME : Z := 0x01000193.

Lemma fnv_round_prime h b :
  0 <= h < 4294967296 -> 0 <= b < 256 ->
  fnv_round h b = u32 (Z.lxor h b * FNV_32_PRIME)
  /\ 0 <= fnv_round h b < 4294967296.
Proof.
  intros Hh Hb. unfold fnv_round, FNV_32_PRIME.
  assert (0 <= Z.lxor h b) as Hx by (apply Z.lxor_nonneg; lia).
  generalize dependent (Z.lxor h b). intros x Hx.
  unfold u32. rewrite !Z.shiftl_mul_pow2 by lia.
  change (2 ^ 1) with 2. change (2 ^ 4) with 16. change (2 ^ 7) with 128.
  change (2 ^ 8) with 256. change (2 ^ 24) with 16777216.
  split; [|apply Z.mod_pos_bound; lia].
  rewrite (Z.mod_eq (x * 2)), (Z.mod_eq (x * 16)), (Z.mod_eq (x * 128)),
    (Z.mod_eq (x * 256)), (Z.mod_eq (x * 16777216)) by lia.
  replace (x + (x * 2 - 4294967296 * (x * 2 / 4294967296)
                + (x * 16 - 4294967296 * (x * 16 / 4294967296))
                + (x * 128 - 4294967296 * (x * 128 / 4294967296))
                + (x * 256 - 4294967296 * (x * 256 / 4294967296))
                + (x * 16777216 - 4294967296 * (x * 16777216 / 4294967296))))
    with (x * 16777619
          + - (x * 2 / 4294967296 + x * 16 / 4294967296 + x * 128 / 4294967296
               + x * 256 / 4294967296 + x * 16777216 / 4294967296) * 4294967296)
    by ring.
  apply Z_mod_plus_full.
Qed.

(** X1: the shifts and adds of [fnv_32a_buf] are the multiplication by the
    FNV prime 0x01000193: on a u32 seed and a buffer of bytes the function
    is FNV-1a (xor the byte, multiply by the prime modulo 2^32, byte after
    byte), and its value is a u32. *)
Theorem fnv_32a_buf_is_fnv1a (buf : list Z) (hval : Z) :
  0 <= hval < 4294967296 ->
  Forall (fun b => 0 <= b < 256) buf ->
  fnv_32a_buf buf hval
  = fold_left (fun h b => (Z.lxor h b * FNV_32_PRIME) mod 4294967296) buf hval
  /\ 0 <= fnv_32a_buf buf hval < 4294967296.
Proof.
  revert hval. induction buf as [|b buf IH]; intros hval Hh Hb.
  - cbn. split; [reflexivity | lia].
  - apply Forall_cons in Hb as [Hb Hbuf].
    destruct (fnv_round_prime hval b Hh Hb) as [Hr Hrange].
    unfold fnv_32a_buf in *. cbn [fold_left].
    rewrite Hr in *. unfold u32 in *. apply IH; done.
Qed.

Lemma fnv_32a_buf_is_fnv1a_witness :
  fnv_32a_buf [0x66; 0x6f; 0x6f] FNV1_32A_INIT = 0xa9f37ed7.
Proof.
  rewrite (proj1 (fnv_32a_buf_is_fnv1a [0x66; 0x6f; 0x6f] FNV1_32A_INIT
                    ltac:(unfold FNV1_32A_INIT; lia)
                    ltac:(repeat (apply Forall_cons_2; [lia|]); apply Forall_nil_2))).
  reflexivity.
Defined.

(** [n] calls of [refcounter_inc] and of [refcounter_dec] for [ptr]. *)
Fixpoint refcounter_incs (n : nat) (ptr : Z) (rc : gmap Z Z) : gmap Z Z :=
  match n with
  | O => rc
  | S n' => (refcounter_inc ptr (refcounter_incs n' ptr rc)).2
  end.

Fixpoint refcounter_decs (n : nat) (ptr : Z) (rc : gmap Z Z) : gmap Z Z :=
  match n with
  | O => rc
  | S n' => (refcounter_dec ptr (refcounter_decs n' ptr rc)).2
  end.

Lemma refcounter_incs_untracked n ptr rc :
  rc !! ptr = None -> Z.of_nat n <= 65535 ->
  refcounter_incs n ptr rc
  = match n with O => rc | S _ => <[ptr := Z.of_nat n]> rc end.
Proof.
  intros Hrc. induction n as [|n IH]; intros Hn; [reflexivity|].
  cbn [refcounter_incs]. rewrite IH by lia.
  destruct n as [|n].
  - rewrite refcounter_inc_untracked by done. reflexivity.
  - rewrite (refcounter_inc_tracked ptr (Z.of_nat (S n))) by apply lookup_insert_eq.
    cbn [snd]. rewrite insert_insert_eq. f_equal.
    unfold u16. rewrite Z.mod_small by lia. lia.
Qed.

Lemma refcounter_decs_counted k n ptr rc :
  rc !! ptr = None -> (k <= n)%nat -> Z.of_nat n <= 65535 -> (0 < n)%nat ->
  refcounter_decs k ptr (<[ptr := Z.of_nat n]> rc)
  = if decide (k = n) then rc else <[ptr := Z.of_nat (n - k)]> rc.
Proof.
  intros Hrc. induction k as [|k IH]; intros Hk Hmax Hn.
  - cbn. destruct (decide (0%nat = n)); [lia|]. by rewrite Nat.sub_0_r.
  - cbn [refcounter_decs]. rewrite IH by lia.
    destruct (decide (k = n)); [lia|].
    unfold refcounter_dec. rewrite lookup_insert_eq.
    assert (u16 (Z.of_nat (n - k) - 1) = Z.of_nat (n - S k)) as ->
      by (unfold u16; rewrite Z.mod_small by lia; lia).
    destruct (decide (S k = n)) as [<-|Hne].
    + rewrite Nat.sub_diag. cbn. rewrite delete_insert_eq. by apply delete_id.
    + destruct (Z.eqb_spec (Z.of_nat (n - S k)) 0) as [|_]; [lia|].
      cbn. by rewrite insert_insert_eq.
Qed.

(** X2: for a pointer that is not tracked yet, [n <= 65535] calls of
    [refcounter_inc] leave the count [n]; [k < n] calls of [refcounter_dec]
    after them leave [n - k], and [n] calls erase the entry, so that the
    store is as it was; the counts of other pointers are not touched. *)
Theorem refcounter_balanced (n : nat) (ptr : Z) (rc : gmap Z Z) :
  rc !! ptr = None ->
  Z.of_nat n <= 65535 ->
  refcounter_get ptr (refcounter_incs n ptr rc) = Z.of_nat n
  /\ refcounter_decs n ptr (refcounter_incs n ptr rc) = rc
  /\ (forall k, (k < n)%nat ->
        refcounter_get ptr (refcounter_decs k ptr (refcounter_incs n ptr rc))
        = Z.of_nat (n - k))
  /\ (forall q, q <> ptr -> refcounter_incs n ptr rc !! q = rc !! q).
Proof.
  intros Hrc Hn. rewrite refcounter_incs_untracked by done.
  destruct n as [|n].
  - split; [unfold refcounter_get; by rewrite Hrc|].
    split; [reflexivity|]. split; [lia | done].
  - split; [unfold refcounter_get; by rewrite lookup_insert_eq|].
    split.
    { rewrite refcounter_decs_counted by (done || lia).
      destruct (decide (S n = S n)); done. }
    split.
    { intros k Hk. rewrite refcounter_decs_counted by (done || lia).
      destruct (decide (k = S n)); [lia|].
      unfold refcounter_get. by rewrite lookup_insert_eq. }
    intros q Hq. by rewrite lookup_insert_ne.
Qed.

(** A store that counts one other pointer. *)
Definition one_counted : gmap Z Z := {[ 0x80002000 := 1 ]}.

Lemma refcounter_balanced_witness :
  refcounter_get 0x80001000 (refcounter_incs 3 0x80001000 one_counted) = 3
  /\ refcounter_decs 3 0x80001000 (refcounter_incs 3 0x80001000 one_counted)
     = one_counted.
Proof.
  assert (one_counted !! 0x80001000 = None) as Hrc by (vm_compute; reflexivity).
  destruct (refcounter_balanced 3 0x80001000 one_counted Hrc ltac:(lia))
    as (H1 & H2 & _).
  split; [exact H1 | exact H2].
Defined.

(** [char] is signed on the target: the value of the byte [x] as a [char]. *)
Definition s8 (x : Z) : Z := (x + 128) mod 256 - 128.

(** The loop of [Utils_MemCmp]; [c] and [d] are the bytes from the two
    pointers on. *)
Fixpoint Utils_MemCmp_loop (c d : list Z) (size : nat) : Z :=
  match size with
  | O => 0
  | S n =>
      if s8 (c !!! 0%nat) =? s8 (d !!! 0%nat)
      then Utils_MemCmp_loop (drop 1 c) (drop 1 d) n
      else s8 (c !!! 0%nat) - s8 (d !!! 0%nat)
  end.

Definition Utils_MemCmp (a b : list Z) (size : Z) : Z :=
  Utils_MemCmp_loop a b (Z.to_nat size).

Lemma s8_byte x : 0 <= x < 256 -> s8 x = if x <? 128 then x else x - 256.
Proof.
  intros Hx. unfold s8. destruct (Z.ltb_spec x 128).
  - rewrite Z.mod_small by lia. lia.
  - replace (x + 128) with (x - 128 + 1 * 256) by lia.
    rewrite Z_mod_plus_full, Z.mod_small by lia. lia.
Qed.

Lemma s8_inj x y : 0 <= x < 256 -> 0 <= y < 256 -> s8 x = s8 y -> x = y.
Proof.
  intros Hx Hy. rewrite !s8_byte by done.
  destruct (Z.ltb_spec x 128), (Z.ltb_spec y 128); lia.
Qed.

Lemma memcmp_loop_spec n : forall a b,
  Forall (fun x => 0 <= x < 256) a -> Forall (fun x => 0 <= x < 256) b ->
  (n <= length a)%nat -> (n <= length b)%nat ->
  (Utils_MemCmp_loop a b n = 0 <-> take n a = take n b)
  /\ Utils_MemCmp_loop b a n = - Utils_MemCmp_loop a b n.
Proof.
  induction n as [|n IH]; intros a b Ha Hb Hla Hlb; [done|].
  destruct a as [|x a]; [cbn in Hla; lia|].
  destruct b as [|y b]; [cbn in Hlb; lia|].
  apply Forall_cons in Ha as [Hx Ha]. apply Forall_cons in Hb as [Hy Hb].
  cbn in Hla, Hlb. cbn [Utils_MemCmp_loop take]. cbn [lookup_total list_lookup_total drop].
  rewrite !drop_0.
  destruct (IH a b Ha Hb ltac:(lia) ltac:(lia)) as [Hz Hanti].
  destruct (Z.eqb_spec (s8 x) (s8 y)) as [E|E].
  - apply s8_inj in E as ->; [|done..]. rewrite Z.eqb_refl.
    split; [|exact Hanti]. rewrite Hz. split; [by intros -> | by intros [= ->]].
  - destruct (Z.eqb_spec (s8 y) (s8 x)) as [E'|_]; [congruence|].
    split; [|lia]. split; [lia|]. intros [= -> _]. done.
Qed.

(** X3: on two buffers of at least [size] bytes, [Utils_MemCmp] returns 0
    exactly when their first [size] bytes are equal, and swapping the
    arguments negates the result. *)
Theorem Utils_MemCmp_zero_iff_equal (a b : list Z) (size : Z) :
  Forall (fun x => 0 <= x < 256) a -> Forall (fun x => 0 <= x < 256) b ->
  0 <= size <= Z.of_nat (length a) -> size <= Z.of_nat (length b) ->
  (Utils_MemCmp a b size = 0 <-> take (Z.to_nat size) a = take (Z.to_nat size) b)
  /\ Utils_MemCmp b a size = - Utils_MemCmp a b size.
Proof.
  intros Ha Hb Hla Hlb. unfold Utils_MemCmp.
  apply memcmp_loop_spec; try done; lia.
Qed.

Lemma Utils_MemCmp_zero_iff_equal_witness :
  Utils_MemCmp [1; 2; 3; 4] [1; 2; 3; 9] 3 = 0
  /\ Utils_MemCmp [1; 2; 3; 9] [1; 2; 3; 4] 3 = - Utils_MemCmp [1; 2; 3; 4] [1; 2; 3; 9] 3.
Proof.
  assert (Forall (fun x => 0 <= x < 256) [1; 2; 3; 4]) as Ha
    by (repeat (apply Forall_cons_2; [lia|]); apply Forall_nil_2).
  assert (Forall (fun x => 0 <= x < 256) [1; 2; 3; 9]) as Hb
    by (repeat (apply Forall_cons_2; [lia|]); apply Forall_nil_2).
  destruct (Utils_MemCmp_zero_iff_equal [1; 2; 3; 4] [1; 2; 3; 9] 3 Ha Hb
              ltac:(cbn; lia) ltac:(cbn; lia)) as [Hz Hanti].
  split; [apply Hz; reflexivity | exact Hanti].
Defined.

End Misc.

(** ** src/core/soundfont.c: copying and freeing samples *)

Module SoundFont.

(** [Sample] of the game's audio header (16 bytes, big-endian bit fields
    in the first word, then three pointers). *)
Record Sample := mkSample {
  unk_0 : Z;        (* 1 bit *)
  codec : Z;        (* 3 bits *)
  medium : Z;       (* 2 bits *)
  unk_bit26 : Z;    (* 1 bit *)
  isRelocated : Z;  (* 1 bit *)
  size : Z;         (* 24 bits *)
  sampleAddr : Z;
  loop : Z;         (* AdpcmLoop* *)
  book : Z          (* AdpcmBook* *)
}.

Definition CODEC_ADPCM : Z := 0.
Definition CODEC_SMALL_ADPCM : Z := 3.
Definition MEDIUM_CART : Z := 2.

(** [sizeof(AdpcmLoop)], [sizeof(AdpcmLoopHeader)], [sizeof(AdpcmBookHeader)] *)
Definition sizeof_AdpcmLoop : Z := 0x30.
Definition sizeof_AdpcmLoopHeader : Z := 0x10.
Definition sizeof_AdpcmBookHeader : Z := 8.

(** A block of memory holds a [Sample] struct or raw bytes (loop data and
    code books). *)
Inductive Block :=
| BSample (s : Sample)
| BBytes (b : list Z).

Record State := mkState {
  mem : gmap Z Block;
  sampleHashmap : gmap Z Z;   (* FNV32 hash -> Sample* *)
  refcounter : gmap Z Z       (* the store of misc.c *)
}.

Definition zero_sample : Sample := mkSample 0 0 0 0 0 0 0 0 0.

(** Reads through a pointer; an address that holds no block of the
    expected kind reads as zeros. *)
Definition load_sample (m : gmap Z Block) (p : Z) : Sample :=
  match m !! p with
  | Some (BSample s) => s
  | _ => zero_sample
  end.

Definition load_bytes (m : gmap Z Block) (p : Z) : list Z :=
  match m !! p with
  | Some (BBytes b) => b
  | _ => []
  end.

(** The first [n] bytes at [p]; bytes past the end of the block are not
    modelled. *)
Definition read_bytes (m : gmap Z Block) (p n : Z) : list Z :=
  take (Z.to_nat n) (load_bytes m p).

(** The big-endian 32-bit word at byte offset [off]. *)
Definition be32 (b : list Z) (off : nat) : Z :=
  b !!! off * 16777216 + b !!! (off + 1)%nat * 65536
  + b !!! (off + 2)%nat * 256 + b !!! (off + 3)%nat.

Definition bytes_of_be32 (x : Z) : list Z :=
  [ (x / 16777216) mod 256; (x / 65536) mod 256; (x / 256) mod 256; x mod 256 ].

(** The first [sizeof(Sample) - 2 * sizeof(uintptr_t)] = 8 bytes of the
    struct: the bit-field word and [sampleAddr]. *)
Definition sample_head_bytes (s : Sample) : list Z :=
  [ unk_0 s * 128 + codec s * 16 + medium s * 4 + unk_bit26 s * 2 + isRelocated s;
    (size s / 65536) mod 256; (size s / 256) mod 256; size s mod 256 ]
  ++ bytes_of_be32 (sampleAddr s).

(** [loop->header.count != 0 ? sizeof(AdpcmLoop) : sizeof(AdpcmLoopHeader)] *)
Definition loopSize (m : gmap Z Block) (loop : Z) : Z :=
  if be32 (load_bytes m loop) 8 =? 0 then sizeof_AdpcmLoopHeader
  else sizeof_AdpcmLoop.

(** [sizeof(AdpcmBookHeader) + sizeof(s16) * 8 * order * numPredictors],
    computed in [size_t]. *)
Definition bookSize (m : gmap Z Block) (book : Z) : Z :=
  let order := be32 (load_bytes m book) 0 in
  let numPredictors := be32 (load_bytes m book) 4 in
  u32 (sizeof_AdpcmBookHeader + 2 * 8 * order * numPredictors).

Definition AudioApi_HashSample (m : gmap Z Block) (sample : Z) : Z :=
  if sample =? NULL then 0 else
  let s := load_sample m sample in
  let hval := Misc.FNV1_32A_INIT in
  let hval := Misc.fnv_32a_buf (sample_head_bytes s) hval in
  let hval := if loop s =? NULL then hval
              else Misc.fnv_32a_buf (read_bytes m (loop s) (loopSize m (loop s))) hval in
  let hval := if book s =? NULL then hval
              else Misc.fnv_32a_buf (read_bytes m (book s) (bookSize m (book s))) hval in
  hval.

Definition is_adpcm (s : Sample) : bool :=
  (codec s =? CODEC_ADPCM) || (codec s =? CODEC_SMALL_ADPCM).

Definition set_mem (st : State) (m : gmap Z Block) : State :=
  mkState m (sampleHashmap st) (refcounter st).

(** Ref-counted free: the sample, its loop and its book are released only
    when [refcounter_dec] reports zero. *)
Definition AudioApi_FreeSample (sample : Z) (st : State) : State :=
  if sample =? NULL then st else
  let '(count, rc) := Misc.refcounter_dec sample (refcounter st) in
  let st := mkState (mem st) (sampleHashmap st) rc in
  if 0 <? count then st else
  let s := load_sample (mem st) sample in
  let m := mem st in
  let m := if loop s =? NULL then m else recomp_free (loop s) m in
  let m := if book s =? NULL then m else recomp_free (book s) m in
  let m := recomp_free sample m in
  set_mem st m.

Definition store_sample (p : Z) (s : Sample) (st : State) : State :=
  set_mem st (<[p := BSample s]> (mem st)).

Definition with_loop (s : Sample) (p : Z) : Sample :=
  mkSample (unk_0 s) (codec s) (medium s) (unk_bit26 s) (isRelocated s)
           (size s) (sampleAddr s) p (book s).

Definition with_book (s : Sample) (p : Z) : Sample :=
  mkSample (unk_0 s) (codec s) (medium s) (unk_bit26 s) (isRelocated s)
           (size s) (sampleAddr s) (loop s) p.

(** The struct copy as adjusted right after [Lib_MemCpy(copy, src, ...)]. *)
Definition copied_head (src : Sample) : Sample :=
  if IS_KSEG0 (sampleAddr src)
  then mkSample (unk_0 src) (codec src) MEDIUM_CART 0 1
                (size src) (sampleAddr src) (loop src) (book src)
  else mkSample (unk_0 src) (codec src) (medium src) (unk_bit26 src) 0
                (size src) (sampleAddr src) (loop src) (book src).

(** The step taken once for the loop and once for the book:
    [copy->f = recomp_alloc(n); if (!copy->f) { AudioApi_FreeSample(copy);
    return NULL; } Lib_MemCpy(copy->f, src->f, n);].  The first component
    says whether the function returns NULL here. *)
Definition copy_part (o : Oracle) (copy from n : Z)
    (set_field : Sample -> Z -> Sample) (st : State) : bool * State * Oracle :=
  let '(p, m, o) := recomp_alloc o (BBytes []) (mem st) in
  let st := store_sample copy (set_field (load_sample m copy) p) (set_mem st m) in
  if p =? NULL then (true, AudioApi_FreeSample copy st, o)
  else (false,
        set_mem st (<[p := BBytes (read_bytes (mem st) from n)]> (mem st)),
        o).

Definition AudioApi_CopySample (o : Oracle) (src : Z) (st : State)
  : Z * State * Oracle :=
  if src =? NULL then (NULL, st, o) else
  let s := load_sample (mem st) src in
  let hval := if is_adpcm s then AudioApi_HashSample (mem st) src else 0 in
  match (if is_adpcm s then sampleHashmap st !! hval else None) with
  | Some dupe =>
      let '(_, rc) := Misc.refcounter_inc dupe (refcounter st) in
      (dupe, mkState (mem st) (sampleHashmap st) rc, o)
  | None =>
      let '(copy, m, o) := recomp_alloc o (BSample zero_sample) (mem st) in
      if copy =? NULL then (NULL, st, o) else
      let st := set_mem st (<[copy := BSample (copied_head s)]> m) in
      let '(failed, st, o) :=
        if loop s =? NULL then (false, st, o)
        else copy_part o copy (loop s) (loopSize (mem st) (loop s)) with_loop st in
      if failed then (NULL, st, o) else
      let '(failed, st, o) :=
        if book s =? NULL then (false, st, o)
        else copy_part o copy (book s) (bookSize (mem st) (book s)) with_book st in
      if failed then (NULL, st, o) else
      if hval =? 0 then (copy, st, o) else
      let '(_, rc) := Misc.refcounter_inc copy (refcounter st) in
      (copy, mkState (mem st) (<[hval := copy]> (sampleHashmap st)) rc, o)
  end.

(** *** Properties of sample copies *)






















(** The dedup property in the words of the specification, for two copies
    of the payload at [src]. *)
Definition dedup_as_stated (st : State) (src : Z) : Prop :=
  let '(h1, st1, o1) := AudioApi_CopySample [] src st in
  let '(h2, st2, _) := AudioApi_CopySample o1 src st1 in
  h2 = h1 /\ Misc.refcounter_get h1 (refcounter st2) = 2.








(** *** The dedup table after the last free *)



(** *** Allocation failures during a copy *)



End SoundFont.

(** ** The engine's resource tables

    [AudioTableEntry] and [AudioTable] of the game's audio header: a header
    with the entry count (an s16) followed by the entries. *)

Module Tbl.

Record AudioTableEntry := mkEntry {
  romAddr : Z;
  size : Z;
  medium : Z;
  cachePolicy : Z;
  shortData1 : Z;
  shortData2 : Z;
  shortData3 : Z
}.

Record AudioTable := mkTable {
  numEntries : Z;
  unkMediumParam : Z;
  tableRomAddr : Z;
  entries : list AudioTableEntry
}.

Definition zero_entry : AudioTableEntry := mkEntry 0 0 0 0 0 0 0.

#[global] Instance entry_inhabited : Inhabited AudioTableEntry :=
  populate zero_entry.

#[global] Instance entry_eq_dec : EqDecision AudioTableEntry.
Proof. solve_decision. Defined.

(** [SampleBankTableType] *)
Definition SEQUENCE_TABLE : Z := 0.
Definition FONT_TABLE : Z := 1.
Definition SAMPLE_TABLE : Z := 2.

End Tbl.

(** ** src/core/load_status.c *)

Module LoadStatus.

Import Tbl.

Definition MAX_PERSISTENT_CACHE_ENTRIES : Z := 16.

(** [AudioLoadStatus], [AudioCacheLoadType] and [AudioCacheType] of the
    game's audio header. *)
Definition LOAD_STATUS_NOT_LOADED : Z := 0.
Definition LOAD_STATUS_IN_PROGRESS : Z := 1.
Definition LOAD_STATUS_COMPLETE : Z := 2.
Definition LOAD_STATUS_DISCARDABLE : Z := 3.
Definition LOAD_STATUS_MAYBE_DISCARDABLE : Z := 4.
Definition LOAD_STATUS_PERMANENT : Z := 5.

Definition CACHE_LOAD_PERMANENT : Z := 0.
Definition CACHE_LOAD_PERSISTENT : Z := 1.
Definition CACHE_LOAD_TEMPORARY : Z := 2.
Definition CACHE_LOAD_EITHER : Z := 3.

Definition CACHE_TEMPORARY : Z := 0.
Definition CACHE_PERSISTENT : Z := 1.
Definition CACHE_EITHER : Z := 2.
Definition CACHE_PERMANENT : Z := 3.

Record PersistentCacheEntry := mkPEntry {
  tableType : Z;   (* s16 *)
  id : Z           (* u32 *)
}.

#[global] Instance pentry_inhabited : Inhabited PersistentCacheEntry :=
  populate (mkPEntry 0 0).

#[global] Instance pentry_eq_dec : EqDecision PersistentCacheEntry.
Proof. solve_decision. Defined.

(** [entries] is the fixed array of 16 slots; the stack is its first
    [numEntries] slots, the top being the last of them. *)
Record PersistentCache := mkPCache {
  pcNumEntries : Z;   (* s16 *)
  pcEntries : list PersistentCacheEntry
}.

(** The globals of load_status.c, the three tables of [gAudioCtx] that it
    reads, and the calls made to [AudioHeap_DiscardFont] (oldest first). *)
Record State := mkState {
  persistentCache : PersistentCache;
  permanentCache : gset Z;
  loadedCache : gset Z;
  sExtSeqLoadStatus : list Z;
  sExtSoundFontLoadStatus : list Z;
  sequenceTable : AudioTable;
  soundFontTable : AudioTable;
  sampleBankTable : AudioTable;
  discardedFonts : list Z
}.

Definition stack (st : State) : list PersistentCacheEntry :=
  take (Z.to_nat (pcNumEntries (persistentCache st)))
       (pcEntries (persistentCache st)).

(** [AudioLoad_GetLoadTable] of the engine: the table of the given type.
    The engine returns NULL for any other type; here such a type reads an
    empty table. *)
Definition AudioLoad_GetLoadTable (st : State) (tableType : Z) : AudioTable :=
  if tableType =? SEQUENCE_TABLE then sequenceTable st
  else if tableType =? FONT_TABLE then soundFontTable st
  else if tableType =? SAMPLE_TABLE then sampleBankTable st
  else mkTable 0 0 0 [].

Section WithRealIndex.

(** [AudioLoad_GetRealTableIndex(tableType, id)] is declared [extern]
    and defined outside these sources; it maps an id to the index of the
    table slot that holds the data.  None of the functions below writes
    the tables it reads, so it is a fixed function here. *)
Variable AudioLoad_GetRealTableIndex : Z -> Z -> Z.

Definition is_sentinel (id : Z) : bool :=
  (Z.land id 0xFF =? 0xFF) || (Z.land id 0xFF =? 0xFE).

Definition AudioApi_GetTableEntryLoadStatus (st : State) (tableType id : Z) : Z :=
  if is_sentinel id then LOAD_STATUS_PERMANENT else
  let realId := AudioLoad_GetRealTableIndex tableType id in
  if tableType =? SEQUENCE_TABLE then sExtSeqLoadStatus st !!! Z.to_nat realId
  else if tableType =? FONT_TABLE then sExtSoundFontLoadStatus st !!! Z.to_nat realId
  else LOAD_STATUS_NOT_LOADED.

Definition set_seq_status (st : State) (l : list Z) : State :=
  mkState (persistentCache st) (permanentCache st) (loadedCache st)
          l (sExtSoundFontLoadStatus st)
          (sequenceTable st) (soundFontTable st) (sampleBankTable st)
          (discardedFonts st).

Definition set_font_status (st : State) (l : list Z) : State :=
  mkState (persistentCache st) (permanentCache st) (loadedCache st)
          (sExtSeqLoadStatus st) l
          (sequenceTable st) (soundFontTable st) (sampleBankTable st)
          (discardedFonts st).

Definition set_persistent (st : State) (pc : PersistentCache) : State :=
  mkState pc (permanentCache st) (loadedCache st)
          (sExtSeqLoadStatus st) (sExtSoundFontLoadStatus st)
          (sequenceTable st) (soundFontTable st) (sampleBankTable st)
          (discardedFonts st).

(** The arrays hold u8; a write past the end of the list is dropped. *)
Definition AudioApi_SetTableEntryLoadStatus (st : State) (tableType id status : Z)
  : State :=
  if is_sentinel id then st else
  let realId := AudioLoad_GetRealTableIndex tableType id in
  if tableType =? SEQUENCE_TABLE
  then set_seq_status st (<[Z.to_nat realId := u8 status]> (sExtSeqLoadStatus st))
  else if tableType =? FONT_TABLE
  then set_font_status st (<[Z.to_nat realId := u8 status]> (sExtSoundFontLoadStatus st))
  else st.

(** One iteration of the loops of [AudioHeap_ResetLoadStatus]. *)
Definition reset_entry (tableType : Z) (st : State) (i : Z) : State :=
  if AudioApi_GetTableEntryLoadStatus st tableType i =? LOAD_STATUS_PERMANENT
  then st
  else AudioApi_SetTableEntryLoadStatus st tableType i LOAD_STATUS_NOT_LOADED.

Definition AudioHeap_ResetLoadStatus (st : State) : State :=
  let st := set_persistent st (mkPCache 0 (pcEntries (persistentCache st))) in
  let st := fold_left (reset_entry FONT_TABLE)
                      (seqZ 0 (numEntries (soundFontTable st))) st in
  fold_left (reset_entry SEQUENCE_TABLE)
            (seqZ 0 (numEntries (sequenceTable st))) st.

Definition AudioLoad_IsSeqLoadComplete (st : State) (seqId : Z) : bool :=
  LOAD_STATUS_COMPLETE <=? AudioApi_GetTableEntryLoadStatus st SEQUENCE_TABLE seqId.

Definition AudioLoad_IsFontLoadComplete (st : State) (fontId : Z) : bool :=
  LOAD_STATUS_COMPLETE <=? AudioApi_GetTableEntryLoadStatus st FONT_TABLE fontId.

(** [u32 key = tableType << 24 | realId] *)
Definition cache_key (tableType realId : Z) : Z :=
  u32 (Z.lor (Z.shiftl tableType 24) realId).

Definition AudioHeap_SearchCaches (st : State) (tableType cache id : Z) : Z :=
  let table := AudioLoad_GetLoadTable st tableType in
  let realId := AudioLoad_GetRealTableIndex tableType id in
  let key := cache_key tableType realId in
  if negb (bool_decide (key ∈ permanentCache st)) && (cache =? CACHE_PERMANENT)
  then NULL
  else if negb (bool_decide (key ∈ loadedCache st)) then NULL
  else if negb (IS_KSEG0 (romAddr (entries table !!! Z.to_nat realId))) then NULL
  else romAddr (entries table !!! Z.to_nat realId).

Definition AudioHeap_SearchRegularCaches (st : State) (tableType cache id : Z) : Z :=
  AudioHeap_SearchCaches st tableType CACHE_EITHER id.

Definition AudioHeap_SearchPermanentCache (st : State) (tableType id : Z) : Z :=
  AudioHeap_SearchCaches st tableType CACHE_PERMANENT id.

Definition entry_is (tableType realId : Z) (e : PersistentCacheEntry) : bool :=
  (LoadStatus.tableType e =? tableType) && (LoadStatus.id e =? realId).

Definition AudioApi_PushFakeCache (st : State) (tableType cachePolicy id : Z)
  : State :=
  let realId := AudioLoad_GetRealTableIndex tableType id in
  let key := cache_key tableType realId in
  let st := mkState (persistentCache st) (permanentCache st)
                    ({[key]} ∪ loadedCache st)
                    (sExtSeqLoadStatus st) (sExtSoundFontLoadStatus st)
                    (sequenceTable st) (soundFontTable st) (sampleBankTable st)
                    (discardedFonts st) in
  let st := if cachePolicy =? CACHE_LOAD_PERMANENT
            then mkState (persistentCache st) ({[key]} ∪ permanentCache st)
                         (loadedCache st)
                         (sExtSeqLoadStatus st) (sExtSoundFontLoadStatus st)
                         (sequenceTable st) (soundFontTable st) (sampleBankTable st)
                         (discardedFonts st)
            else st in
  let pc := persistentCache st in
  if (cachePolicy =? CACHE_LOAD_PERSISTENT)
     && (pcNumEntries pc <? MAX_PERSISTENT_CACHE_ENTRIES)
  then
    if existsb (entry_is tableType realId) (stack st) then st
    else set_persistent st
           (mkPCache (s16 (pcNumEntries pc + 1))
                     (<[Z.to_nat (pcNumEntries pc) := mkPEntry (s16 tableType) realId]>
                        (pcEntries pc)))
  else st.

(** [for (i = numEntries - 1; i >= 0; i--)]: the index of the topmost
    entry of [tableType] among the slots below [n]. *)
Fixpoint find_topmost (es : list PersistentCacheEntry) (tableType : Z) (n : nat)
  : option nat :=
  match n with
  | O => None
  | S i => if LoadStatus.tableType (es !!! i) =? tableType then Some i
           else find_topmost es tableType i
  end.

(** [for (...; i < numEntries; i++) entries[i] = entries[i + 1]], run
    for [count] iterations from index [i]. *)
Fixpoint shift_down (es : list PersistentCacheEntry) (i count : nat)
  : list PersistentCacheEntry :=
  match count with
  | O => es
  | S c => shift_down (<[i := es !!! S i]> es) (S i) c
  end.

Definition log_discard (st : State) (fontId : Z) : State :=
  mkState (persistentCache st) (permanentCache st) (loadedCache st)
          (sExtSeqLoadStatus st) (sExtSoundFontLoadStatus st)
          (sequenceTable st) (soundFontTable st) (sampleBankTable st)
          (discardedFonts st ++ [fontId]).

Definition AudioHeap_PopPersistentCache (st : State) (tableType : Z) : State :=
  let pc := persistentCache st in
  match find_topmost (pcEntries pc) tableType (Z.to_nat (pcNumEntries pc)) with
  | None => st
  | Some i =>
      let entry := pcEntries pc !!! i in
      let st := if tableType =? FONT_TABLE then log_discard st (id entry) else st in
      let st := AudioApi_SetTableEntryLoadStatus st tableType (id entry)
                                                 LOAD_STATUS_NOT_LOADED in
      let n := s16 (pcNumEntries pc - 1) in
      set_persistent st
        (mkPCache n (shift_down (pcEntries pc) i (Z.to_nat n - i)))
  end.

(** *** Properties of the fake caches *)

(** A well-formed persistent cache: the array has its 16 slots and the
    count is within them. *)
Record wf_cache (pc : PersistentCache) : Prop := {
  wf_slots : length (pcEntries pc) = 16%nat;
  wf_count : 0 <= pcNumEntries pc <= 16
}.

Lemma stack_length st :
  wf_cache (persistentCache st) ->
  length (stack st) = Z.to_nat (pcNumEntries (persistentCache st)).
Proof. intros [Hl Hn]. unfold stack. rewrite length_take. lia. Qed.

(** **** Cache search *)

(** C9: [AudioHeap_SearchCaches] reports the resource as cached, and
    then returns the address stored in its table entry, exactly when the
    key is in the loaded set, the key is in the permanent set if the
    permanent cache is asked for, and the stored address is a KSEG0 (RAM)
    address; in every other case it returns NULL. *)
Theorem C9_search_caches (st : State) (tableType cache id : Z) :
  let realId := AudioLoad_GetRealTableIndex tableType id in
  let key := cache_key tableType realId in
  let addr :=
    romAddr (entries (AudioLoad_GetLoadTable st tableType) !!! Z.to_nat realId) in
  (AudioHeap_SearchCaches st tableType cache id <> NULL
   <-> key ∈ loadedCache st
       /\ (cache = CACHE_PERMANENT -> key ∈ permanentCache st)
       /\ IS_KSEG0 addr = true)
  /\ (AudioHeap_SearchCaches st tableType cache id <> NULL ->
      AudioHeap_SearchCaches st tableType cache id = addr).
Proof.
  intros realId key addr. unfold AudioHeap_SearchCaches.
  fold realId. fold key. fold addr.
  destruct (bool_decide_reflect (key ∈ permanentCache st)) as [Hp|Hp];
    destruct (Z.eqb_spec cache CACHE_PERMANENT) as [Hc|Hc];
    destruct (bool_decide_reflect (key ∈ loadedCache st)) as [Hl|Hl];
    destruct (IS_KSEG0 addr) eqn:Hk; cbn;
    (split; [split; [intros H; try done | intros (H1 & H2 & H3); try done]
            | try done]).
  all: try (split_and!; done).
  all: try (by apply IS_KSEG0_nonnull).
  all: by exfalso; auto.
Qed.

(** **** Reset *)

(** What one loop iteration does to the status array of its table. *)
Definition reset_slot (tableType : Z) (arr : list Z) (i : Z) : list Z :=
  if is_sentinel i then arr
  else if arr !!! Z.to_nat (AudioLoad_GetRealTableIndex tableType i)
          =? LOAD_STATUS_PERMANENT then arr
  else <[Z.to_nat (AudioLoad_GetRealTableIndex tableType i) := 0]> arr.

Lemma state_eta_seq st : set_seq_status st (sExtSeqLoadStatus st) = st.
Proof. destruct st; reflexivity. Qed.

Lemma state_eta_font st : set_font_status st (sExtSoundFontLoadStatus st) = st.
Proof. destruct st; reflexivity. Qed.

Lemma reset_loop_seq l st :
  fold_left (reset_entry SEQUENCE_TABLE) l st
  = set_seq_status st (fold_left (reset_slot SEQUENCE_TABLE) l (sExtSeqLoadStatus st)).
Proof.
  revert st. induction l as [|i l IH]; intros st; cbn [fold_left].
  - symmetry. apply state_eta_seq.
  - rewrite IH. unfold reset_entry, reset_slot,
      AudioApi_GetTableEntryLoadStatus, AudioApi_SetTableEntryLoadStatus.
    destruct (is_sentinel i); [reflexivity|]. cbn.
    destruct (_ =? LOAD_STATUS_PERMANENT); reflexivity.
Qed.

Lemma reset_loop_font l st :
  fold_left (reset_entry FONT_TABLE) l st
  = set_font_status st
      (fold_left (reset_slot FONT_TABLE) l (sExtSoundFontLoadStatus st)).
Proof.
  revert st. induction l as [|i l IH]; intros st; cbn [fold_left].
  - symmetry. apply state_eta_font.
  - rewrite IH. unfold reset_entry, reset_slot,
      AudioApi_GetTableEntryLoadStatus, AudioApi_SetTableEntryLoadStatus.
    destruct (is_sentinel i); [reflexivity|]. cbn.
    destruct (_ =? LOAD_STATUS_PERMANENT); reflexivity.
Qed.

(** A slot that holds Permanent, or NotLoaded, holds it after the loop:
    Permanent slots are skipped and nothing but NotLoaded is written. *)
Lemma reset_slots_keep tt l arr r v :
  (v = LOAD_STATUS_PERMANENT \/ v = 0) ->
  arr !!! r = v -> fold_left (reset_slot tt) l arr !!! r = v.
Proof.
  intros Hv. revert arr.
  induction l as [|i l IH]; intros arr Hr; cbn [fold_left]; [done|].
  apply IH. unfold reset_slot.
  destruct (is_sentinel i); [done|].
  destruct (Z.eqb_spec (arr !!! Z.to_nat (AudioLoad_GetRealTableIndex tt i))
                       LOAD_STATUS_PERMANENT) as [E|E]; [done|].
  destruct (decide (Z.to_nat (AudioLoad_GetRealTableIndex tt i) = r)) as [<-|Hne].
  - destruct Hv as [-> | ->]; [done|].
    destruct (decide (Z.to_nat (AudioLoad_GetRealTableIndex tt i) < length arr)%nat).
    + by rewrite list_lookup_total_insert_eq.
    + rewrite list_insert_ge by lia. done.
  - by rewrite list_lookup_total_insert_ne.
Qed.

(** The slot of an id that the loop visits, if not Permanent, ends up
    NotLoaded. *)
Lemma reset_slots_hit tt l arr i :
  i ∈ l -> is_sentinel i = false ->
  (Z.to_nat (AudioLoad_GetRealTableIndex tt i) < length arr)%nat ->
  arr !!! Z.to_nat (AudioLoad_GetRealTableIndex tt i) <> LOAD_STATUS_PERMANENT ->
  fold_left (reset_slot tt) l arr !!! Z.to_nat (AudioLoad_GetRealTableIndex tt i) = 0.
Proof.
  revert arr. induction l as [|j l IH]; intros arr Hin Hs Hlen Hnp.
  - by apply elem_of_nil in Hin.
  - cbn [fold_left]. apply elem_of_cons in Hin as [<- | Hin].
    + apply reset_slots_keep; [by right|]. unfold reset_slot. rewrite Hs.
      destruct (Z.eqb_spec (arr !!! Z.to_nat (AudioLoad_GetRealTableIndex tt i))
                           LOAD_STATUS_PERMANENT); [done|].
      by rewrite list_lookup_total_insert_eq.
    + destruct (decide (reset_slot tt arr j
                          !!! Z.to_nat (AudioLoad_GetRealTableIndex tt i) = 0))
        as [E|E].
      * apply reset_slots_keep; [by right | done].
      * apply IH; try done.
        -- unfold reset_slot. destruct (is_sentinel j); [done|].
           destruct (_ =? _); [done|]. by rewrite length_insert.
        -- unfold reset_slot in *. destruct (is_sentinel j); [done|].
           destruct (_ =? _); [done|].
           destruct (decide (Z.to_nat (AudioLoad_GetRealTableIndex tt j)
                             = Z.to_nat (AudioLoad_GetRealTableIndex tt i)))
             as [Ej|Ej].
           ++ rewrite Ej in E.
              rewrite list_lookup_total_insert_eq in E by done. done.
           ++ by rewrite list_lookup_total_insert_ne.
Qed.

(** C8: [AudioHeap_ResetLoadStatus] empties the persistent stack, and
    for every entry of every table the load status reads Permanent
    afterwards if it read Permanent before, and NotLoaded otherwise; a
    status slot that holds Permanent is not written; the permanent and
    loaded sets, the tables and the rest of the state are left as they
    are.  (The slot of each entry of the font and sequence tables is taken
    to lie within its status array.) *)
Theorem C8_reset (st : State) :
  (forall i, 0 <= i < numEntries (soundFontTable st) ->
     (Z.to_nat (AudioLoad_GetRealTableIndex FONT_TABLE i)
      < length (sExtSoundFontLoadStatus st))%nat) ->
  (forall i, 0 <= i < numEntries (sequenceTable st) ->
     (Z.to_nat (AudioLoad_GetRealTableIndex SEQUENCE_TABLE i)
      < length (sExtSeqLoadStatus st))%nat) ->
  let st' := AudioHeap_ResetLoadStatus st in
  pcNumEntries (persistentCache st') = 0
  /\ stack st' = []
  /\ (forall tableType id,
        0 <= id < numEntries (AudioLoad_GetLoadTable st tableType) ->
        AudioApi_GetTableEntryLoadStatus st' tableType id
        = if AudioApi_GetTableEntryLoadStatus st tableType id
             =? LOAD_STATUS_PERMANENT
          then LOAD_STATUS_PERMANENT else LOAD_STATUS_NOT_LOADED)
  /\ (forall r, sExtSeqLoadStatus st !!! r = LOAD_STATUS_PERMANENT ->
                sExtSeqLoadStatus st' !!! r = LOAD_STATUS_PERMANENT)
  /\ (forall r, sExtSoundFontLoadStatus st !!! r = LOAD_STATUS_PERMANENT ->
                sExtSoundFontLoadStatus st' !!! r = LOAD_STATUS_PERMANENT)
  /\ permanentCache st' = permanentCache st
  /\ loadedCache st' = loadedCache st
  /\ sequenceTable st' = sequenceTable st
  /\ soundFontTable st' = soundFontTable st
  /\ sampleBankTable st' = sampleBankTable st
  /\ discardedFonts st' = discardedFonts st.
Proof.
  intros Hfont Hseq st'. subst st'. unfold AudioHeap_ResetLoadStatus.
  rewrite reset_loop_font, reset_loop_seq. cbn.
  split_and!; try reflexivity.
  - intros tt i Hi. unfold AudioApi_GetTableEntryLoadStatus. cbn.
    destruct (is_sentinel i) eqn:Hs; [reflexivity|].
    unfold AudioLoad_GetLoadTable in Hi.
    destruct (Z.eqb_spec tt SEQUENCE_TABLE) as [->|Hns].
    + destruct (Z.eqb_spec
                  (sExtSeqLoadStatus st
                     !!! Z.to_nat (AudioLoad_GetRealTableIndex SEQUENCE_TABLE i))
                  LOAD_STATUS_PERMANENT) as [E|E].
      * apply reset_slots_keep; [by left | done].
      * apply reset_slots_hit; try done; [|by apply Hseq].
        apply elem_of_seqZ. lia.
    + destruct (Z.eqb_spec tt FONT_TABLE) as [->|Hnf]; [|reflexivity].
      destruct (Z.eqb_spec
                  (sExtSoundFontLoadStatus st
                     !!! Z.to_nat (AudioLoad_GetRealTableIndex FONT_TABLE i))
                  LOAD_STATUS_PERMANENT) as [E|E].
      * apply reset_slots_keep; [by left | done].
      * apply reset_slots_hit; try done; [|by apply Hfont].
        apply elem_of_seqZ. lia.
  - intros r Hr. apply reset_slots_keep; [by left | done].
  - intros r Hr. apply reset_slots_keep; [by left | done].
Qed.

(** **** Push *)

Lemma entry_is_spec tt r e : entry_is tt r e = true <-> e = mkPEntry tt r.
Proof.
  unfold entry_is. destruct e as [t i]; cbn.
  rewrite andb_true_iff, !Z.eqb_eq.
  split; [intros [-> ->]; done | intros [= -> ->]; done].
Qed.

Lemma existsb_entry_is tt r l :
  existsb (entry_is tt r) l = bool_decide (mkPEntry tt r ∈ l).
Proof.
  induction l as [|e l IH]; cbn; [done|].
  rewrite IH. destruct (entry_is tt r e) eqn:He.
  - apply entry_is_spec in He as ->. cbn. symmetry. apply bool_decide_eq_true.
    apply elem_of_cons. by left.
  - cbn. apply bool_decide_ext. rewrite elem_of_cons.
    split; [by right | intros [E|]; [|done]].
    symmetry in E. apply entry_is_spec in E. congruence.
Qed.

(** The persistent cache after a push: one entry more on top when the
    policy asks for it, there is room and the key is not on the stack;
    untouched otherwise. *)
Lemma push_persistent st tt policy id :
  wf_cache (persistentCache st) ->
  let st' := AudioApi_PushFakeCache st tt policy id in
  let e := mkPEntry (s16 tt) (AudioLoad_GetRealTableIndex tt id) in
  if (policy =? CACHE_LOAD_PERSISTENT)
     && (pcNumEntries (persistentCache st) <? MAX_PERSISTENT_CACHE_ENTRIES)
     && negb (bool_decide
                (mkPEntry tt (AudioLoad_GetRealTableIndex tt id) ∈ stack st))
  then stack st' = stack st ++ [e]
       /\ pcNumEntries (persistentCache st') = pcNumEntries (persistentCache st) + 1
       /\ wf_cache (persistentCache st')
  else persistentCache st' = persistentCache st.
Proof.
  intros [Hlen Hn] st' e. subst st'. unfold AudioApi_PushFakeCache.
  destruct (policy =? CACHE_LOAD_PERSISTENT) eqn:Hp; cbn.
  2:{ destruct (policy =? CACHE_LOAD_PERMANENT); reflexivity. }
  assert ((policy =? CACHE_LOAD_PERMANENT) = false) as ->.
  { apply Z.eqb_eq in Hp as ->. reflexivity. }
  cbn. unfold MAX_PERSISTENT_CACHE_ENTRIES.
  destruct (Z.ltb_spec (pcNumEntries (persistentCache st)) 16) as [Hlt|Hge]; cbn;
    [|reflexivity].
  unfold stack at 1. cbn. fold (stack st). rewrite existsb_entry_is.
  destruct (bool_decide _); cbn; [reflexivity|].
  unfold stack. cbn.
  rewrite s16_small by lia.
  replace (Z.to_nat (pcNumEntries (persistentCache st) + 1))
    with (S (Z.to_nat (pcNumEntries (persistentCache st)))) by lia.
  rewrite take_insert_snoc by lia.
  split_and!; try done. constructor; cbn; [by rewrite length_insert | lia].
Qed.

(** Pushing a list of (type, id) pairs with the persistent policy. *)
Definition push_all (st : State) (keys : list (Z * Z)) : State :=
  fold_left (fun st k => AudioApi_PushFakeCache st k.1 CACHE_LOAD_PERSISTENT k.2)
            keys st.

Definition real_key (k : Z * Z) : PersistentCacheEntry :=
  mkPEntry k.1 (AudioLoad_GetRealTableIndex k.1 k.2).

Lemma push_all_stack keys st :
  wf_cache (persistentCache st) ->
  Forall (fun k => -32768 <= k.1 < 32768) keys ->
  NoDup (stack st ++ (real_key <$> keys)) ->
  stack (push_all st keys) = take 16 (stack st ++ (real_key <$> keys))
  /\ wf_cache (persistentCache (push_all st keys)).
Proof.
  revert st. induction keys as [|k keys IH]; intros st Hwf Hrange Hnd.
  - cbn. rewrite app_nil_r. split; [|done].
    rewrite take_ge; [done|]. rewrite stack_length by done. destruct Hwf. lia.
  - apply Forall_cons in Hrange as [Hk Hrange]. cbn [push_all fold_left].
    fold (push_all (AudioApi_PushFakeCache st k.1 CACHE_LOAD_PERSISTENT k.2) keys).
    pose proof (push_persistent st k.1 CACHE_LOAD_PERSISTENT k.2 Hwf) as Hpush.
    cbn zeta in Hpush. rewrite s16_small in Hpush by done.
    fold (real_key k) in Hpush. rewrite fmap_cons in Hnd |- *.
    assert (real_key k ∉ stack st) as Hfresh.
    { apply NoDup_app in Hnd as (_ & Hdisj & _). intros Hin.
      apply (Hdisj _ Hin). apply elem_of_cons. by left. }
    rewrite bool_decide_eq_false_2 in Hpush by done.
    rewrite Z.eqb_refl in Hpush. cbn [andb negb] in Hpush.
    unfold MAX_PERSISTENT_CACHE_ENTRIES in Hpush.
    destruct (Z.ltb_spec (pcNumEntries (persistentCache st)) 16) as [Hlt|Hge].
    + destruct Hpush as (Hst & _ & Hwf').
      destruct (IH _ Hwf' Hrange) as [Hs Hw].
      { rewrite Hst, <- app_assoc. exact Hnd. }
      split; [|exact Hw]. rewrite Hs, Hst, <- app_assoc. reflexivity.
    + assert (stack (AudioApi_PushFakeCache st k.1 CACHE_LOAD_PERSISTENT k.2)
              = stack st) as Hst by (unfold stack; rewrite Hpush; reflexivity).
      assert (wf_cache (persistentCache
                (AudioApi_PushFakeCache st k.1 CACHE_LOAD_PERSISTENT k.2))) as Hwf'
        by (rewrite Hpush; exact Hwf).
      destruct (IH _ Hwf' Hrange) as [Hs Hw].
      { rewrite Hst. apply NoDup_app in Hnd as (H1 & H2 & H3).
        apply NoDup_app. split_and!; [done | | by apply NoDup_cons in H3 as [_ ?]].
        intros x Hx Hx'. apply (H2 x Hx). apply elem_of_cons. by right. }
      split; [|exact Hw]. rewrite Hs, Hst.
      assert (length (stack st) = 16%nat) as Hfull
        by (rewrite stack_length by done; destruct Hwf; lia).
      rewrite !take_app_length' by done. reflexivity.
Qed.

(** **** Pop *)

Lemma find_topmost_spec es tt n :
  match find_topmost es tt n with
  | Some i => (i < n)%nat /\ tableType (es !!! i) = tt
              /\ forall j, (i < j < n)%nat -> tableType (es !!! j) <> tt
  | None => forall j, (j < n)%nat -> tableType (es !!! j) <> tt
  end.
Proof.
  induction n as [|n IH]; cbn.
  - intros j Hj. lia.
  - destruct (Z.eqb_spec (tableType (es !!! n)) tt) as [E|E].
    + split_and!; [lia | done | intros j Hj; lia].
    + destruct (find_topmost es tt n) as [i|].
      * destruct IH as (Hi & Ht & Hab). split_and!; [lia | done |].
        intros j Hj. destruct (decide (j = n)) as [->|]; [done|]. apply Hab. lia.
      * intros j Hj. destruct (decide (j = n)) as [->|]; [done|]. apply IH. lia.
Qed.

Lemma shift_down_spec (es : list PersistentCacheEntry) (i c : nat) :
  (i + c < length es)%nat ->
  shift_down es i c = take i es ++ take c (drop (S i) es) ++ drop (i + c) es.
Proof.
  revert es i. induction c as [|c IH]; intros es i Hlen; cbn [shift_down].
  - rewrite Nat.add_0_r, take_0. cbn [app]. symmetry. apply take_drop.
  - rewrite IH by (rewrite length_insert; lia).
    rewrite take_insert_snoc by lia.
    rewrite !drop_insert_lt by lia.
    replace (S i + c)%nat with (i + S c)%nat by lia.
    rewrite <- app_assoc. f_equal. cbn [app].
    rewrite (drop_S es (es !!! S i) (S i)).
    2:{ apply list_lookup_lookup_total_lt. lia. }
    reflexivity.
Qed.

Lemma shift_down_length es i c : length (shift_down es i c) = length es.
Proof.
  revert es i. induction c as [|c IH]; intros es i; cbn; [done|].
  by rewrite IH, length_insert.
Qed.

(** Pop with an entry of the requested type on the stack: the topmost
    such entry [e] leaves the stack and the entries above it move down. *)
Lemma pop_found st tt l1 e l2 :
  wf_cache (persistentCache st) ->
  stack st = l1 ++ e :: l2 ->
  tableType e = tt ->
  (forall e', e' ∈ l2 -> tableType e' <> tt) ->
  AudioHeap_PopPersistentCache st tt
  = set_persistent
      (AudioApi_SetTableEntryLoadStatus
         (if tt =? FONT_TABLE then log_discard st (id e) else st)
         tt (id e) LOAD_STATUS_NOT_LOADED)
      (mkPCache (pcNumEntries (persistentCache st) - 1)
                (shift_down (pcEntries (persistentCache st))
                            (length l1) (length l2)))
  /\ take (Z.to_nat (pcNumEntries (persistentCache st) - 1))
          (shift_down (pcEntries (persistentCache st)) (length l1) (length l2))
     = l1 ++ l2.
Proof.
  intros [Hlen Hn] Hstack Ht Habove.
  set (pc := persistentCache st) in *.
  set (n := Z.to_nat (pcNumEntries pc)).
  assert (length (stack st) = n) as Hsl.
  { unfold stack. fold pc. rewrite length_take. lia. }
  assert (n = (length l1 + S (length l2))%nat) as Hn'.
  { rewrite <- Hsl, Hstack, length_app. reflexivity. }
  assert (forall j, (j < n)%nat -> pcEntries pc !!! j = stack st !!! j) as Hlk.
  { intros j Hj. unfold stack. fold pc. fold n.
    by rewrite lookup_total_take_lt by lia. }
  assert (find_topmost (pcEntries pc) tt n = Some (length l1)) as Hfind.
  { pose proof (find_topmost_spec (pcEntries pc) tt n) as Hspec.
    destruct (find_topmost (pcEntries pc) tt n) as [i|].
    - destruct Hspec as (Hi & Hti & Hab). f_equal.
      destruct (Nat.lt_trichotomy i (length l1)) as [Hlt|[->|Hgt]]; [|done|].
      + exfalso. apply (Hab (length l1)); [lia|].
        rewrite Hlk, Hstack by lia.
        rewrite lookup_total_app_r by lia. rewrite Nat.sub_diag. done.
      + exfalso. rewrite Hlk, Hstack in Hti by lia.
        rewrite lookup_total_app_r in Hti by lia.
        destruct (i - length l1)%nat as [|k] eqn:Hk; [lia|]. cbn in Hti.
        apply (Habove (l2 !!! k)); [|done].
        apply list_elem_of_lookup_total_2. lia.
    - exfalso. apply (Hspec (length l1)); [lia|].
      rewrite Hlk, Hstack by lia.
      rewrite lookup_total_app_r by lia. rewrite Nat.sub_diag. done. }
  assert (pcEntries pc !!! length l1 = e) as He.
  { rewrite Hlk, Hstack by lia.
    rewrite lookup_total_app_r by lia. rewrite Nat.sub_diag. done. }
  assert (s16 (pcNumEntries pc - 1) = pcNumEntries pc - 1) as Hs16
    by (apply s16_small; lia).
  split.
  - unfold AudioHeap_PopPersistentCache. fold pc. fold n. rewrite Hfind, He, Hs16.
    replace (Z.to_nat (pcNumEntries pc - 1) - length l1)%nat with (length l2) by lia.
    reflexivity.
  - rewrite shift_down_spec by lia.
    replace (Z.to_nat (pcNumEntries pc - 1)) with (length l1 + length l2)%nat by lia.
    rewrite app_assoc, take_app_length'.
    2:{ rewrite length_app, !length_take, length_drop. lia. }
    assert (take n (pcEntries pc) = l1 ++ e :: l2) as Htake by exact Hstack.
    assert (take (length l1) (pcEntries pc) = l1) as ->.
    { replace (length l1) with (length l1 `min` n)%nat by lia.
      rewrite <- take_take, Htake. apply take_app_length. }
    f_equal. rewrite take_drop_commute.
    replace (S (length l1) + length l2)%nat with n by lia. rewrite Htake.
    change (l1 ++ e :: l2) with (l1 ++ [e] ++ l2). rewrite app_assoc.
    apply drop_app_length'. rewrite length_app. cbn. lia.
Qed.


Lemma pop_wf st tt :
  wf_cache (persistentCache st) ->
  wf_cache (persistentCache (AudioHeap_PopPersistentCache st tt)).
Proof.
  intros [Hlen Hn]. unfold AudioHeap_PopPersistentCache.
  pose proof (find_topmost_spec (pcEntries (persistentCache st)) tt
                (Z.to_nat (pcNumEntries (persistentCache st)))) as Hspec.
  destruct (find_topmost _ _ _) as [i|]; [|by constructor].
  destruct Hspec as (Hi & _ & _). cbn.
  constructor; cbn.
  - by rewrite shift_down_length.
  - rewrite s16_small by lia. lia.
Qed.

Lemma reset_persistent st :
  persistentCache (AudioHeap_ResetLoadStatus st)
  = mkPCache 0 (pcEntries (persistentCache st)).
Proof.
  unfold AudioHeap_ResetLoadStatus. rewrite reset_loop_font, reset_loop_seq.
  reflexivity.
Qed.

(** C6: the persistent stack never holds more than 16 entries: the
    bound is kept by every push, pop and reset.  A push puts the key on
    top exactly when the policy is the persistent one, fewer than 16
    entries are on the stack and the key is not on it; otherwise the stack
    is left as it is, so a push on a full stack and a push of a key already
    on the stack are dropped.  Pushing distinct keys on an empty stack
    keeps the first 16 of them, in order: a 17th is dropped.  (The table
    type is a value of the s16 field that stores it.) *)
Theorem C6_persistent_stack_bound
    (st : State) (tableType cachePolicy id popType : Z) :
  wf_cache (persistentCache st) ->
  -32768 <= tableType < 32768 ->
  let st' := AudioApi_PushFakeCache st tableType cachePolicy id in
  let e := mkPEntry tableType (AudioLoad_GetRealTableIndex tableType id) in
  wf_cache (persistentCache st')
  /\ wf_cache (persistentCache (AudioHeap_PopPersistentCache st popType))
  /\ wf_cache (persistentCache (AudioHeap_ResetLoadStatus st))
  /\ (length (stack st') <= 16)%nat
  /\ (if (cachePolicy =? CACHE_LOAD_PERSISTENT)
         && (pcNumEntries (persistentCache st) <? MAX_PERSISTENT_CACHE_ENTRIES)
         && negb (bool_decide (e ∈ stack st))
      then stack st' = stack st ++ [e]
      else persistentCache st' = persistentCache st)
  /\ (pcNumEntries (persistentCache st) = 16 ->
      persistentCache st' = persistentCache st)
  /\ (e ∈ stack st -> persistentCache st' = persistentCache st)
  /\ (forall keys : list (Z * Z),
        pcNumEntries (persistentCache st) = 0 ->
        Forall (fun k => -32768 <= k.1 < 32768) keys ->
        NoDup (real_key <$> keys) ->
        stack (push_all st keys) = take 16 (real_key <$> keys)
        /\ length (stack (push_all st keys)) = (length keys `min` 16)%nat).
Proof.
  intros Hwf Hrange st' e.
  pose proof (push_persistent st tableType cachePolicy id Hwf) as Hpush.
  cbn zeta in Hpush. rewrite s16_small in Hpush by done.
  fold st' in Hpush. fold e in Hpush.
  assert (wf_cache (persistentCache st')) as Hwf'.
  { destruct (_ && _ && _) in Hpush; [by destruct Hpush as (_ & _ & ?)|].
    by rewrite Hpush. }
  split_and!.
  - exact Hwf'.
  - by apply pop_wf.
  - rewrite reset_persistent. destruct Hwf. by constructor.
  - rewrite stack_length by done. destruct Hwf'. lia.
  - destruct (_ && _ && _); [by destruct Hpush as (? & _ & _) | done].
  - intros Hfull. rewrite Hfull in Hpush.
    rewrite andb_false_r in Hpush. exact Hpush.
  - intros Hin. rewrite (bool_decide_eq_true_2 _ Hin) in Hpush.
    rewrite andb_false_r in Hpush. exact Hpush.
  - intros keys Hempty Hkeys Hnd.
    assert (stack st = []) as Hnil by (unfold stack; rewrite Hempty; reflexivity).
    destruct (push_all_stack keys st Hwf Hkeys) as [Hs _];
      [by rewrite Hnil|].
    rewrite Hs, Hnil. cbn [app]. split; [reflexivity|].
    rewrite length_take, length_fmap. lia.
Qed.


End WithRealIndex.

(** *** Concrete states

    In the examples the real table index of an id is the id itself. *)

Definition identity_index (tableType id : Z) : Z := id.

Definition empty_table : AudioTable := mkTable 0 0 0 [].

Definition cache_of (l : list PersistentCacheEntry) : PersistentCache :=
  mkPCache (Z.of_nat (length l))
           (l ++ replicate (16 - length l) (mkPEntry 0 0)).

Definition empty_state : State :=
  mkState (cache_of []) ∅ ∅ (replicate 256 0) (replicate 256 0)
          (mkTable 256 0 0 (replicate 256 zero_entry))
          (mkTable 256 0 0 (replicate 256 zero_entry))
          empty_table [].

Lemma empty_state_wf : wf_cache (persistentCache empty_state).
Proof. constructor; cbn; [reflexivity | lia]. Qed.

Lemma C6_persistent_stack_bound_witness :
  let keys := (fun i => (FONT_TABLE, i)) <$> seqZ 0 17 in
  stack (push_all identity_index empty_state keys)
  = take 16 (real_key identity_index <$> keys)
  /\ length (stack (push_all identity_index empty_state keys)) = 16%nat.
Proof.
  intros keys.
  pose proof (C6_persistent_stack_bound identity_index empty_state
                FONT_TABLE CACHE_LOAD_PERSISTENT 0 FONT_TABLE empty_state_wf
                ltac:(unfold FONT_TABLE; lia)) as H.
  cbv zeta in H. destruct H as (_ & _ & _ & _ & _ & _ & _ & H).
  apply (H keys).
  - reflexivity.
  - apply Forall_forall. intros k Hk. apply list_elem_of_fmap in Hk as (i & -> & _).
    cbn. unfold FONT_TABLE. lia.
  - vm_compute. repeat (constructor; [by (intros H'; repeat (apply elem_of_cons in H' as [H'|H']; [discriminate H'|]); by apply elem_of_nil in H')|]). constructor.
Defined.






(** Font 0 is Permanent and font 1 is Complete. *)
Definition reset_state : State :=
  mkState (cache_of [mkPEntry FONT_TABLE 1]) ∅ ∅
          (replicate 256 0)
          (<[0%nat := LOAD_STATUS_PERMANENT]>
             (<[1%nat := LOAD_STATUS_COMPLETE]> (replicate 256 0)))
          (mkTable 256 0 0 (replicate 256 zero_entry))
          (mkTable 256 0 0 (replicate 256 zero_entry))
          empty_table [].

Lemma C8_reset_witness :
  let st' := AudioHeap_ResetLoadStatus identity_index reset_state in
  stack st' = []
  /\ AudioApi_GetTableEntryLoadStatus identity_index st' FONT_TABLE 0
     = LOAD_STATUS_PERMANENT
  /\ AudioApi_GetTableEntryLoadStatus identity_index st' FONT_TABLE 1
     = LOAD_STATUS_NOT_LOADED.
Proof.
  assert (forall i, 0 <= i < 256 -> (Z.to_nat i < 256)%nat) as Hb by (intros; lia).
  pose proof (C8_reset identity_index reset_state Hb Hb) as H.
  cbv zeta in H. destruct H as (_ & H2 & H3 & _).
  split; [exact H2|]. split.
  - exact (H3 FONT_TABLE 0 ltac:(vm_compute; split; congruence)).
  - exact (H3 FONT_TABLE 1 ltac:(vm_compute; split; congruence)).
Defined.

(** *** More of load_status.c *)

(** [AudioLoad_SetSeqLoadStatus] and [AudioLoad_SetFontLoadStatus] *)
Definition AudioLoad_SetSeqLoadStatus (real : Z -> Z -> Z) (st : State)
    (seqId status : Z) : State :=
  AudioApi_SetTableEntryLoadStatus real st SEQUENCE_TABLE seqId status.

Definition AudioLoad_SetFontLoadStatus (real : Z -> Z -> Z) (st : State)
    (fontId status : Z) : State :=
  AudioApi_SetTableEntryLoadStatus real st FONT_TABLE fontId status.

(** The status array of a table type, if it has one. *)
Definition status_array (st : State) (tableType : Z) : list Z :=
  if tableType =? SEQUENCE_TABLE then sExtSeqLoadStatus st
  else if tableType =? FONT_TABLE then sExtSoundFontLoadStatus st
  else [].

(** X8: the load status that is set is the load status that is read.  For
    an id that is not a sentinel and whose slot lies in the status array
    of its table (sequences or fonts), a read after a write returns the
    status as a u8, and the entry counts as loaded exactly when that u8 is
    at least LOAD_STATUS_COMPLETE; the status of every other slot and of
    the other table reads as before.  A sentinel id (low byte 0xFE or
    0xFF) always reads Permanent, and a write to it, or to a table type
    without a status array, changes nothing. *)
Theorem load_status_set_get (real : Z -> Z -> Z) (st : State)
    (tableType id status : Z) :
  0 <= real tableType id ->
  let st' := AudioApi_SetTableEntryLoadStatus real st tableType id status in
  (is_sentinel id = true ->
   st' = st
   /\ AudioApi_GetTableEntryLoadStatus real st tableType id = LOAD_STATUS_PERMANENT)
  /\ (tableType <> SEQUENCE_TABLE -> tableType <> FONT_TABLE -> st' = st)
  /\ (is_sentinel id = false ->
      real tableType id < Z.of_nat (length (status_array st tableType)) ->
      AudioApi_GetTableEntryLoadStatus real st' tableType id = u8 status
      /\ (tableType = SEQUENCE_TABLE ->
          AudioLoad_IsSeqLoadComplete real
            (AudioLoad_SetSeqLoadStatus real st id status) id
          = (LOAD_STATUS_COMPLETE <=? u8 status))
      /\ (tableType = FONT_TABLE ->
          AudioLoad_IsFontLoadComplete real
            (AudioLoad_SetFontLoadStatus real st id status) id
          = (LOAD_STATUS_COMPLETE <=? u8 status)))
  /\ (forall t i, 0 <= real t i ->
        t <> tableType \/ real t i <> real tableType id ->
        AudioApi_GetTableEntryLoadStatus real st' t i
        = AudioApi_GetTableEntryLoadStatus real st t i).
Proof.
  intros Hnn st'. subst st'.
  unfold AudioLoad_IsSeqLoadComplete, AudioLoad_IsFontLoadComplete,
    AudioLoad_SetSeqLoadStatus, AudioLoad_SetFontLoadStatus,
    AudioApi_SetTableEntryLoadStatus, AudioApi_GetTableEntryLoadStatus, status_array.
  destruct (is_sentinel id) eqn:Hs.
  { split_and!; try done. }
  split; [done|]. split.
  { intros H1 H2.
    destruct (Z.eqb_spec tableType SEQUENCE_TABLE) as [|_]; [done|].
    destruct (Z.eqb_spec tableType FONT_TABLE) as [|_]; done. }
  split.
  - intros _ Hr.
    destruct (Z.eqb_spec tableType SEQUENCE_TABLE) as [->|Hns].
    + cbn. rewrite list_lookup_total_insert_eq by lia. split_and!; try done.
    + destruct (Z.eqb_spec tableType FONT_TABLE) as [->|Hnf].
      * cbn. rewrite list_lookup_total_insert_eq by lia. split_and!; try done.
      * cbn in Hr. lia.
  - intros t i Hti Hdiff. destruct (is_sentinel i); [done|].
    destruct (Z.eqb_spec tableType SEQUENCE_TABLE) as [->|Hns];
      [|destruct (Z.eqb_spec tableType FONT_TABLE) as [->|Hnf]; [|done]].
    + destruct (Z.eqb_spec t SEQUENCE_TABLE) as [->|Hts]; cbn; [|done].
      apply list_lookup_total_insert_ne. destruct Hdiff as [|]; [done | lia].
    + destruct (Z.eqb_spec t SEQUENCE_TABLE) as [->|Hts]; cbn; [done|].
      destruct (Z.eqb_spec t FONT_TABLE) as [->|Htf]; cbn; [|done].
      apply list_lookup_total_insert_ne. destruct Hdiff as [|]; [done | lia].
Qed.

Lemma load_status_set_get_witness :
  AudioApi_GetTableEntryLoadStatus identity_index
    (AudioApi_SetTableEntryLoadStatus identity_index empty_state SEQUENCE_TABLE 7
       (256 + LOAD_STATUS_COMPLETE))
    SEQUENCE_TABLE 7
  = LOAD_STATUS_COMPLETE.
Proof.
  destruct (load_status_set_get identity_index empty_state SEQUENCE_TABLE 7
              (256 + LOAD_STATUS_COMPLETE))
    as (_ & _ & H & _).
  { unfold identity_index. lia. }
  destruct H as (H & _); [reflexivity | vm_compute; reflexivity | exact H].
Defined.

(** **** Registration and search *)

(** X9: a resource pushed into the fake caches is found by the searches.
    After [AudioApi_PushFakeCache] with any policy,
    [AudioHeap_SearchRegularCaches] returns the address stored in the
    table entry when that is a KSEG0 address and NULL otherwise;
    [AudioHeap_SearchPermanentCache] does the same when the policy was the
    permanent one or the key was permanent already, and returns NULL
    otherwise; searches for every other key answer as before the push. *)
Theorem push_then_search (real : Z -> Z -> Z) (st : State)
    (tableType cachePolicy id cache : Z) :
  let st' := AudioApi_PushFakeCache real st tableType cachePolicy id in
  let key := cache_key tableType (real tableType id) in
  let addr :=
    romAddr (entries (AudioLoad_GetLoadTable st tableType)
               !!! Z.to_nat (real tableType id)) in
  let found := if IS_KSEG0 addr then addr else NULL in
  AudioHeap_SearchRegularCaches real st' tableType cache id = found
  /\ AudioHeap_SearchPermanentCache real st' tableType id
     = (if (cachePolicy =? CACHE_LOAD_PERMANENT)
           || bool_decide (key ∈ permanentCache st)
        then found else NULL)
  /\ (forall tableType' cache' id',
        cache_key tableType' (real tableType' id') <> key ->
        AudioHeap_SearchCaches real st' tableType' cache' id'
        = AudioHeap_SearchCaches real st tableType' cache' id').
Proof.
  intros st' key addr found.
  assert (loadedCache st' = {[key]} ∪ loadedCache st
          /\ permanentCache st'
             = (if cachePolicy =? CACHE_LOAD_PERMANENT
                then {[key]} ∪ permanentCache st else permanentCache st)
          /\ (forall t, AudioLoad_GetLoadTable st' t = AudioLoad_GetLoadTable st t))
    as (Hl & Hp & Ht).
  { subst st'. unfold AudioApi_PushFakeCache. fold key.
    destruct (cachePolicy =? CACHE_LOAD_PERMANENT); cbn;
      destruct (_ && _); cbn; try destruct (existsb _ _); cbn; done. }
  unfold AudioHeap_SearchRegularCaches, AudioHeap_SearchPermanentCache,
    AudioHeap_SearchCaches.
  rewrite Hl, Hp. split_and!.
  - rewrite Ht. fold key. fold addr.
    change (CACHE_EITHER =? CACHE_PERMANENT) with false.
    rewrite andb_false_r.
    rewrite (bool_decide_eq_true_2 (key ∈ {[key]} ∪ loadedCache st))
      by (apply elem_of_union; left; by apply elem_of_singleton).
    cbn. subst found. by destruct (IS_KSEG0 addr).
  - rewrite Ht. fold key. fold addr. cbn.
    rewrite (bool_decide_eq_true_2 (key ∈ {[key]} ∪ loadedCache st))
      by (apply elem_of_union; left; by apply elem_of_singleton).
    destruct (cachePolicy =? CACHE_LOAD_PERMANENT); cbn.
    + rewrite bool_decide_eq_true_2
        by (apply elem_of_union; left; by apply elem_of_singleton).
      cbn. subst found. by destruct (IS_KSEG0 addr).
    + destruct (bool_decide (key ∈ permanentCache st)); cbn; [|done].
      subst found. by destruct (IS_KSEG0 addr).
  - intros t' c' i' Hne. rewrite Ht.
    set (k' := cache_key t' (real t' i')) in *.
    assert (bool_decide (k' ∈ {[key]} ∪ loadedCache st)
            = bool_decide (k' ∈ loadedCache st)) as ->.
    { apply bool_decide_ext. rewrite elem_of_union, elem_of_singleton. tauto. }
    assert (bool_decide (k' ∈ (if cachePolicy =? CACHE_LOAD_PERMANENT
                               then {[key]} ∪ permanentCache st
                               else permanentCache st))
            = bool_decide (k' ∈ permanentCache st)) as ->.
    { apply bool_decide_ext. destruct (cachePolicy =? _); [|done].
      rewrite elem_of_union, elem_of_singleton. tauto. }
    reflexivity.
Qed.

(** The calls that load_status.c offers, as data. *)
Inductive Op :=
| OpSet (tableType id status : Z)
| OpPush (tableType cachePolicy id : Z)
| OpPop (tableType : Z)
| OpReset.

Definition run_op (real : Z -> Z -> Z) (st : State) (op : Op) : State :=
  match op with
  | OpSet t i s => AudioApi_SetTableEntryLoadStatus real st t i s
  | OpPush t p i => AudioApi_PushFakeCache real st t p i
  | OpPop t => AudioHeap_PopPersistentCache real st t
  | OpReset => AudioHeap_ResetLoadStatus real st
  end.

Definition run_ops (real : Z -> Z -> Z) (st : State) (ops : list Op) : State :=
  fold_left (run_op real) ops st.

Definition is_push (op : Op) : bool :=
  match op with OpPush _ _ _ => true | _ => false end.

(** What a search reads: the two key sets and the three tables. *)
Definition search_view (st : State) : gset Z * gset Z * (AudioTable * AudioTable * AudioTable) :=
  (permanentCache st, loadedCache st,
   (sequenceTable st, soundFontTable st, sampleBankTable st)).

Lemma view_eq_inv st st' :
  search_view st' = search_view st ->
  permanentCache st' = permanentCache st
  /\ loadedCache st' = loadedCache st
  /\ (search_view st').2 = (search_view st).2.
Proof. unfold search_view. intros E. injection E as E1 E2 E3 E4 E5. cbn. by rewrite E1, E2, E3, E4, E5. Qed.

Lemma view_tables st st' t :
  (search_view st').2 = (search_view st).2 ->
  AudioLoad_GetLoadTable st' t = AudioLoad_GetLoadTable st t.
Proof.
  unfold search_view, AudioLoad_GetLoadTable. cbn. intros E.
  injection E as E1 E2 E3. by rewrite E1, E2, E3.
Qed.

Lemma set_status_view real st t i s :
  search_view (AudioApi_SetTableEntryLoadStatus real st t i s) = search_view st.
Proof.
  unfold AudioApi_SetTableEntryLoadStatus.
  destruct (is_sentinel i); [done|].
  destruct (t =? SEQUENCE_TABLE); [done|]. by destruct (t =? FONT_TABLE).
Qed.

Lemma pop_view real st t :
  search_view (AudioHeap_PopPersistentCache real st t) = search_view st.
Proof.
  unfold AudioHeap_PopPersistentCache.
  destruct (find_topmost _ _ _) as [i|]; [|done].
  change (search_view (set_persistent ?s ?pc)) with (search_view s).
  rewrite set_status_view. by destruct (t =? FONT_TABLE).
Qed.

Lemma reset_view real st :
  search_view (AudioHeap_ResetLoadStatus real st) = search_view st.
Proof.
  unfold AudioHeap_ResetLoadStatus. rewrite reset_loop_seq, reset_loop_font.
  reflexivity.
Qed.

Lemma push_view real st t p i :
  permanentCache st ⊆ permanentCache (AudioApi_PushFakeCache real st t p i)
  /\ loadedCache st ⊆ loadedCache (AudioApi_PushFakeCache real st t p i)
  /\ (search_view (AudioApi_PushFakeCache real st t p i)).2 = (search_view st).2.
Proof.
  unfold AudioApi_PushFakeCache.
  destruct (p =? CACHE_LOAD_PERMANENT); cbn;
    destruct (_ && _); cbn; try destruct (existsb _ _); cbn;
    split_and!; try done; set_solver.
Qed.

Lemma search_of_view real st st' t c i :
  (search_view st').2 = (search_view st).2 ->
  permanentCache st ⊆ permanentCache st' ->
  loadedCache st ⊆ loadedCache st' ->
  AudioHeap_SearchCaches real st t c i <> NULL ->
  AudioHeap_SearchCaches real st' t c i = AudioHeap_SearchCaches real st t c i.
Proof.
  intros Hv Hp Hl. unfold AudioHeap_SearchCaches.
  rewrite (view_tables st st' t Hv).
  set (k := cache_key t (real t i)).
  destruct (bool_decide_reflect (k ∈ loadedCache st)) as [Hkl|Hkl]; cbn.
  2:{ by destruct (_ && _). }
  rewrite (bool_decide_eq_true_2 (k ∈ loadedCache st')) by set_solver. cbn.
  destruct (bool_decide_reflect (k ∈ permanentCache st)) as [Hkp|Hkp]; cbn.
  - rewrite (bool_decide_eq_true_2 (k ∈ permanentCache st')) by set_solver. done.
  - destruct (c =? CACHE_PERMANENT); cbn; [done|]. by rewrite andb_false_r.
Qed.

Lemma run_ops_view real ops st :
  (search_view (run_ops real st ops)).2 = (search_view st).2
  /\ permanentCache st ⊆ permanentCache (run_ops real st ops)
  /\ loadedCache st ⊆ loadedCache (run_ops real st ops)
  /\ (forallb (fun op => negb (is_push op)) ops = true ->
      search_view (run_ops real st ops) = search_view st).
Proof.
  revert st. induction ops as [|op ops IH]; intros st; [done|].
  change (run_ops real st (op :: ops)) with (run_ops real (run_op real st op) ops).
  destruct (IH (run_op real st op)) as (Hv & Hp & Hl & He).
  assert ((search_view (run_op real st op)).2 = (search_view st).2
          /\ permanentCache st ⊆ permanentCache (run_op real st op)
          /\ loadedCache st ⊆ loadedCache (run_op real st op)
          /\ (is_push op = false ->
              search_view (run_op real st op) = search_view st))
    as (Hv1 & Hp1 & Hl1 & He1).
  { destruct op as [t i s|t p i|t|]; cbn [run_op is_push].
    - pose proof (set_status_view real st t i s) as E.
      destruct (view_eq_inv _ _ E) as (E1 & E2 & E3).
      rewrite E1, E2. done.
    - pose proof (push_view real st t p i) as (? & ? & ?). done.
    - pose proof (pop_view real st t) as E.
      destruct (view_eq_inv _ _ E) as (E1 & E2 & E3).
      rewrite E1, E2. done.
    - pose proof (reset_view real st) as E.
      destruct (view_eq_inv _ _ E) as (E1 & E2 & E3).
      rewrite E1, E2. done. }
  split_and!.
  - by rewrite Hv.
  - by etrans.
  - by etrans.
  - cbn [forallb]. intros [H1 H2]%andb_true_iff.
    rewrite He by done. apply He1. by destruct (is_push op).
Qed.

(** X10: nothing in load_status.c takes a resource out of the fake
    caches.  Whatever sequence of status writes, pushes, pops of the
    persistent stack and resets runs, a search that found a resource
    still finds it, at the same address; and when the sequence has no
    push, every search answers exactly as before.  In particular a pop or
    a reset, which set load statuses back to NotLoaded, leave the
    resource registered. *)
Theorem search_survives_all_calls (real : Z -> Z -> Z) (st : State)
    (ops : list Op) (tableType cache id : Z) :
  (AudioHeap_SearchCaches real st tableType cache id <> NULL ->
   AudioHeap_SearchCaches real (run_ops real st ops) tableType cache id
   = AudioHeap_SearchCaches real st tableType cache id)
  /\ (forallb (fun op => negb (is_push op)) ops = true ->
      AudioHeap_SearchCaches real (run_ops real st ops) tableType cache id
      = AudioHeap_SearchCaches real st tableType cache id)
  /\ AudioHeap_SearchCaches real
       (AudioHeap_PopPersistentCache real
          (AudioApi_PushFakeCache real st tableType CACHE_LOAD_PERSISTENT id)
          tableType)
       tableType CACHE_EITHER id
     = AudioHeap_SearchRegularCaches real
         (AudioApi_PushFakeCache real st tableType CACHE_LOAD_PERSISTENT id)
         tableType cache id.
Proof.
  destruct (run_ops_view real ops st) as (Hv & Hp & Hl & He).
  split_and!.
  - by apply search_of_view.
  - intros Hn. destruct (view_eq_inv _ _ (He Hn)) as (E1 & E2 & E3).
    unfold AudioHeap_SearchCaches.
    by rewrite E1, E2, (view_tables _ _ _ E3).
  - unfold AudioHeap_SearchRegularCaches.
    destruct (view_eq_inv _ _ (pop_view real
      (AudioApi_PushFakeCache real st tableType CACHE_LOAD_PERSISTENT id)
      tableType)) as (E1 & E2 & E3).
    unfold AudioHeap_SearchCaches.
    by rewrite E1, E2, (view_tables _ _ _ E3).
Qed.

(** **** Push followed by pop *)

(** X11: a persistent push followed by a pop of the same table type is a
    round trip on the stack.  When the stack is not full and the key is
    not on it, the push puts the key on top and the pop takes that same
    entry off: the stack is as before the push.  The pop hands the stored
    index, which the push had already translated, to
    [AudioApi_SetTableEntryLoadStatus], which translates it again: the
    status arrays are those of the state before with the status of
    [real (real id)] set to NotLoaded, and for the font table the stored
    index is what [AudioHeap_DiscardFont] receives.  The key stays in the
    loaded set.  (The table type is a value of the s16 field.) *)
Theorem push_pop_round_trip (real : Z -> Z -> Z) (st : State) (tableType id : Z) :
  wf_cache (persistentCache st) ->
  -32768 <= tableType < 32768 ->
  pcNumEntries (persistentCache st) < MAX_PERSISTENT_CACHE_ENTRIES ->
  mkPEntry tableType (real tableType id) ∉ stack st ->
  let realId := real tableType id in
  let st1 := AudioApi_PushFakeCache real st tableType CACHE_LOAD_PERSISTENT id in
  let st2 := AudioHeap_PopPersistentCache real st1 tableType in
  let written :=
    AudioApi_SetTableEntryLoadStatus real st tableType realId LOAD_STATUS_NOT_LOADED in
  stack st1 = stack st ++ [mkPEntry tableType realId]
  /\ stack st2 = stack st
  /\ pcNumEntries (persistentCache st2) = pcNumEntries (persistentCache st)
  /\ sExtSeqLoadStatus st2 = sExtSeqLoadStatus written
  /\ sExtSoundFontLoadStatus st2 = sExtSoundFontLoadStatus written
  /\ discardedFonts st2
     = (if tableType =? FONT_TABLE then discardedFonts st ++ [realId]
        else discardedFonts st)
  /\ loadedCache st2 = {[cache_key tableType realId]} ∪ loadedCache st
  /\ permanentCache st2 = permanentCache st.
Proof.
  intros Hwf Hrange Hroom Hnew realId st1 st2 written.
  pose proof (push_persistent real st tableType CACHE_LOAD_PERSISTENT id Hwf)
    as Hpush.
  cbn zeta in Hpush. rewrite s16_small in Hpush by done.
  fold st1 in Hpush. fold realId in Hpush.
  change (CACHE_LOAD_PERSISTENT =? CACHE_LOAD_PERSISTENT) with true in Hpush.
  rewrite (proj2 (Z.ltb_lt _ _) Hroom) in Hpush.
  rewrite (bool_decide_eq_false_2 _ Hnew) in Hpush. cbn in Hpush.
  destruct Hpush as (Hs1 & Hn1 & Hwf1).
  destruct (pop_found real st1 tableType (stack st) (mkPEntry tableType realId) []
              Hwf1) as [Hpop Htake].
  { exact Hs1. }
  { reflexivity. }
  { intros e' He'. by apply elem_of_nil in He'. }
  rewrite app_nil_r in Htake. cbn [LoadStatus.id] in Hpop.
  assert (sExtSeqLoadStatus st1 = sExtSeqLoadStatus st
          /\ sExtSoundFontLoadStatus st1 = sExtSoundFontLoadStatus st
          /\ discardedFonts st1 = discardedFonts st
          /\ loadedCache st1 = {[cache_key tableType realId]} ∪ loadedCache st
          /\ permanentCache st1 = permanentCache st)
    as (Hq1 & Hf1 & Hd1 & Hl1 & Hp1).
  { subst st1. unfold AudioApi_PushFakeCache. fold realId.
    change (CACHE_LOAD_PERSISTENT =? CACHE_LOAD_PERMANENT) with false. cbn.
    destruct (_ <? _); cbn; [|done]. destruct (existsb _ _); done. }
  split; [exact Hs1|].
  subst st2. rewrite Hpop. unfold stack. cbn.
  split; [exact Htake|]. split; [lia|].
  subst written. unfold AudioApi_SetTableEntryLoadStatus.
  destruct (is_sentinel realId);
    [|destruct (tableType =? SEQUENCE_TABLE) eqn:Es;
      [apply Z.eqb_eq in Es; subst tableType;
       change (SEQUENCE_TABLE =? FONT_TABLE) with false
      |destruct (tableType =? FONT_TABLE)]];
    cbn; rewrite ?Hq1, ?Hf1, ?Hd1; split_and!; try done.
  all: destruct (tableType =? FONT_TABLE); cbn; by rewrite ?Hd1.
Qed.

Lemma push_pop_round_trip_witness :
  let st1 := AudioApi_PushFakeCache identity_index empty_state FONT_TABLE
               CACHE_LOAD_PERSISTENT 3 in
  let st2 := AudioHeap_PopPersistentCache identity_index st1 FONT_TABLE in
  stack st1 = [mkPEntry FONT_TABLE 3]
  /\ stack st2 = []
  /\ discardedFonts st2 = [3].
Proof.
  destruct (push_pop_round_trip identity_index empty_state FONT_TABLE 3)
    as (H1 & H2 & _ & _ & _ & H3 & _).
  - exact empty_state_wf.
  - unfold FONT_TABLE. lia.
  - vm_compute. reflexivity.
  - unfold stack. cbn. apply not_elem_of_nil.
  - cbn zeta. rewrite H1, H2, H3. split_and!; reflexivity.
Defined.

End LoadStatus.

(** ** src/core/sequence.c and src/core/samplebank.c *)

Module Tables.

Import Tbl.

(** [AudioApiInitPhase]: NOT_READY(0) -> QUEUEING(1) -> QUEUED(2) -> READY(3). *)
Definition AUDIOAPI_INIT_NOT_READY : Z := 0.
Definition AUDIOAPI_INIT_QUEUEING : Z := 1.
Definition AUDIOAPI_INIT_READY : Z := 3.

(** Sequence ids of the game: the vanilla table has 0x80 entries, the frog
    song is seq_90, and the two sentinels end in 0xFF and 0xFE. *)
Definition NA_BGM_MAX : Z := 0x80.
Definition NA_BGM_FROG_SONG : Z := 0x5A.
Definition NA_BGM_DISABLED : Z := 0xFFFF.
Definition NA_BGM_UNKNOWN : Z := 0xFE.

Definition NA_SAMPLEBANK_MAX : Z := 3.
Definition MAX_FONTS_PER_SEQUENCE : Z := 4.

(** [AudioApiSequenceQueueOp] and [AudioApiSampleBankQueueOp] *)
Definition AUDIOAPI_CMD_OP_REPLACE_SEQUENCE : Z := 0.
Definition AUDIOAPI_CMD_OP_REPLACE_SEQUENCE_FONT : Z := 1.
Definition AUDIOAPI_CMD_OP_REPLACE_SAMPLEBANK : Z := 0.

(** A block of memory holds a table (header and entries), an array of
    bytes (the sequence font table, the flags, the load status), or one
    table entry (the heap copy made for a queued replacement). *)
Inductive Block :=
| BTable (t : AudioTable)
| BBytes (b : list Z)
| BEntry (e : AudioTableEntry).

(** The globals of sequence.c with the fields of [gAudioCtx] it manages.
    The four arrays are pointers into memory; the queue is kept by value. *)
Record SeqGlobals := mkSeq {
  sequenceTable : Z;
  sequenceFontTable : Z;
  numSequences : Z;
  sExtSeqFlags : Z;
  sExtSeqLoadStatus : Z;
  sequenceTableCapacity : Z;
  sequenceQueue : Queue.RecompQueue;
  sLoggedFrogSongReplaceIgnore : bool
}.

(** The globals of samplebank.c. *)
Record BankGlobals := mkBank {
  sampleBankTable : Z;
  sampleBankTableCapacity : Z;
  sampleBankQueue : Queue.RecompQueue
}.

Record State := mkState {
  mem : gmap Z Block;
  gAudioApiInitPhase : Z;
  seq : SeqGlobals;
  bank : BankGlobals
}.

Definition set_mem (st : State) (m : gmap Z Block) : State :=
  mkState m (gAudioApiInitPhase st) (seq st) (bank st).


Definition set_seq (st : State) (s : SeqGlobals) : State :=
  mkState (mem st) (gAudioApiInitPhase st) s (bank st).

Definition set_bank (st : State) (b : BankGlobals) : State :=
  mkState (mem st) (gAudioApiInitPhase st) (seq st) b.

Definition set_seq_queue (st : State) (q : Queue.RecompQueue) : State :=
  set_seq st (mkSeq (sequenceTable (seq st)) (sequenceFontTable (seq st))
                    (numSequences (seq st)) (sExtSeqFlags (seq st))
                    (sExtSeqLoadStatus (seq st)) (sequenceTableCapacity (seq st))
                    q (sLoggedFrogSongReplaceIgnore (seq st))).

Definition set_bank_queue (st : State) (q : Queue.RecompQueue) : State :=
  set_bank st (mkBank (sampleBankTable (bank st)) (sampleBankTableCapacity (bank st)) q).

Definition empty_table : AudioTable := mkTable 0 0 0 [].

(** Reads through a pointer; an address that holds no block of the expected
    kind reads as an empty table, no bytes, or a zero entry. *)
Definition load_table (m : gmap Z Block) (p : Z) : AudioTable :=
  match m !! p with
  | Some (BTable t) => t
  | _ => empty_table
  end.

Definition load_bytes (m : gmap Z Block) (p : Z) : list Z :=
  match m !! p with
  | Some (BBytes b) => b
  | _ => []
  end.


(** Writes through a pointer; a write to an address that holds no block of
    the expected kind, or to a slot outside the array, is dropped. *)
Definition update_table (p : Z) (f : AudioTable -> AudioTable) (m : gmap Z Block)
  : gmap Z Block :=
  match m !! p with
  | Some (BTable t) => <[p := BTable (f t)]> m
  | _ => m
  end.

Definition update_bytes (p : Z) (f : list Z -> list Z) (m : gmap Z Block)
  : gmap Z Block :=
  match m !! p with
  | Some (BBytes b) => <[p := BBytes (f b)]> m
  | _ => m
  end.

(** [table->entries[i] = e] *)
Definition set_entry (i : Z) (e : AudioTableEntry) (t : AudioTable) : AudioTable :=
  if i <? 0 then t
  else mkTable (numEntries t) (unkMediumParam t) (tableRomAddr t)
               (<[Z.to_nat i := e]> (entries t)).

(** [table->header.numEntries = n] (an s16) *)
Definition set_numEntries (n : Z) (t : AudioTable) : AudioTable :=
  mkTable (s16 n) (unkMediumParam t) (tableRomAddr t) (entries t).

(** The entry of a table that a reader of [gAudioCtx] sees at [id]. *)
Definition table_entry (m : gmap Z Block) (table id : Z) : AudioTableEntry :=
  entries (load_table m table) !!! Z.to_nat id.

(** [Lib_MemSet(new, 0, newSize); Lib_MemCpy(new, old, oldSize)] for a table
    of [newCapacity] entries and for an array of [newCapacity] bytes. *)
Definition grown_table (old : AudioTable) (oldCapacity newCapacity : Z) : AudioTable :=
  mkTable (numEntries old) (unkMediumParam old) (tableRomAddr old)
          (resize (Z.to_nat newCapacity) zero_entry
                  (take (Z.to_nat oldCapacity) (entries old))).

Definition grown_bytes (old : list Z) (oldCapacity newCapacity : Z) : list Z :=
  resize (Z.to_nat newCapacity) 0 (take (Z.to_nat oldCapacity) old).

(** [if (p != NULL) recomp_free(p)] *)
Definition free_if_set (p : Z) (m : gmap Z Block) : gmap Z Block :=
  if p =? NULL then m else recomp_free p m.

(** [(id & 0xFF) == (NA_BGM_DISABLED & 0xFF) || (id & 0xFF) == (NA_BGM_UNKNOWN & 0xFF)] *)
Definition is_sentinel (id : Z) : bool :=
  (Z.land id 0xFF =? Z.land NA_BGM_DISABLED 0xFF)
  || (Z.land id 0xFF =? Z.land NA_BGM_UNKNOWN 0xFF).

(** [while (is_sentinel(id)) id++;] with at most [fuel] iterations. *)
Fixpoint skip_sentinels (fuel : nat) (id : Z) : Z :=
  match fuel with
  | O => id
  | S f => if is_sentinel id then skip_sentinels f (id + 1) else id
  end.

(** Bytes written one after the other from offset [off]. *)
Fixpoint write_bytes (dst : list Z) (off : nat) (src : list Z) : list Z :=
  match src with
  | [] => dst
  | b :: src' => write_bytes (<[off := b]> dst) (S off) src'
  end.

(** The big-endian u16 at byte offset [off]. *)
Definition be16 (b : list Z) (off : nat) : Z :=
  b !!! off * 256 + b !!! S off.

(** One iteration of the loop of [AudioApi_RebuildSequenceFontTable]. *)
Definition rebuild_font_entry (old : list Z) (oldCapacity newCapacity : Z)
    (new : list Z) (seqId : Z) : list Z :=
  let offset := u16 (2 * newCapacity + seqId * (MAX_FONTS_PER_SEQUENCE + 1)) in
  let new := write_bytes new (Z.to_nat (2 * seqId)) [offset / 256; offset mod 256] in
  if seqId <? oldCapacity then
    let index := be16 old (Z.to_nat (2 * seqId)) in
    let numFonts := old !!! Z.to_nat index in
    write_bytes new
                (Z.to_nat (2 * newCapacity + seqId * (MAX_FONTS_PER_SEQUENCE + 1)))
                (take (Z.to_nat (numFonts + 1)) (drop (Z.to_nat index) old))
  else new.

Definition rebuilt_font_table (old : list Z) (oldCapacity newCapacity : Z) : list Z :=
  fold_left (rebuild_font_entry old oldCapacity newCapacity)
            (seqZ 0 newCapacity)
            (replicate (Z.to_nat ((2 + MAX_FONTS_PER_SEQUENCE + 1) * newCapacity)) 0).

(** The entry count and the entries of the two tables as a reader of
    [gAudioCtx] sees them. *)
Definition seq_count (st : State) : Z :=
  numEntries (load_table (mem st) (sequenceTable (seq st))).

Definition seq_entry (st : State) (id : Z) : AudioTableEntry :=
  table_entry (mem st) (sequenceTable (seq st)) id.

Definition bank_count (st : State) : Z :=
  numEntries (load_table (mem st) (sampleBankTable (bank st))).

Definition bank_entry (st : State) (id : Z) : AudioTableEntry :=
  table_entry (mem st) (sampleBankTable (bank st)) id.

(** The sequence tables as the code keeps them: the table and its three
    companion arrays are allocated, the table has [capacity] slots and its
    count is within them. *)
Record wf_seq (st : State) : Prop := {
  wf_seq_table : exists t, mem st !! sequenceTable (seq st) = Some (BTable t)
                           /\ length (entries t) = Z.to_nat (sequenceTableCapacity (seq st));
  wf_seq_count : 0 <= seq_count st <= sequenceTableCapacity (seq st);
  wf_seq_cap : 2 < sequenceTableCapacity (seq st);
  wf_seq_font : is_Some (mem st !! sequenceFontTable (seq st));
  wf_seq_flags : is_Some (mem st !! sExtSeqFlags (seq st));
  wf_seq_status : is_Some (mem st !! sExtSeqLoadStatus (seq st))
}.

Record wf_bank (st : State) : Prop := {
  wf_bank_table : exists t, mem st !! sampleBankTable (bank st) = Some (BTable t)
                            /\ length (entries t)
                               = Z.to_nat (sampleBankTableCapacity (bank st));
  wf_bank_count : 0 <= bank_count st <= sampleBankTableCapacity (bank st);
  wf_bank_cap : 0 < sampleBankTableCapacity (bank st)
}.






(** What [m'] keeps of [m] when only the table at [table] and byte arrays
    were written and the addresses in [freed] were freed: the entry copies,
    the other tables, and the header and size of the table at [table]. *)
Definition kept (table : Z) (freed : Z -> Prop) (m m' : gmap Z Block) : Prop :=
  (forall p e, m !! p = Some (BEntry e) -> ~ freed p -> m' !! p = Some (BEntry e))
  /\ (forall p t, m !! p = Some (BTable t) -> ~ freed p ->
        exists t', m' !! p = Some (BTable t')
                   /\ numEntries t' = numEntries t
                   /\ length (entries t') = length (entries t)
                   /\ (p <> table -> t' = t)).




(** Runs of [Add] and [Replace] calls, for any table kind. *)
Section Calls.

Context {St : Type}.
Variable add : Oracle -> AudioTableEntry -> St -> Z * St * Oracle.
Variable replace : Oracle -> Z -> AudioTableEntry -> St -> St * Oracle.
Variable count : St -> Z.
Variable get : St -> Z -> AudioTableEntry.
Variable applies : St -> Z -> bool.
Variable inv : St -> Prop.
Variable good : Z -> Prop.



Hypothesis add_step :
  forall o e st id st' o',
    inv st -> count st + 3 <= 32767 -> add o e st = (id, st', o') ->
    (id = -1 /\ st' = st)
    \/ (good id /\ count st <= id <= count st + 2 /\ count st' = id + 1
        /\ get st' id = e
        /\ (forall j, 0 <= j < count st -> get st' j = get st j)
        /\ inv st').
Hypothesis replace_step :
  forall o id e st st' o',
    inv st -> 0 <= id -> replace o id e st = (st', o') ->
    inv st' /\ count st' = count st
    /\ (forall j, 0 <= j < count st ->
          get st' j = if applies st id && (j =? id) then e else get st j).
Hypothesis applies_in_range : forall st id, applies st id = true -> id < count st.
Hypothesis inv_count : forall st, inv st -> 0 <= count st.


End Calls.

Section WithExternals.

(** [IS_RECOMP_ALLOC(p)], a macro of the mod's headers: whether the address
    was handed out by [recomp_alloc]. *)
Variable IS_RECOMP_ALLOC : Z -> bool.

(** [AudioApi_SetSequenceFlagsInternal(seqId, flags)] of
    sequence_functions.c, outside these sources. *)
Variable AudioApi_SetSequenceFlagsInternal : Z -> Z -> State -> State.

(** [if (IS_RECOMP_ALLOC(p)) recomp_free(p)] *)
Definition free_if_owned (p : Z) (m : gmap Z Block) : gmap Z Block :=
  if IS_RECOMP_ALLOC p then recomp_free p m else m.

(** Returns the new table, or NULL when the allocation fails. *)
Definition AudioApi_RebuildSequenceFontTable (o : Oracle) (st : State)
    (oldCapacity newCapacity : Z) : Z * State * Oracle :=
  let old := load_bytes (mem st) (sequenceFontTable (seq st)) in
  let '(p, m, o) :=
    recomp_alloc o (BBytes (rebuilt_font_table old oldCapacity newCapacity)) (mem st) in
  (p, set_mem st m, o).

(** The [cleanup:] label of [AudioApi_GrowSequenceTables]. *)
Definition grow_sequence_cleanup
    (newSeqTable newSeqFontTable newSeqFlags newSeqLoadStatus : Z) (st : State)
  : State :=
  set_mem st (free_if_set newSeqLoadStatus
               (free_if_set newSeqFlags
                 (free_if_set newSeqFontTable
                   (free_if_set newSeqTable (mem st))))).

Definition AudioApi_GrowSequenceTables (o : Oracle) (st : State)
  : bool * State * Oracle :=
  let g := seq st in
  let oldCapacity := sequenceTableCapacity g in
  let newCapacity := u16 (Z.shiftl (sequenceTableCapacity g) 1) in
  (* gAudioCtx.sequenceTable *)
  let '(newSeqTable, m, o) :=
    recomp_alloc o (BTable (grown_table (load_table (mem st) (sequenceTable g))
                                        oldCapacity newCapacity)) (mem st) in
  let st1 := set_mem st m in
  if newSeqTable =? NULL
  then (false, grow_sequence_cleanup newSeqTable NULL NULL NULL st1, o) else
  (* gAudioCtx.sequenceFontTable *)
  let '(newSeqFontTable, st2, o) :=
    AudioApi_RebuildSequenceFontTable o st1 oldCapacity newCapacity in
  if newSeqFontTable =? NULL
  then (false, grow_sequence_cleanup newSeqTable newSeqFontTable NULL NULL st2, o) else
  (* sExtSeqFlags *)
  let '(newSeqFlags, m, o) :=
    recomp_alloc o (BBytes (grown_bytes (load_bytes (mem st2) (sExtSeqFlags g))
                                        oldCapacity newCapacity)) (mem st2) in
  let st3 := set_mem st2 m in
  if newSeqFlags =? NULL
  then (false, grow_sequence_cleanup newSeqTable newSeqFontTable newSeqFlags NULL st3, o)
  else
  (* sExtSeqLoadStatus *)
  let '(newSeqLoadStatus, m, o) :=
    recomp_alloc o (BBytes (grown_bytes (load_bytes (mem st3) (sExtSeqLoadStatus g))
                                        oldCapacity newCapacity)) (mem st3) in
  let st4 := set_mem st3 m in
  if newSeqLoadStatus =? NULL
  then (false,
        grow_sequence_cleanup newSeqTable newSeqFontTable newSeqFlags newSeqLoadStatus st4,
        o)
  else
  (* free the old tables, store the new ones *)
  let m := free_if_owned (sExtSeqLoadStatus g)
             (free_if_owned (sExtSeqFlags g)
               (free_if_owned (sequenceFontTable g)
                 (free_if_owned (sequenceTable g) (mem st4)))) in
  (true,
   mkState m (gAudioApiInitPhase st)
           (mkSeq newSeqTable newSeqFontTable (numSequences g)
                  newSeqFlags newSeqLoadStatus newCapacity
                  (sequenceQueue g) (sLoggedFrogSongReplaceIgnore g))
           (bank st),
   o).

Definition AudioApi_GrowSampleBankTables (o : Oracle) (st : State)
  : bool * State * Oracle :=
  let b := bank st in
  let oldCapacity := sampleBankTableCapacity b in
  let newCapacity := u16 (Z.shiftl (sampleBankTableCapacity b) 1) in
  let '(newSampleBankTable, m, o) :=
    recomp_alloc o (BTable (grown_table (load_table (mem st) (sampleBankTable b))
                                        oldCapacity newCapacity)) (mem st) in
  if newSampleBankTable =? NULL
  then (false, set_mem st (free_if_set newSampleBankTable m), o) else
  let m := free_if_owned (sampleBankTable b) m in
  (true,
   mkState m (gAudioApiInitPhase st) (seq st)
           (mkBank newSampleBankTable newCapacity (sampleBankQueue b)),
   o).

(** Returns the new sequence id, or -1. *)
Definition AudioApi_AddSequence (o : Oracle) (entry : AudioTableEntry) (st : State)
  : Z * State * Oracle :=
  if gAudioApiInitPhase st =? AUDIOAPI_INIT_NOT_READY then (-1, st, o) else
  let newSeqId :=
    skip_sentinels 2 (numEntries (load_table (mem st) (sequenceTable (seq st)))) in
  let '(ok, st, o) :=
    if sequenceTableCapacity (seq st) <=? newSeqId
    then AudioApi_GrowSequenceTables o st else (true, st, o) in
  if negb ok then (-1, st, o) else
  let g := seq st in
  let m := update_table (sequenceTable g)
             (fun t => set_numEntries (newSeqId + 1) (set_entry newSeqId entry t))
             (mem st) in
  (newSeqId,
   mkState m (gAudioApiInitPhase st)
           (mkSeq (sequenceTable g) (sequenceFontTable g) (s16 (newSeqId + 1))
                  (sExtSeqFlags g) (sExtSeqLoadStatus g) (sequenceTableCapacity g)
                  (sequenceQueue g) (sLoggedFrogSongReplaceIgnore g))
           (bank st),
   o).

(** [entry] is the struct the caller points to. *)
Definition AudioApi_ReplaceSequence (o : Oracle) (seqId : Z) (entry : AudioTableEntry)
    (st : State) : State * Oracle :=
  if gAudioApiInitPhase st =? AUDIOAPI_INIT_NOT_READY then (st, o) else
  if seqId =? NA_BGM_FROG_SONG then
    let g := seq st in
    (set_seq st (mkSeq (sequenceTable g) (sequenceFontTable g) (numSequences g)
                       (sExtSeqFlags g) (sExtSeqLoadStatus g)
                       (sequenceTableCapacity g) (sequenceQueue g) true), o)
  else
  if gAudioApiInitPhase st =? AUDIOAPI_INIT_QUEUEING then
    let '(copy, m, o) := recomp_alloc o (BEntry entry) (mem st) in
    if copy =? NULL then (st, o) else
    let st := set_mem st m in
    let '(_, q, o) :=
      Queue.RecompQueue_PushIfNotQueued o (sequenceQueue (seq st))
        AUDIOAPI_CMD_OP_REPLACE_SEQUENCE (u32 seqId) 0 (Some copy) in
    (set_seq_queue st q, o)
  else
  if numEntries (load_table (mem st) (sequenceTable (seq st))) <=? seqId then (st, o)
  else (set_mem st (update_table (sequenceTable (seq st)) (set_entry seqId entry) (mem st)),
        o).

(** A byte of an array read and written at a signed index; an index outside
    the array reads 0 and its write is dropped. *)
Definition byte_at (b : list Z) (i : Z) : Z :=
  if i <? 0 then 0 else b !!! Z.to_nat i.

Definition set_byte (i v : Z) (b : list Z) : list Z :=
  if i <? 0 then b else <[Z.to_nat i := u8 v]> b.

(** The u16 offset that the header of the font table holds for [seqId]. *)
Definition font_index (b : list Z) (seqId : Z) : Z :=
  byte_at b (2 * seqId) * 256 + byte_at b (2 * seqId + 1).

(** The writes of [AudioApi_AddSequenceFont] to the entry at [index]. *)
Definition prepend_font (index fontId : Z) (b : list Z) : list Z :=
  let b := set_byte (index + 4) (byte_at b (index + 3)) b in
  let b := set_byte (index + 3) (byte_at b (index + 2)) b in
  let b := set_byte (index + 2) (byte_at b (index + 1)) b in
  let b := set_byte (index + 1) fontId b in
  set_byte index (byte_at b index + 1) b.

(** Returns the new number of fonts, or -1. *)
Definition AudioApi_AddSequenceFont (seqId fontId : Z) (st : State) : Z * State :=
  if gAudioApiInitPhase st =? AUDIOAPI_INIT_NOT_READY then (-1, st) else
  if numEntries (load_table (mem st) (sequenceTable (seq st))) <=? seqId then (-1, st) else
  let table := load_bytes (mem st) (sequenceFontTable (seq st)) in
  let index := font_index table seqId in
  let numFonts := byte_at table index in
  if numFonts =? MAX_FONTS_PER_SEQUENCE then (-1, st) else
  (numFonts + 1,
   set_mem st (update_bytes (sequenceFontTable (seq st)) (prepend_font index fontId)
                            (mem st))).

Definition AudioApi_ReplaceSequenceFont (o : Oracle) (seqId fontNum fontId : Z)
    (st : State) : State * Oracle :=
  if gAudioApiInitPhase st =? AUDIOAPI_INIT_NOT_READY then (st, o) else
  if seqId =? NA_BGM_FROG_SONG then (st, o) else
  if gAudioApiInitPhase st =? AUDIOAPI_INIT_QUEUEING then
    let '(_, q, o) :=
      Queue.RecompQueue_PushIfNotQueued o (sequenceQueue (seq st))
        AUDIOAPI_CMD_OP_REPLACE_SEQUENCE_FONT (u32 seqId) (u32 fontNum)
        (Some (u32 fontId)) in
    (set_seq_queue st q, o)
  else
  if (numEntries (load_table (mem st) (sequenceTable (seq st))) <=? seqId)
     || (MAX_FONTS_PER_SEQUENCE <=? fontNum) then (st, o) else
  let table := load_bytes (mem st) (sequenceFontTable (seq st)) in
  let index := font_index table seqId in
  let numFonts := byte_at table index in
  if fontNum <? 0 then (st, o) else
  if numFonts <=? fontNum then ((AudioApi_AddSequenceFont seqId fontId st).2, o) else
  (set_mem st (update_bytes (sequenceFontTable (seq st))
                            (set_byte (index + (numFonts - fontNum)) fontId) (mem st)),
   o).




(** *** samplebank.c *)


Definition AudioApi_ReplaceSampleBank (o : Oracle) (bankId : Z) (entry : AudioTableEntry)
    (st : State) : State * Oracle :=
  if gAudioApiInitPhase st =? AUDIOAPI_INIT_NOT_READY then (st, o) else
  if gAudioApiInitPhase st =? AUDIOAPI_INIT_QUEUEING then
    let '(copy, m, o) := recomp_alloc o (BEntry entry) (mem st) in
    if copy =? NULL then (st, o) else
    let st := set_mem st m in
    let '(_, q, o) :=
      Queue.RecompQueue_PushIfNotQueued o (sampleBankQueue (bank st))
        AUDIOAPI_CMD_OP_REPLACE_SAMPLEBANK (u32 bankId) 0 (Some copy) in
    (set_bank_queue st q, o)
  else
  if numEntries (load_table (mem st) (sampleBankTable (bank st))) <=? bankId then (st, o)
  else (set_mem st (update_table (sampleBankTable (bank st)) (set_entry bankId entry)
                                 (mem st)),
        o).




(** *** Properties of the tables *)

Lemma fresh_above_insert {B} (m : gmap Z B) k b : k < fresh_addr (<[k := b]> m).
Proof.
  destruct (fresh_addr_spec (<[k := b]> m)) as [_ H]. apply H.
  rewrite lookup_insert_eq. eauto.
Qed.

Lemma fresh_insert_above {B} (m : gmap Z B) k b j :
  is_Some (m !! j) -> j < fresh_addr (<[k := b]> m).
Proof.
  intros Hj. destruct (fresh_addr_spec (<[k := b]> m)) as [_ H]. apply H.
  destruct (decide (k = j)) as [->|]; [rewrite lookup_insert_eq; eauto|].
  by rewrite lookup_insert_ne.
Qed.

Lemma fresh_positive {B} (m : gmap Z B) : 0 < fresh_addr m.
Proof.
  pose proof (proj1 (fresh_addr_spec m)) as H. unfold RECOMP_HEAP_BASE in H. lia.
Qed.

Lemma tables_state_eta st : mkState (mem st) (gAudioApiInitPhase st) (seq st) (bank st) = st.
Proof. destruct st; reflexivity. Qed.

Lemma set_mem_same st : set_mem st (mem st) = st.
Proof. apply tables_state_eta. Qed.

Lemma free_if_set_null (m : gmap Z Block) : free_if_set NULL m = m.
Proof. reflexivity. Qed.








(** *** Assigning ids *)



Lemma lookup_free_if_owned_ne p q (m : gmap Z Block) :
  p <> q -> free_if_owned q m !! p = m !! p.
Proof.
  intros Hne. unfold free_if_owned, recomp_free.
  destruct (IS_RECOMP_ALLOC q); [|done]. by rewrite lookup_delete_ne.
Qed.


(** A successful growth: the new table holds the old header and entries
    followed by zeroed slots, the capacity is doubled, and the four arrays
    are allocated. *)
Lemma grow_sequence_ok o st st' o' :
  wf_seq st ->
  AudioApi_GrowSequenceTables o st = (true, st', o') ->
  mem st' !! sequenceTable (seq st')
  = Some (BTable (grown_table (load_table (mem st) (sequenceTable (seq st)))
                              (sequenceTableCapacity (seq st))
                              (u16 (Z.shiftl (sequenceTableCapacity (seq st)) 1))))
  /\ sequenceTableCapacity (seq st') = u16 (Z.shiftl (sequenceTableCapacity (seq st)) 1)
  /\ is_Some (mem st' !! sequenceFontTable (seq st'))
  /\ is_Some (mem st' !! sExtSeqFlags (seq st'))
  /\ is_Some (mem st' !! sExtSeqLoadStatus (seq st'))
  /\ gAudioApiInitPhase st' = gAudioApiInitPhase st
  /\ sequenceQueue (seq st') = sequenceQueue (seq st)
  /\ bank st' = bank st.
Proof.
  intros [(t & Ht & Hlen) Hcount Hcap [bf Hf] [bg Hg] [bs Hs]].
  unfold AudioApi_GrowSequenceTables, AudioApi_RebuildSequenceFontTable, recomp_alloc.
  assert (forall k, is_Some (mem st !! k) -> k < fresh_addr (mem st)) as Hlt
    by apply fresh_addr_spec.
  pose proof (fresh_positive (mem st)) as Hpos.
  set (p1 := fresh_addr (mem st)) in *.
  destruct (next_alloc o) as [[] o1]; cbn; [|intros [=]].
  destruct (Z.eqb_spec p1 NULL) as [E|_]; [unfold NULL in E; lia|].
  match goal with |- context [<[p1 := ?b]> (mem st)] => set (m1 := <[p1 := b]> (mem st)) end.
  assert (p1 < fresh_addr m1) as H12 by apply fresh_above_insert.
  set (p2 := fresh_addr m1) in *.
  destruct (next_alloc o1) as [[] o2]; cbn; [|intros [=]].
  destruct (Z.eqb_spec p2 NULL) as [E|_]; [unfold NULL in E; lia|].
  match goal with |- context [<[p2 := ?b]> m1] => set (m2 := <[p2 := b]> m1) end.
  assert (p2 < fresh_addr m2) as H23 by apply fresh_above_insert.
  set (p3 := fresh_addr m2) in *.
  destruct (next_alloc o2) as [[] o3]; cbn; [|intros [=]].
  destruct (Z.eqb_spec p3 NULL) as [E|_]; [unfold NULL in E; lia|].
  match goal with |- context [<[p3 := ?b]> m2] => set (m3 := <[p3 := b]> m2) end.
  assert (p3 < fresh_addr m3) as H34 by apply fresh_above_insert.
  set (p4 := fresh_addr m3) in *.
  destruct (next_alloc o3) as [[] o4]; cbn; [|intros [=]].
  destruct (Z.eqb_spec p4 NULL) as [E|_]; [unfold NULL in E; lia|].
  intros [= <- <-]. cbn.
  assert (sequenceTable (seq st) < p1) by (apply Hlt; eauto).
  assert (sequenceFontTable (seq st) < p1) by (apply Hlt; eauto).
  assert (sExtSeqFlags (seq st) < p1) by (apply Hlt; eauto).
  assert (sExtSeqLoadStatus (seq st) < p1) by (apply Hlt; eauto).
  rewrite !lookup_free_if_owned_ne by lia.
  subst m3 m2 m1. 
  split_and!; try done.
  - rewrite !lookup_insert_ne by lia. rewrite lookup_insert_eq. reflexivity.
  - rewrite !lookup_insert_ne by lia. rewrite lookup_insert_eq. eauto.
  - rewrite !lookup_insert_ne by lia. rewrite lookup_insert_eq. eauto.
  - rewrite lookup_insert_eq. eauto.
Qed.

Lemma load_table_lookup m p t : m !! p = Some (BTable t) -> load_table m p = t.
Proof. intros H. unfold load_table. by rewrite H. Qed.

Lemma update_table_lookup m p t f :
  m !! p = Some (BTable t) ->
  update_table p f m !! p = Some (BTable (f t)).
Proof. intros H. unfold update_table. rewrite H. apply lookup_insert_eq. Qed.

Lemma update_table_lookup_ne m p q f :
  p <> q -> update_table p f m !! q = m !! q.
Proof.
  intros H. unfold update_table. destruct (m !! p) as [[]|]; try done.
  by rewrite lookup_insert_ne.
Qed.






(** *** Replacing entries *)


Lemma update_table_set_entry m p t id e :
  m !! p = Some (BTable t) -> 0 <= id ->
  update_table p (set_entry id e) m
  = <[p := BTable (mkTable (numEntries t) (unkMediumParam t) (tableRomAddr t)
                           (<[Z.to_nat id := e]> (entries t)))]> m.
Proof.
  intros Hp Hid. unfold update_table, set_entry. rewrite Hp.
  destruct (Z.ltb_spec id 0); [lia | reflexivity].
Qed.








(** *** Deferred replacement *)


Lemma kept_refl table freed m : kept table freed m m.
Proof. split; [done|]. intros p t Hp _. exists t. done. Qed.

Lemma kept_trans table (f1 f2 f : Z -> Prop) m1 m2 m3 :
  (forall p, f1 p -> f p) -> (forall p, f2 p -> f p) ->
  kept table f1 m1 m2 -> kept table f2 m2 m3 -> kept table f m1 m3.
Proof.
  intros H1 H2 [He1 Ht1] [He2 Ht2]. split.
  - intros p e Hp Hf. apply He2; [|by intros ?; apply Hf, H2].
    apply He1; [done|]. by intros ?; apply Hf, H1.
  - intros p t Hp Hf.
    destruct (Ht1 p t Hp) as (t1 & Hp1 & Hn1 & Hl1 & Hs1); [by intros ?; apply Hf, H1|].
    destruct (Ht2 p t1 Hp1) as (t2 & Hp2 & Hn2 & Hl2 & Hs2); [by intros ?; apply Hf, H2|].
    exists t2. split; [done|]. split; [congruence|]. split; [congruence|].
    intros Hne. rewrite Hs2, Hs1 by done. done.
Qed.





Lemma kept_weaken table (f1 f : Z -> Prop) m1 m2 :
  (forall p, f1 p -> f p) -> kept table f1 m1 m2 -> kept table f m1 m2.
Proof.
  intros H1 Hk. apply (kept_trans table f1 (fun _ => False) f m1 m2 m2);
    [done | done | done | apply kept_refl].
Qed.




















End WithExternals.

(** *** Examples *)

(** An [IS_RECOMP_ALLOC] for the examples: the addresses of the mod heap. *)
Definition in_recomp_heap (p : Z) : bool := RECOMP_HEAP_BASE <=? p.

Definition no_queue : Queue.RecompQueue := Queue.mkQueue [] 0 0.



















(** *** The fonts of a sequence *)

(** Returns the font id, or -1. *)
Definition AudioApi_GetSequenceFont (seqId fontNum : Z) (st : State) : Z :=
  if numEntries (load_table (mem st) (sequenceTable (seq st))) <=? seqId then -1 else
  let table := load_bytes (mem st) (sequenceFontTable (seq st)) in
  let index := font_index table seqId in
  let numFonts := byte_at table index in
  if numFonts <=? fontNum then -1 else byte_at table (index + (fontNum + 1)).

(** [gSequenceFontTable] is the font table of the ROM, in the same format
    as the live one. *)
Definition AudioApi_RestoreSequenceFont (gSequenceFontTable : list Z)
    (seqId fontNum : Z) (st : State) : State :=
  if gAudioApiInitPhase st <? AUDIOAPI_INIT_READY then st else
  if NA_BGM_MAX <=? seqId then st else
  let index := font_index gSequenceFontTable seqId in
  let numFonts := byte_at gSequenceFontTable index in
  if numFonts <=? fontNum then st else
  let origFontId := byte_at gSequenceFontTable (index + (fontNum + 1)) in
  let table := load_bytes (mem st) (sequenceFontTable (seq st)) in
  let index := font_index table seqId in
  set_mem st (update_bytes (sequenceFontTable (seq st))
                           (set_byte (index + (fontNum + 1)) origFontId) (mem st)).

(** The format that [AudioApi_RebuildSequenceFontTable] gives the font
    table: [capacity] big-endian u16 offsets, then five bytes for each
    sequence (the number of fonts and four font ids), the offset of a
    sequence pointing to its five bytes. *)
Record fixed_stride (b : list Z) (capacity : Z) : Prop := {
  fs_length : Z.of_nat (length b) = (2 + MAX_FONTS_PER_SEQUENCE + 1) * capacity;
  fs_bytes : Forall (fun x => 0 <= x < 256) b;
  fs_index : forall s, 0 <= s < capacity ->
               font_index b s = 2 * capacity + s * (MAX_FONTS_PER_SEQUENCE + 1)
}.

(** The number of fonts of a sequence. *)
Definition num_fonts (st : State) (seqId : Z) : Z :=
  let table := load_bytes (mem st) (sequenceFontTable (seq st)) in
  byte_at table (font_index table seqId).

Lemma byte_at_set_byte_eq b i v :
  0 <= i < Z.of_nat (length b) -> byte_at (set_byte i v b) i = u8 v.
Proof.
  intros H. unfold byte_at, set_byte.
  destruct (Z.ltb_spec i 0); [lia|].
  apply list_lookup_total_insert_eq. lia.
Qed.

Lemma byte_at_set_byte_ne b i j v :
  i <> j -> byte_at (set_byte i v b) j = byte_at b j.
Proof.
  intros H. unfold byte_at, set_byte.
  destruct (Z.ltb_spec j 0); [done|].
  destruct (Z.ltb_spec i 0); [done|].
  apply list_lookup_total_insert_ne. lia.
Qed.

Lemma length_set_byte b i v : length (set_byte i v b) = length b.
Proof. unfold set_byte. destruct (i <? 0); [done|]. apply length_insert. Qed.

Lemma u8_range x : 0 <= u8 x < 256.
Proof. unfold u8. apply Z.mod_pos_bound. lia. Qed.

Lemma u8_small x : 0 <= x < 256 -> u8 x = x.
Proof. intros H. unfold u8. by apply Z.mod_small. Qed.

Lemma Forall_set_byte b i v :
  Forall (fun x => 0 <= x < 256) b -> Forall (fun x => 0 <= x < 256) (set_byte i v b).
Proof.
  intros H. unfold set_byte. destruct (i <? 0); [done|].
  apply Forall_insert; [done | apply u8_range].
Qed.

Lemma byte_at_range b i :
  Forall (fun x => 0 <= x < 256) b -> 0 <= byte_at b i < 256.
Proof.
  intros H. unfold byte_at. destruct (i <? 0); [lia|].
  destruct (decide (Z.to_nat i < length b)%nat) as [Hi|Hi].
  - destruct (lookup_lt_is_Some_2 _ _ Hi) as [x Hx].
    rewrite (list_lookup_total_correct _ _ _ Hx).
    by apply (Forall_lookup_1 _ _ _ _ H Hx).
  - rewrite list_lookup_total_alt, lookup_ge_None_2 by lia. cbn. lia.
Qed.

(** A write to the five bytes of a sequence keeps the format and the
    offsets. *)
Lemma fixed_stride_set_byte b cap i v :
  fixed_stride b cap -> 2 * cap <= i ->
  fixed_stride (set_byte i v b) cap
  /\ forall s, font_index (set_byte i v b) s = font_index b s \/ cap <= s \/ s < 0.
Proof.
  intros [Hl Hb Hi] Hge.
  assert (forall s, 0 <= s < cap -> font_index (set_byte i v b) s = font_index b s)
    as Hsame.
  { intros s Hs. unfold font_index. rewrite !byte_at_set_byte_ne by lia. done. }
  split.
  - constructor.
    + by rewrite length_set_byte.
    + by apply Forall_set_byte.
    + intros s Hs. rewrite Hsame by done. by apply Hi.
  - intros s. destruct (decide (0 <= s < cap)); [left; by apply Hsame | lia].
Qed.

Lemma update_bytes_lookup m p b f :
  m !! p = Some (BBytes b) -> update_bytes p f m !! p = Some (BBytes (f b)).
Proof. intros H. unfold update_bytes. rewrite H. apply lookup_insert_eq. Qed.

Lemma update_bytes_lookup_ne m p q f :
  p <> q -> update_bytes p f m !! q = m !! q.
Proof.
  intros H. unfold update_bytes. destruct (m !! p) as [[]|]; try done.
  by rewrite lookup_insert_ne.
Qed.

Lemma load_bytes_lookup m p b : m !! p = Some (BBytes b) -> load_bytes m p = b.
Proof. intros H. unfold load_bytes. by rewrite H. Qed.

(** Where the table and the font table are, a write to the font table
    leaves the sequence count. *)
Lemma font_write_count st b f :
  mem st !! sequenceFontTable (seq st) = Some (BBytes b) ->
  load_table (update_bytes (sequenceFontTable (seq st)) f (mem st))
             (sequenceTable (seq st))
  = load_table (mem st) (sequenceTable (seq st)).
Proof.
  intros Hb. unfold load_table.
  destruct (decide (sequenceFontTable (seq st) = sequenceTable (seq st))) as [E|E].
  - rewrite <- E, (update_bytes_lookup _ _ _ _ Hb), Hb. done.
  - by rewrite update_bytes_lookup_ne.
Qed.

(** What [AudioApi_GetSequenceFont] reads after a write to the font table. *)
Lemma get_font_after_write st b f seqId fontNum :
  mem st !! sequenceFontTable (seq st) = Some (BBytes b) ->
  AudioApi_GetSequenceFont seqId fontNum
    (set_mem st (update_bytes (sequenceFontTable (seq st)) f (mem st)))
  = if seq_count st <=? seqId then -1
    else if byte_at (f b) (font_index (f b) seqId) <=? fontNum then -1
    else byte_at (f b) (font_index (f b) seqId + (fontNum + 1)).
Proof.
  intros Hb. unfold AudioApi_GetSequenceFont, seq_count. cbn.
  rewrite (font_write_count st b f Hb).
  by rewrite (load_bytes_lookup _ _ _ (update_bytes_lookup _ _ _ f Hb)).
Qed.

Lemma get_font_read st b seqId fontNum :
  mem st !! sequenceFontTable (seq st) = Some (BBytes b) ->
  AudioApi_GetSequenceFont seqId fontNum st
  = if seq_count st <=? seqId then -1
    else if byte_at b (font_index b seqId) <=? fontNum then -1
    else byte_at b (font_index b seqId + (fontNum + 1)).
Proof.
  intros Hb. unfold AudioApi_GetSequenceFont, seq_count.
  by rewrite (load_bytes_lookup _ _ _ Hb).
Qed.

(** The bytes of [prepend_font] at an entry inside the array. *)
Lemma prepend_font_bytes b cap s fontId :
  fixed_stride b cap -> 0 <= s < cap ->
  let i := font_index b s in
  let b' := prepend_font i fontId b in
  fixed_stride b' cap
  /\ byte_at b' i = u8 (byte_at b i + 1)
  /\ byte_at b' (i + 1) = u8 fontId
  /\ byte_at b' (i + 2) = byte_at b (i + 1)
  /\ byte_at b' (i + 3) = byte_at b (i + 2)
  /\ byte_at b' (i + 4) = byte_at b (i + 3)
  /\ (forall j, j < i \/ i + 4 < j -> byte_at b' j = byte_at b j).
Proof.
  intros Hfs Hs i b'.
  pose proof Hfs as [Hl Hb Hi].
  assert (i = 2 * cap + s * 5) as Ei by (subst i; rewrite Hi by done; reflexivity).
  unfold MAX_FONTS_PER_SEQUENCE in Hl.
  assert (forall x, 0 <= x < 256 -> u8 x = x) as Hu by apply u8_small.
  subst b'. unfold prepend_font. cbv zeta.
  remember (set_byte (i + 4) (byte_at b (i + 3)) b) as b1 eqn:E1.
  remember (set_byte (i + 3) (byte_at b1 (i + 2)) b1) as b2 eqn:E2.
  remember (set_byte (i + 2) (byte_at b2 (i + 1)) b2) as b3 eqn:E3.
  remember (set_byte (i + 1) fontId b3) as b4 eqn:E4.
  remember (set_byte i (byte_at b4 i + 1) b4) as b5 eqn:E5.
  destruct (fixed_stride_set_byte b cap (i + 4) (byte_at b (i + 3)) Hfs ltac:(lia))
    as [F1 _]. rewrite <- E1 in F1.
  destruct (fixed_stride_set_byte b1 cap (i + 3) (byte_at b1 (i + 2)) F1 ltac:(lia))
    as [F2 _]. rewrite <- E2 in F2.
  destruct (fixed_stride_set_byte b2 cap (i + 2) (byte_at b2 (i + 1)) F2 ltac:(lia))
    as [F3 _]. rewrite <- E3 in F3.
  destruct (fixed_stride_set_byte b3 cap (i + 1) fontId F3 ltac:(lia))
    as [F4 _]. rewrite <- E4 in F4.
  destruct (fixed_stride_set_byte b4 cap i (byte_at b4 i + 1) F4 ltac:(lia))
    as [F5 _]. rewrite <- E5 in F5.
  assert (length b1 = length b) as L1 by (rewrite E1; apply length_set_byte).
  assert (length b2 = length b) as L2 by (rewrite E2, length_set_byte; done).
  assert (length b3 = length b) as L3 by (rewrite E3, length_set_byte; done).
  assert (length b4 = length b) as L4 by (rewrite E4, length_set_byte; done).
  assert (forall j, j <> i + 4 -> byte_at b1 j = byte_at b j) as N1
    by (intros j Hj; rewrite E1; apply byte_at_set_byte_ne; lia).
  assert (forall j, j <> i + 3 -> byte_at b2 j = byte_at b1 j) as N2
    by (intros j Hj; rewrite E2; apply byte_at_set_byte_ne; lia).
  assert (forall j, j <> i + 2 -> byte_at b3 j = byte_at b2 j) as N3
    by (intros j Hj; rewrite E3; apply byte_at_set_byte_ne; lia).
  assert (forall j, j <> i + 1 -> byte_at b4 j = byte_at b3 j) as N4
    by (intros j Hj; rewrite E4; apply byte_at_set_byte_ne; lia).
  assert (forall j, j <> i -> byte_at b5 j = byte_at b4 j) as N5
    by (intros j Hj; rewrite E5; apply byte_at_set_byte_ne; lia).
  assert (byte_at b1 (i + 4) = byte_at b (i + 3)) as W1.
  { rewrite E1, byte_at_set_byte_eq by lia. apply Hu. by apply byte_at_range. }
  assert (byte_at b2 (i + 3) = byte_at b1 (i + 2)) as W2.
  { rewrite E2, byte_at_set_byte_eq by lia. apply Hu, byte_at_range, (fs_bytes _ _ F1). }
  assert (byte_at b3 (i + 2) = byte_at b2 (i + 1)) as W3.
  { rewrite E3, byte_at_set_byte_eq by lia. apply Hu, byte_at_range, (fs_bytes _ _ F2). }
  assert (byte_at b4 (i + 1) = u8 fontId) as W4.
  { rewrite E4, byte_at_set_byte_eq by lia. done. }
  assert (byte_at b5 i = u8 (byte_at b4 i + 1)) as W5.
  { rewrite E5, byte_at_set_byte_eq by lia. done. }
  split; [exact F5|]. split.
  { rewrite W5, N4, N3, N2, N1 by lia. done. }
  split.
  { rewrite N5, W4 by lia. done. }
  split.
  { rewrite N5, N4, W3, N2, N1 by lia. done. }
  split.
  { rewrite N5, N4, N3, W2, N1 by lia. done. }
  split.
  { rewrite N5, N4, N3, N2, W1 by lia. done. }
  intros j Hj. rewrite N5, N4, N3, N2, N1 by lia. done.
Qed.

(** X12: [AudioApi_AddSequenceFont] puts the font in front of the list
    that [AudioApi_GetSequenceFont] reads.  On a font table in the rebuilt
    format, for a sequence of the table with fewer than four fonts, the
    call returns the new number of fonts; font 0 is then the new id (as a
    u8), the font that was at position k is at position k+1, the position
    past the new count reads -1, and the fonts of every other sequence
    read as before.  With four fonts already the call returns -1 and
    changes nothing. *)
Theorem add_sequence_font_prepends (seqId fontId : Z) (st : State) (b : list Z) :
  gAudioApiInitPhase st <> AUDIOAPI_INIT_NOT_READY ->
  mem st !! sequenceFontTable (seq st) = Some (BBytes b) ->
  fixed_stride b (sequenceTableCapacity (seq st)) ->
  0 <= seqId < seq_count st ->
  seq_count st <= sequenceTableCapacity (seq st) ->
  let n := num_fonts st seqId in
  let r := AudioApi_AddSequenceFont seqId fontId st in
  (n = MAX_FONTS_PER_SEQUENCE -> r = (-1, st))
  /\ (n < MAX_FONTS_PER_SEQUENCE ->
      r.1 = n + 1
      /\ num_fonts r.2 seqId = n + 1
      /\ AudioApi_GetSequenceFont seqId 0 r.2 = u8 fontId
      /\ (forall k, 0 <= k < n ->
            AudioApi_GetSequenceFont seqId (k + 1) r.2
            = AudioApi_GetSequenceFont seqId k st)
      /\ AudioApi_GetSequenceFont seqId (n + 1) r.2 = -1
      /\ (forall other k, 0 <= other -> other <> seqId -> 0 <= k < MAX_FONTS_PER_SEQUENCE ->
            AudioApi_GetSequenceFont other k r.2
            = AudioApi_GetSequenceFont other k st)
      /\ (exists b', mem r.2 !! sequenceFontTable (seq r.2) = Some (BBytes b')
                     /\ fixed_stride b' (sequenceTableCapacity (seq r.2)))).
Proof.
  intros Hp Hb Hfs Hs Hcap n r.
  set (cap := sequenceTableCapacity (seq st)) in *.
  assert (r = if n =? MAX_FONTS_PER_SEQUENCE then (-1, st)
              else (n + 1,
                    set_mem st (update_bytes (sequenceFontTable (seq st))
                                  (prepend_font (font_index b seqId) fontId) (mem st))))
    as Hr.
  { subst r n. unfold AudioApi_AddSequenceFont, num_fonts.
    destruct (Z.eqb_spec (gAudioApiInitPhase st) AUDIOAPI_INIT_NOT_READY); [done|].
    fold (seq_count st).
    destruct (Z.leb_spec (seq_count st) seqId); [lia|].
    rewrite (load_bytes_lookup _ _ _ Hb). reflexivity. }
  assert (n = byte_at b (font_index b seqId)) as Hn.
  { subst n. unfold num_fonts. by rewrite (load_bytes_lookup _ _ _ Hb). }
  pose proof (byte_at_range b (font_index b seqId) (fs_bytes _ _ Hfs)) as Hn0.
  rewrite <- Hn in Hn0.
  split.
  { intros E. rewrite Hr, E. reflexivity. }
  intros Hlt. unfold MAX_FONTS_PER_SEQUENCE in Hlt.
  destruct (Z.eqb_spec n MAX_FONTS_PER_SEQUENCE) as [E|_];
    [unfold MAX_FONTS_PER_SEQUENCE in E; lia|].
  rewrite Hr. cbn [fst snd].
  destruct (prepend_font_bytes b cap seqId fontId Hfs ltac:(lia))
    as (F' & B0 & B1 & B2 & B3 & B4 & Bo).
  cbn zeta in F', B0, B1, B2, B3, B4, Bo.
  set (i := font_index b seqId) in *.
  set (b' := prepend_font i fontId b) in *.
  assert (i = 2 * cap + seqId * 5) as Ei
    by (subst i; rewrite (fs_index _ _ Hfs) by lia; reflexivity).
  assert (font_index b' seqId = i) as Ei'
    by (rewrite (fs_index _ _ F') by lia; rewrite Ei; reflexivity).
  rewrite <- Hn in B0. rewrite u8_small in B0 by lia.
  split; [reflexivity|]. split.
  { unfold num_fonts. cbn.
    rewrite (load_bytes_lookup _ _ _ (update_bytes_lookup _ _ _ _ Hb)).
    fold b'. by rewrite Ei'. }
  split.
  { rewrite (get_font_after_write st b (prepend_font i fontId) seqId 0 Hb). fold b'. rewrite Ei', B0.
    destruct (Z.leb_spec (seq_count st) seqId); [lia|].
    destruct (Z.leb_spec (n + 1) 0); [lia|]. exact B1. }
  split.
  { intros k Hk.
    rewrite (get_font_after_write st b (prepend_font i fontId) seqId (k + 1) Hb), (get_font_read st b seqId k Hb).
    fold b'. fold i. rewrite Ei', B0, <- Hn.
    destruct (Z.leb_spec (seq_count st) seqId); [lia|].
    destruct (Z.leb_spec (n + 1) (k + 1)); [lia|].
    destruct (Z.leb_spec n k); [lia|].
    assert (k = 0 \/ k = 1 \/ k = 2) as [-> | [-> | ->]] by lia.
    - change (0 + 1 + 1) with 2. change (0 + 1) with 1. exact B2.
    - change (1 + 1 + 1) with 3. change (1 + 1) with 2. exact B3.
    - change (2 + 1 + 1) with 4. change (2 + 1) with 3. exact B4. }
  split.
  { rewrite (get_font_after_write st b (prepend_font i fontId) seqId (n + 1) Hb). fold b'. rewrite Ei', B0.
    destruct (Z.leb_spec (seq_count st) seqId); [lia|].
    destruct (Z.leb_spec (n + 1) (n + 1)); [done | lia]. }
  split.
  { intros other k Ho Hne Hk. unfold MAX_FONTS_PER_SEQUENCE in Hk.
    rewrite (get_font_after_write st b (prepend_font i fontId) other k Hb), (get_font_read st b other k Hb).
    fold b'.
    destruct (Z.leb_spec (seq_count st) other); [done|].
    rewrite (fs_index _ _ F') by lia. rewrite (fs_index _ _ Hfs) by lia.
    unfold MAX_FONTS_PER_SEQUENCE.
    rewrite !Bo by lia. done. }
  exists b'. cbn. split; [|exact F'].
  apply (update_bytes_lookup _ _ _ (prepend_font i fontId) Hb).
Qed.

(** A sequence table of four slots that holds three sequences, in the
    READY phase; the font table is in the rebuilt format: sequence 0 has
    the fonts 10 and 11, sequence 2 has four fonts. *)
Definition fonts_table : list Z :=
  [0; 8; 0; 13; 0; 18; 0; 23;
   2; 10; 11; 0; 0;
   0; 0; 0; 0; 0;
   4; 1; 2; 3; 4;
   0; 0; 0; 0; 0].

Definition fonts_state : State :=
  mkState {[ 0x80100000 := BTable (mkTable 3 0 0 (replicate 4 zero_entry));
             0x80100100 := BBytes fonts_table ]}
          AUDIOAPI_INIT_READY
          (mkSeq 0x80100000 0x80100100 3 0 0 4 no_queue false)
          (mkBank 0 0 no_queue).

Lemma fonts_table_fixed_stride : fixed_stride fonts_table 4.
Proof.
  constructor.
  - reflexivity.
  - unfold fonts_table. repeat (apply Forall_cons_2; [lia|]). apply Forall_nil_2.
  - intros s Hs.
    assert (s = 0 \/ s = 1 \/ s = 2 \/ s = 3) as [-> | [-> | [-> | ->]]] by lia;
      reflexivity.
Qed.

Lemma add_sequence_font_prepends_witness :
  let r := AudioApi_AddSequenceFont 0 0x125 fonts_state in
  r.1 = 3
  /\ AudioApi_GetSequenceFont 0 0 r.2 = 0x25
  /\ AudioApi_GetSequenceFont 0 1 r.2 = 10
  /\ AudioApi_GetSequenceFont 0 2 r.2 = 11
  /\ AudioApi_GetSequenceFont 0 3 r.2 = -1
  /\ AudioApi_AddSequenceFont 2 5 fonts_state = (-1, fonts_state).
Proof.
  destruct (add_sequence_font_prepends 0 0x125 fonts_state fonts_table)
    as [_ H].
  - intros E. discriminate E.
  - reflexivity.
  - exact fonts_table_fixed_stride.
  - vm_compute. split; [intros E; discriminate E | reflexivity].
  - vm_compute. intros E; discriminate E.
  - destruct H as (H1 & _ & H2 & H3 & H4 & _); [vm_compute; reflexivity|].
    assert (0 <= 0 < num_fonts fonts_state 0) as K0
      by (vm_compute; split; [intros E; discriminate E | reflexivity]).
    assert (0 <= 1 < num_fonts fonts_state 0) as K1
      by (vm_compute; split; [intros E; discriminate E | reflexivity]).
    pose proof (H3 0 K0) as H30. pose proof (H3 1 K1) as H31.
    change (0 + 1) with 1 in H30. change (1 + 1) with 2 in H31.
    change (num_fonts fonts_state 0 + 1) with 3 in H4.
    cbn zeta. rewrite H1, H2, H30, H31, H4.
    split_and!; reflexivity.
Defined.

(** X13: [AudioApi_ReplaceSequenceFont], once the queueing window is
    over, writes the slot counted from the end of the font list, while
    [AudioApi_GetSequenceFont] counts from the start.  For a sequence of
    the table other than NA_BGM_FROG_SONG, on a font table in the rebuilt
    format, with n <= 4 fonts and 0 <= fontNum < 4: if fontNum < n, the
    font that [AudioApi_GetSequenceFont] reads at position n-1-fontNum is
    the new id (as a u8) and every other position, the number of fonts and
    the other sequences read as before; if fontNum >= n, the call is
    [AudioApi_AddSequenceFont].  No allocation is requested. *)
Theorem replace_sequence_font_reversed (o : Oracle)
    (seqId fontNum fontId : Z) (st : State) (b : list Z) :
  gAudioApiInitPhase st <> AUDIOAPI_INIT_NOT_READY ->
  gAudioApiInitPhase st <> AUDIOAPI_INIT_QUEUEING ->
  seqId <> NA_BGM_FROG_SONG ->
  mem st !! sequenceFontTable (seq st) = Some (BBytes b) ->
  fixed_stride b (sequenceTableCapacity (seq st)) ->
  0 <= seqId < seq_count st ->
  seq_count st <= sequenceTableCapacity (seq st) ->
  0 <= fontNum < MAX_FONTS_PER_SEQUENCE ->
  num_fonts st seqId <= MAX_FONTS_PER_SEQUENCE ->
  let n := num_fonts st seqId in
  let r := AudioApi_ReplaceSequenceFont o seqId fontNum fontId st in
  r.2 = o
  /\ (n <= fontNum -> r.1 = (AudioApi_AddSequenceFont seqId fontId st).2)
  /\ (fontNum < n ->
      AudioApi_GetSequenceFont seqId (n - 1 - fontNum) r.1 = u8 fontId
      /\ num_fonts r.1 seqId = n
      /\ (forall k, k <> n - 1 - fontNum ->
            AudioApi_GetSequenceFont seqId k r.1 = AudioApi_GetSequenceFont seqId k st)
      /\ (forall other k, 0 <= other -> other <> seqId ->
            0 <= k < MAX_FONTS_PER_SEQUENCE ->
            AudioApi_GetSequenceFont other k r.1
            = AudioApi_GetSequenceFont other k st)).
Proof.
  intros Hp Hq Hfrog Hb Hfs Hs Hcap Hf Hmax n r.
  set (cap := sequenceTableCapacity (seq st)) in *.
  set (i := font_index b seqId).
  assert (n = byte_at b i) as Hn.
  { subst n. unfold num_fonts. by rewrite (load_bytes_lookup _ _ _ Hb). }
  fold n in Hmax. unfold MAX_FONTS_PER_SEQUENCE in Hf, Hmax.
  pose proof (byte_at_range b i (fs_bytes _ _ Hfs)) as Hn0. rewrite <- Hn in Hn0.
  assert (r = if n <=? fontNum then ((AudioApi_AddSequenceFont seqId fontId st).2, o)
              else (set_mem st (update_bytes (sequenceFontTable (seq st))
                                  (set_byte (i + (n - fontNum)) fontId) (mem st)), o))
    as Hr.
  { subst r. unfold AudioApi_ReplaceSequenceFont.
    destruct (Z.eqb_spec (gAudioApiInitPhase st) AUDIOAPI_INIT_NOT_READY); [done|].
    destruct (Z.eqb_spec seqId NA_BGM_FROG_SONG); [done|].
    destruct (Z.eqb_spec (gAudioApiInitPhase st) AUDIOAPI_INIT_QUEUEING); [done|].
    fold (seq_count st).
    destruct (Z.leb_spec (seq_count st) seqId); [lia|].
    destruct (Z.leb_spec MAX_FONTS_PER_SEQUENCE fontNum);
      [unfold MAX_FONTS_PER_SEQUENCE in *; lia|].
    cbn [orb]. rewrite (load_bytes_lookup _ _ _ Hb). fold i. rewrite <- Hn.
    destruct (Z.ltb_spec fontNum 0); [lia|]. reflexivity. }
  rewrite Hr. destruct (Z.leb_spec n fontNum) as [Hge|Hlt]; cbn [fst snd].
  { split; [done|]. split; [done | lia]. }
  split; [done|]. split; [lia|]. intros _.
  assert (i = 2 * cap + seqId * 5) as Ei
    by (subst i; rewrite (fs_index _ _ Hfs) by lia; reflexivity).
  set (f := set_byte (i + (n - fontNum)) fontId).
  destruct (fixed_stride_set_byte b cap (i + (n - fontNum)) fontId Hfs ltac:(lia))
    as [F' _]. fold (f b) in F'.
  assert (font_index (f b) seqId = i) as Ei'
    by (rewrite (fs_index _ _ F') by lia; rewrite Ei; reflexivity).
  assert (byte_at (f b) i = n) as E0.
  { unfold f. rewrite byte_at_set_byte_ne by lia. by rewrite Hn. }
  pose proof (fs_length _ _ Hfs) as Hl. unfold MAX_FONTS_PER_SEQUENCE in Hl.
  split.
  { rewrite (get_font_after_write st b f seqId _ Hb). rewrite Ei', E0.
    destruct (Z.leb_spec (seq_count st) seqId); [lia|].
    destruct (Z.leb_spec n (n - 1 - fontNum)); [lia|].
    replace (i + (n - 1 - fontNum + 1)) with (i + (n - fontNum)) by lia.
    unfold f. apply byte_at_set_byte_eq. lia. }
  split.
  { unfold num_fonts. cbn.
    rewrite (load_bytes_lookup _ _ _ (update_bytes_lookup _ _ _ f Hb)).
    by rewrite Ei'. }
  split.
  { intros k Hk.
    rewrite (get_font_after_write st b f seqId k Hb), (get_font_read st b seqId k Hb).
    fold i. rewrite Ei', E0, <- Hn.
    destruct (Z.leb_spec (seq_count st) seqId); [done|].
    destruct (Z.leb_spec n k); [done|].
    unfold f. apply byte_at_set_byte_ne. lia. }
  intros other k Ho Hne Hk. unfold MAX_FONTS_PER_SEQUENCE in Hk.
  rewrite (get_font_after_write st b f other k Hb), (get_font_read st b other k Hb).
  destruct (Z.leb_spec (seq_count st) other); [done|].
  rewrite (fs_index _ _ F') by lia. rewrite (fs_index _ _ Hfs) by lia.
  unfold MAX_FONTS_PER_SEQUENCE. fold cap.
  unfold f. rewrite !byte_at_set_byte_ne by lia. done.
Qed.

Lemma replace_sequence_font_reversed_witness :
  let r := AudioApi_ReplaceSequenceFont [] 2 0 9 fonts_state in
  AudioApi_GetSequenceFont 2 3 r.1 = 9
  /\ AudioApi_GetSequenceFont 2 0 r.1 = 1.
Proof.
  destruct (replace_sequence_font_reversed [] 2 0 9 fonts_state fonts_table)
    as (_ & _ & H).
  - intros E. discriminate E.
  - intros E. discriminate E.
  - intros E. discriminate E.
  - reflexivity.
  - exact fonts_table_fixed_stride.
  - vm_compute. split; [intros E; discriminate E | reflexivity].
  - vm_compute. intros E; discriminate E.
  - vm_compute. split; [intros E; discriminate E | reflexivity].
  - vm_compute. intros E; discriminate E.
  - destruct H as (H1 & _ & H2 & _); [vm_compute; reflexivity|].
    cbn zeta. split; [exact H1|].
    rewrite (H2 0) by (vm_compute; intros E; discriminate E). reflexivity.
Defined.

(** X14: [AudioApi_RestoreSequenceFont] writes the position that
    [AudioApi_GetSequenceFont] reads.  From the READY phase on, for a
    vanilla sequence id of the table and a position below the number of
    fonts that the ROM table has for it, the font read at that position
    is afterwards the font of the ROM table at the same position, and the
    number of fonts, the other positions and the other sequences read as
    before; a position at or past the ROM count, and any call before the
    READY phase, changes nothing.  (Both tables hold bytes, the entry of
    the ROM table lies within it, and the live table is in the rebuilt
    format.) *)
Theorem restore_sequence_font_position (gSequenceFontTable : list Z)
    (seqId fontNum : Z) (st : State) (b : list Z) :
  mem st !! sequenceFontTable (seq st) = Some (BBytes b) ->
  fixed_stride b (sequenceTableCapacity (seq st)) ->
  Forall (fun x => 0 <= x < 256) gSequenceFontTable ->
  2 * seqId + 1 < Z.of_nat (length gSequenceFontTable) ->
  font_index gSequenceFontTable seqId
  + byte_at gSequenceFontTable (font_index gSequenceFontTable seqId)
  < Z.of_nat (length gSequenceFontTable) ->
  0 <= seqId < seq_count st ->
  seq_count st <= sequenceTableCapacity (seq st) ->
  seqId < NA_BGM_MAX ->
  0 <= fontNum < MAX_FONTS_PER_SEQUENCE ->
  let index := font_index gSequenceFontTable seqId in
  let numFonts := byte_at gSequenceFontTable index in
  let st' := AudioApi_RestoreSequenceFont gSequenceFontTable seqId fontNum st in
  (gAudioApiInitPhase st < AUDIOAPI_INIT_READY \/ numFonts <= fontNum -> st' = st)
  /\ (AUDIOAPI_INIT_READY <= gAudioApiInitPhase st -> fontNum < numFonts ->
      num_fonts st' seqId = num_fonts st seqId
      /\ (fontNum < num_fonts st seqId ->
          AudioApi_GetSequenceFont seqId fontNum st'
          = byte_at gSequenceFontTable (index + (fontNum + 1)))
      /\ (forall k, k <> fontNum ->
            AudioApi_GetSequenceFont seqId k st' = AudioApi_GetSequenceFont seqId k st)
      /\ (forall other k, 0 <= other -> other <> seqId ->
            0 <= k < MAX_FONTS_PER_SEQUENCE ->
            AudioApi_GetSequenceFont other k st'
            = AudioApi_GetSequenceFont other k st)).
Proof.
  intros Hb Hfs Hv _ _ Hs Hcap Hmax Hf index numFonts st'.
  set (cap := sequenceTableCapacity (seq st)) in *.
  set (i := font_index b seqId).
  unfold MAX_FONTS_PER_SEQUENCE in Hf.
  set (orig := byte_at gSequenceFontTable (index + (fontNum + 1))).
  split.
  { intros H. subst st'. unfold AudioApi_RestoreSequenceFont.
    destruct (Z.ltb_spec (gAudioApiInitPhase st) AUDIOAPI_INIT_READY); [done|].
    destruct (Z.leb_spec NA_BGM_MAX seqId); [done|].
    fold index. fold numFonts.
    destruct (Z.leb_spec numFonts fontNum); [done | lia]. }
  intros Hp Hlt.
  set (f := set_byte (i + (fontNum + 1)) orig).
  assert (st' = set_mem st (update_bytes (sequenceFontTable (seq st)) f (mem st)))
    as ->.
  { subst st'. unfold AudioApi_RestoreSequenceFont.
    destruct (Z.ltb_spec (gAudioApiInitPhase st) AUDIOAPI_INIT_READY); [lia|].
    destruct (Z.leb_spec NA_BGM_MAX seqId); [lia|].
    fold index. fold numFonts.
    destruct (Z.leb_spec numFonts fontNum); [lia|].
    rewrite (load_bytes_lookup _ _ _ Hb). reflexivity. }
  assert (i = 2 * cap + seqId * 5) as Ei
    by (subst i; rewrite (fs_index _ _ Hfs) by lia; reflexivity).
  destruct (fixed_stride_set_byte b cap (i + (fontNum + 1)) orig Hfs ltac:(lia))
    as [F' _]. fold (f b) in F'.
  assert (font_index (f b) seqId = i) as Ei'
    by (rewrite (fs_index _ _ F') by lia; rewrite Ei; reflexivity).
  assert (byte_at (f b) i = byte_at b i) as E0.
  { unfold f. rewrite byte_at_set_byte_ne by lia. done. }
  assert (num_fonts st seqId = byte_at b i) as Hn.
  { unfold num_fonts. by rewrite (load_bytes_lookup _ _ _ Hb). }
  pose proof (fs_length _ _ Hfs) as Hl. unfold MAX_FONTS_PER_SEQUENCE in Hl.
  split.
  { unfold num_fonts. cbn.
    rewrite (load_bytes_lookup _ _ _ (update_bytes_lookup _ _ _ f Hb)).
    rewrite Ei', E0. by rewrite (load_bytes_lookup _ _ _ Hb). }
  split.
  { intros Hk. rewrite Hn in Hk.
    rewrite (get_font_after_write st b f seqId _ Hb). rewrite Ei', E0.
    destruct (Z.leb_spec (seq_count st) seqId); [lia|].
    destruct (Z.leb_spec (byte_at b i) fontNum); [lia|].
    unfold f. rewrite byte_at_set_byte_eq by lia.
    apply u8_small, byte_at_range, Hv. }
  split.
  { intros k Hk.
    rewrite (get_font_after_write st b f seqId k Hb), (get_font_read st b seqId k Hb).
    fold i. rewrite Ei', E0.
    destruct (Z.leb_spec (seq_count st) seqId); [done|].
    destruct (Z.leb_spec (byte_at b i) k); [done|].
    unfold f. apply byte_at_set_byte_ne. lia. }
  intros other k Ho Hne Hk. unfold MAX_FONTS_PER_SEQUENCE in Hk.
  rewrite (get_font_after_write st b f other k Hb), (get_font_read st b other k Hb).
  destruct (Z.leb_spec (seq_count st) other); [done|].
  rewrite (fs_index _ _ F') by lia. rewrite (fs_index _ _ Hfs) by lia.
  unfold MAX_FONTS_PER_SEQUENCE. fold cap.
  unfold f. rewrite !byte_at_set_byte_ne by lia. done.
Qed.

(** A ROM font table in the variable-length format: three sequences with
    the fonts (3), (5, 6) and (1, 2, 3, 4). *)
Definition rom_fonts : list Z :=
  [0; 6; 0; 8; 0; 11;
   1; 3;
   2; 5; 6;
   4; 1; 2; 3; 4].

Lemma restore_sequence_font_position_witness :
  AudioApi_GetSequenceFont 2 0
    (AudioApi_RestoreSequenceFont rom_fonts 2 0
       (AudioApi_ReplaceSequenceFont [] 2 3 9 fonts_state).1)
  = 1.
Proof.
  set (st := (AudioApi_ReplaceSequenceFont [] 2 3 9 fonts_state).1).
  destruct (restore_sequence_font_position rom_fonts 2 0 st
              (set_byte 19 9 fonts_table)) as (_ & H).
  - reflexivity.
  - destruct (fixed_stride_set_byte fonts_table 4 19 9 fonts_table_fixed_stride)
      as [F _]; [lia | exact F].
  - unfold rom_fonts. repeat (apply Forall_cons_2; [lia|]). apply Forall_nil_2.
  - reflexivity.
  - reflexivity.
  - vm_compute. split; [intros E; discriminate E | reflexivity].
  - vm_compute. intros E; discriminate E.
  - reflexivity.
  - vm_compute. split; [intros E; discriminate E | reflexivity].
  - destruct H as (_ & H & _).
    + vm_compute. intros E; discriminate E.
    + reflexivity.
    + rewrite H by reflexivity. reflexivity.
Defined.

(** *** Rebuilding the font table *)

Lemma write_bytes_inserts src : forall dst off,
  write_bytes dst off src = list_inserts off src dst.
Proof.
  induction src as [|x src IH]; intros dst off; cbn; [done|].
  rewrite IH. symmetry. apply list_insert_inserts_lt. lia.
Qed.

Lemma length_write_bytes dst off src : length (write_bytes dst off src) = length dst.
Proof. rewrite write_bytes_inserts. apply length_inserts. Qed.

Lemma byte_at_nat b p : 0 <= p -> byte_at b p = b !!! Z.to_nat p.
Proof. intros H. unfold byte_at. destruct (Z.ltb_spec p 0); [lia | done]. Qed.

Lemma byte_at_write_out dst off src p :
  p < Z.of_nat off \/ Z.of_nat off + Z.of_nat (length src) <= p ->
  byte_at (write_bytes dst off src) p = byte_at dst p.
Proof.
  intros H. unfold byte_at. destruct (Z.ltb_spec p 0); [done|].
  rewrite write_bytes_inserts. destruct H as [H|H].
  - apply list_lookup_total_inserts_lt. lia.
  - apply list_lookup_total_inserts_ge. lia.
Qed.

Lemma byte_at_write_in dst off src p :
  Z.of_nat off <= p < Z.of_nat off + Z.of_nat (length src) ->
  p < Z.of_nat (length dst) ->
  byte_at (write_bytes dst off src) p = src !!! (Z.to_nat p - off)%nat.
Proof.
  intros H Hl. rewrite byte_at_nat by lia. rewrite write_bytes_inserts.
  apply list_lookup_total_inserts; lia.
Qed.

Lemma Forall_write_bytes dst off src :
  Forall (fun x => 0 <= x < 256) dst -> Forall (fun x => 0 <= x < 256) src ->
  Forall (fun x => 0 <= x < 256) (write_bytes dst off src).
Proof. intros. rewrite write_bytes_inserts. by apply Forall_inserts. Qed.

Lemma be16_font_index b s : 0 <= s -> be16 b (Z.to_nat (2 * s)) = font_index b s.
Proof.
  intros H. unfold be16, font_index. rewrite !byte_at_nat by lia.
  replace (Z.to_nat (2 * s + 1)) with (S (Z.to_nat (2 * s))) by lia. done.
Qed.

(** The font table that is rebuilt: its entries lie within the array and
    none has more than four fonts. *)
Record font_table_ok (old : list Z) (oldCapacity : Z) : Prop := {
  fo_bytes : Forall (fun x => 0 <= x < 256) old;
  fo_entry : forall s, 0 <= s < oldCapacity ->
      2 * s + 1 < Z.of_nat (length old)
      /\ byte_at old (font_index old s) <= MAX_FONTS_PER_SEQUENCE
      /\ font_index old s + byte_at old (font_index old s) < Z.of_nat (length old)
}.

Lemma font_index_range b s :
  Forall (fun x => 0 <= x < 256) b -> 0 <= font_index b s < 65536.
Proof.
  intros H. unfold font_index.
  pose proof (byte_at_range b (2 * s) H). pose proof (byte_at_range b (2 * s + 1) H).
  lia.
Qed.

(** The bytes after one iteration of the loop. *)
Lemma rebuild_font_entry_bytes old oldCap newCap cur k :
  font_table_ok old oldCap ->
  0 <= k < newCap -> newCap <= 9362 ->
  Z.of_nat (length cur) = 7 * newCap ->
  let cur' := rebuild_font_entry old oldCap newCap cur k in
  let off := 2 * newCap + 5 * k in
  let idx := font_index old k in
  let n := byte_at old idx in
  length cur' = length cur
  /\ byte_at cur' (2 * k) = off / 256
  /\ byte_at cur' (2 * k + 1) = off mod 256
  /\ (k < oldCap -> forall j, 0 <= j <= n ->
        byte_at cur' (off + j) = byte_at old (idx + j))
  /\ (forall p, p <> 2 * k -> p <> 2 * k + 1 ->
        (oldCap <= k \/ p < off \/ off + n < p) ->
        byte_at cur' p = byte_at cur p)
  /\ (Forall (fun x => 0 <= x < 256) cur -> Forall (fun x => 0 <= x < 256) cur').
Proof.
  intros [Hob Hoe] Hk Hcap Hlen cur' off idx n.
  subst cur'. unfold rebuild_font_entry.
  unfold MAX_FONTS_PER_SEQUENCE in *.
  replace (k * (4 + 1)) with (5 * k) by lia. fold off.
  assert (u16 off = off) as -> by (unfold u16; apply Z.mod_small; lia).
  rewrite be16_font_index by lia. fold idx.
  pose proof (font_index_range old k Hob) as Hir. fold idx in Hir.
  rewrite <- (byte_at_nat old idx) by lia. fold n.
  set (cur1 := write_bytes cur (Z.to_nat (2 * k)) [off / 256; off mod 256]).
  assert (length cur1 = length cur) as L1 by apply length_write_bytes.
  assert (byte_at cur1 (2 * k) = off / 256) as H0.
  { unfold cur1. rewrite byte_at_write_in by (cbn [length]; lia).
    replace (Z.to_nat (2 * k) - Z.to_nat (2 * k))%nat with 0%nat by lia. done. }
  assert (byte_at cur1 (2 * k + 1) = off mod 256) as H1.
  { unfold cur1. rewrite byte_at_write_in by (cbn [length]; lia).
    replace (Z.to_nat (2 * k + 1) - Z.to_nat (2 * k))%nat with 1%nat by lia. done. }
  assert (forall p, p <> 2 * k -> p <> 2 * k + 1 -> byte_at cur1 p = byte_at cur p)
    as Hrest.
  { intros p Hp0 Hp1. unfold cur1. apply byte_at_write_out. cbn [length]. lia. }
  assert (Forall (fun x => 0 <= x < 256) cur ->
          Forall (fun x => 0 <= x < 256) cur1) as Hb1.
  { intros Hc. unfold cur1. apply Forall_write_bytes; [done|].
    apply Forall_cons_2; [|apply Forall_cons_2; [|apply Forall_nil_2]].
    - split; [apply Z.div_pos; lia | apply Z.div_lt_upper_bound; lia].
    - apply Z.mod_pos_bound. lia. }
  destruct (Z.ltb_spec k oldCap) as [Hlt|Hge].
  2:{ split; [done|]. split; [done|]. split; [done|]. split; [lia|].
      split; [|done]. intros p Hp0 Hp1 _. by apply Hrest. }
  destruct (Hoe k ltac:(lia)) as (Hh & Hn4 & Hin). fold idx in Hn4, Hin. fold n in Hn4, Hin.
  pose proof (byte_at_range old idx Hob) as Hn0. fold n in Hn0.
  set (src := take (Z.to_nat (n + 1)) (drop (Z.to_nat idx) old)).
  assert (length src = Z.to_nat (n + 1)) as Ls.
  { unfold src. rewrite length_take, length_drop. lia. }
  replace (Z.to_nat (2 * newCap + 5 * k)) with (Z.to_nat off) by done.
  split; [by rewrite length_write_bytes|].
  split; [rewrite byte_at_write_out by lia; done|].
  split; [rewrite byte_at_write_out by lia; done|].
  split.
  { intros _ j Hj. rewrite byte_at_write_in by lia.
    unfold src. rewrite lookup_total_take_lt by lia.
    rewrite lookup_total_drop. rewrite byte_at_nat by lia.
    f_equal. lia. }
  split.
  { intros p Hp0 Hp1 [Ho | Hp]; [lia|].
    rewrite byte_at_write_out by lia. by apply Hrest. }
  intros Hc. apply Forall_write_bytes; [by apply Hb1|].
  unfold src. apply Forall_take, Forall_drop. done.
Qed.

(** The loop after its first [k] iterations. *)
Definition rebuild_inv (old : list Z) (oldCap newCap k : Z) (cur : list Z) : Prop :=
  Z.of_nat (length cur) = 7 * newCap
  /\ Forall (fun x => 0 <= x < 256) cur
  /\ (forall s, 0 <= s < k -> font_index cur s = 2 * newCap + 5 * s)
  /\ (forall s j, 0 <= s < k -> s < oldCap ->
        0 <= j <= byte_at old (font_index old s) ->
        byte_at cur (2 * newCap + 5 * s + j) = byte_at old (font_index old s + j))
  /\ (forall s j, 0 <= s < newCap -> 0 <= j <= 4 ->
        k <= s \/ oldCap <= s \/ byte_at old (font_index old s) < j ->
        byte_at cur (2 * newCap + 5 * s + j) = 0).

Lemma byte_at_replicate_0 n p : p < Z.of_nat n -> byte_at (replicate n 0) p = 0.
Proof.
  intros H. unfold byte_at. destruct (Z.ltb_spec p 0); [done|].
  apply lookup_total_replicate_2. lia.
Qed.

Lemma rebuild_loop old oldCap newCap :
  font_table_ok old oldCap -> 0 <= oldCap -> newCap <= 9362 ->
  forall k : nat, Z.of_nat k <= newCap ->
  rebuild_inv old oldCap newCap (Z.of_nat k)
    (fold_left (rebuild_font_entry old oldCap newCap) (seqZ 0 (Z.of_nat k))
               (replicate (Z.to_nat ((2 + MAX_FONTS_PER_SEQUENCE + 1) * newCap)) 0)).
Proof.
  intros Hok Ho Hcap. unfold MAX_FONTS_PER_SEQUENCE.
  induction k as [|k IH]; intros Hk.
  - cbn [fold_left]. rewrite seqZ_nil by lia. cbn [fold_left].
    split; [rewrite length_replicate; lia|].
    split; [apply Forall_replicate; lia|].
    split; [lia|]. split; [lia|].
    intros s j Hs Hj _. apply byte_at_replicate_0. lia.
  - rewrite seqZ_S, fold_left_app. cbn [fold_left].
    rewrite Z.add_0_l.
    destruct (IH ltac:(lia)) as (Hl & Hb & Hh & He & Hz).
    set (cur := fold_left _ _ _) in *.
    destruct (rebuild_font_entry_bytes old oldCap newCap cur (Z.of_nat k) Hok
                ltac:(lia) Hcap Hl) as (Hl' & H0 & H1 & Hin & Hout & Hb').
    cbv zeta in Hin, Hout.
    set (cur' := rebuild_font_entry old oldCap newCap cur (Z.of_nat k)) in *.
    pose proof (fo_entry _ _ Hok) as Hoe. unfold MAX_FONTS_PER_SEQUENCE in Hoe.
    pose proof (fun s => byte_at_range old (font_index old s) (fo_bytes _ _ Hok)) as Hn0.
    split; [lia|]. split; [by apply Hb'|].
    split; [|split].
    + intros s Hs. destruct (decide (s = Z.of_nat k)) as [->|Hne].
      * unfold font_index. rewrite H0, H1.
        pose proof (Z.div_mod (2 * newCap + 5 * Z.of_nat k) 256 ltac:(lia)). lia.
      * rewrite <- (Hh s) by lia. unfold font_index.
        rewrite !Hout by lia. done.
    + intros s j Hs Hso Hj. destruct (decide (s = Z.of_nat k)) as [->|Hne].
      * by apply Hin.
      * destruct (Hoe s ltac:(lia)) as (_ & Hn4 & _).
        rewrite Hout by lia. apply He; lia.
    + intros s j Hs Hj Hcase. destruct (decide (s = Z.of_nat k)) as [->|Hne].
      * rewrite Hout by lia. apply Hz; lia.
      * destruct (decide (Z.of_nat k < oldCap)) as [Hko|Hko].
        -- destruct (Hoe (Z.of_nat k) ltac:(lia)) as (_ & Hn4 & _).
           rewrite Hout by lia. apply Hz; lia.
        -- rewrite Hout by lia. apply Hz; lia.
Qed.

(** The rebuilt table: its format, the font lists it keeps and the bytes
    it leaves zero. *)
Lemma rebuilt_font_table_spec (old : list Z) (oldCapacity newCapacity : Z) :
  font_table_ok old oldCapacity ->
  0 <= oldCapacity <= newCapacity ->
  newCapacity <= 9362 ->
  let new := rebuilt_font_table old oldCapacity newCapacity in
  fixed_stride new newCapacity
  /\ (forall s j, 0 <= s < oldCapacity ->
        0 <= j <= byte_at old (font_index old s) ->
        byte_at new (font_index new s + j) = byte_at old (font_index old s + j))
  /\ (forall s j, 0 <= s < newCapacity -> 0 <= j <= MAX_FONTS_PER_SEQUENCE ->
        oldCapacity <= s \/ byte_at old (font_index old s) < j ->
        byte_at new (font_index new s + j) = 0).
Proof.
  intros Hok Hcaps Hmax new.
  pose proof (rebuild_loop old oldCapacity newCapacity Hok ltac:(lia) Hmax
                (Z.to_nat newCapacity) ltac:(lia)) as Hinv.
  rewrite Z2Nat.id in Hinv by lia.
  fold (rebuilt_font_table old oldCapacity newCapacity) in Hinv. fold new in Hinv.
  destruct Hinv as (Hl & Hb & Hh & He & Hz).
  unfold MAX_FONTS_PER_SEQUENCE.
  split; [|split].
  - constructor; unfold MAX_FONTS_PER_SEQUENCE.
    + lia.
    + exact Hb.
    + intros s Hs. rewrite Hh by done. lia.
  - intros s j Hs Hj. rewrite Hh by lia. apply He; lia.
  - intros s j Hs Hj Hcase. rewrite Hh by lia. apply Hz; lia.
Qed.

Lemma rebuilt_font_table_ok (old : list Z) (oldCapacity newCapacity : Z) :
  font_table_ok old oldCapacity ->
  0 <= oldCapacity <= newCapacity ->
  newCapacity <= 9362 ->
  font_table_ok (rebuilt_font_table old oldCapacity newCapacity) newCapacity.
Proof.
  intros Hok Hcaps Hmax.
  destruct (rebuilt_font_table_spec old oldCapacity newCapacity Hok Hcaps Hmax)
    as (Hfs & Hkeep & Hzero).
  set (new := rebuilt_font_table old oldCapacity newCapacity) in *.
  pose proof (fs_length _ _ Hfs) as Hl. unfold MAX_FONTS_PER_SEQUENCE in Hl, Hzero.
  constructor; [exact (fs_bytes _ _ Hfs)|].
  intros s Hs.
  assert (0 <= byte_at new (font_index new s) <= 4) as Hn.
  { destruct (decide (s < oldCapacity)) as [Hlt|Hge].
    - pose proof (Hkeep s 0 ltac:(lia)) as E. rewrite !Z.add_0_r in E.
      pose proof (byte_at_range old (font_index old s) (fo_bytes _ _ Hok)) as Hr.
      rewrite E by lia.
      destruct (fo_entry _ _ Hok s ltac:(lia)) as (_ & H4 & _).
      unfold MAX_FONTS_PER_SEQUENCE in H4. lia.
    - pose proof (Hzero s 0 Hs ltac:(lia) ltac:(lia)) as E.
      rewrite Z.add_0_r in E. rewrite E. lia. }
  pose proof (fs_index _ _ Hfs s Hs) as Ei.
  unfold MAX_FONTS_PER_SEQUENCE in Ei |- *. lia.
Qed.

(** X15: [AudioApi_RebuildSequenceFontTable] gives the font table its
    fixed-stride format and keeps every font list.  For a new capacity of
    at most 9362 (beyond it the u16 offsets of the header wrap), and an
    old table whose entries lie within it and have at most four fonts
    each, the rebuilt table holds [newCapacity] offsets followed by five
    bytes for each sequence; a sequence below the old capacity has the
    number of fonts and the fonts it had, the rest of its five bytes and
    the five bytes of every new sequence are zero; and the rebuilt table
    is again one that can be rebuilt: its entries lie within it and none
    has more than four fonts. *)
Theorem rebuilt_font_table_format (old : list Z) (oldCapacity newCapacity : Z) :
  font_table_ok old oldCapacity ->
  0 <= oldCapacity <= newCapacity ->
  newCapacity <= 9362 ->
  let new := rebuilt_font_table old oldCapacity newCapacity in
  fixed_stride new newCapacity
  /\ (forall s j, 0 <= s < oldCapacity ->
        0 <= j <= byte_at old (font_index old s) ->
        byte_at new (font_index new s + j) = byte_at old (font_index old s + j))
  /\ (forall s j, 0 <= s < newCapacity -> 0 <= j <= MAX_FONTS_PER_SEQUENCE ->
        oldCapacity <= s \/ byte_at old (font_index old s) < j ->
        byte_at new (font_index new s + j) = 0)
  /\ font_table_ok new newCapacity.
Proof.
  intros Hok Hcaps Hmax new.
  destruct (rebuilt_font_table_spec old oldCapacity newCapacity Hok Hcaps Hmax)
    as (Hfs & Hkeep & Hzero).
  fold new in Hfs, Hkeep, Hzero.
  split; [exact Hfs|]. split; [exact Hkeep|]. split; [exact Hzero|].
  by apply rebuilt_font_table_ok.
Qed.

Lemma rom_fonts_ok : font_table_ok rom_fonts 3.
Proof.
  constructor.
  - unfold rom_fonts. repeat (apply Forall_cons_2; [lia|]). apply Forall_nil_2.
  - intros s Hs.
    assert (s = 0 \/ s = 1 \/ s = 2) as [-> | [-> | ->]] by lia;
      vm_compute; (split; [reflexivity|]); split;
      first [reflexivity | intros E; discriminate E].
Qed.

Lemma rebuilt_font_table_format_witness :
  fixed_stride (rebuilt_font_table rom_fonts 3 4) 4
  /\ rebuilt_font_table rom_fonts 3 4
     = [0; 8; 0; 13; 0; 18; 0; 23;
        1; 3; 0; 0; 0;
        2; 5; 6; 0; 0;
        4; 1; 2; 3; 4;
        0; 0; 0; 0; 0].
Proof.
  destruct (rebuilt_font_table_format rom_fonts 3 4 rom_fonts_ok) as [H _].
  - lia.
  - lia.
  - split; [exact H | vm_compute; reflexivity].
Defined.

(** *** Growth *)

(** The four arrays after a growth that succeeded. *)
Lemma grow_sequence_blocks IS_RECOMP_ALLOC o st st' o' :
  wf_seq st ->
  AudioApi_GrowSequenceTables IS_RECOMP_ALLOC o st = (true, st', o') ->
  let oldCapacity := sequenceTableCapacity (seq st) in
  let newCapacity := u16 (Z.shiftl oldCapacity 1) in
  mem st' !! sequenceTable (seq st')
  = Some (BTable (grown_table (load_table (mem st) (sequenceTable (seq st)))
                              oldCapacity newCapacity))
  /\ mem st' !! sequenceFontTable (seq st')
     = Some (BBytes (rebuilt_font_table
                       (load_bytes (mem st) (sequenceFontTable (seq st)))
                       oldCapacity newCapacity))
  /\ mem st' !! sExtSeqFlags (seq st')
     = Some (BBytes (grown_bytes (load_bytes (mem st) (sExtSeqFlags (seq st)))
                                 oldCapacity newCapacity))
  /\ mem st' !! sExtSeqLoadStatus (seq st')
     = Some (BBytes (grown_bytes (load_bytes (mem st) (sExtSeqLoadStatus (seq st)))
                                 oldCapacity newCapacity))
  /\ sequenceTableCapacity (seq st') = newCapacity
  /\ numSequences (seq st') = numSequences (seq st).
Proof.
  intros [(t & Ht & Hlen) Hcount Hcap [bf Hf] [bg Hg] [bs Hs]].
  unfold AudioApi_GrowSequenceTables, AudioApi_RebuildSequenceFontTable, recomp_alloc.
  assert (forall k, is_Some (mem st !! k) -> k < fresh_addr (mem st)) as Hlt
    by apply fresh_addr_spec.
  pose proof (fresh_positive (mem st)) as Hpos.
  set (p1 := fresh_addr (mem st)) in *.
  destruct (next_alloc o) as [[] o1]; cbn; [|intros [=]].
  destruct (Z.eqb_spec p1 NULL) as [E|_]; [unfold NULL in E; lia|].
  match goal with |- context [<[p1 := ?b]> (mem st)] => set (m1 := <[p1 := b]> (mem st)) end.
  assert (p1 < fresh_addr m1) as H12 by apply fresh_above_insert.
  set (p2 := fresh_addr m1) in *.
  destruct (next_alloc o1) as [[] o2]; cbn; [|intros [=]].
  destruct (Z.eqb_spec p2 NULL) as [E|_]; [unfold NULL in E; lia|].
  match goal with |- context [<[p2 := ?b]> m1] => set (m2 := <[p2 := b]> m1) end.
  assert (p2 < fresh_addr m2) as H23 by apply fresh_above_insert.
  set (p3 := fresh_addr m2) in *.
  destruct (next_alloc o2) as [[] o3]; cbn; [|intros [=]].
  destruct (Z.eqb_spec p3 NULL) as [E|_]; [unfold NULL in E; lia|].
  match goal with |- context [<[p3 := ?b]> m2] => set (m3 := <[p3 := b]> m2) end.
  assert (p3 < fresh_addr m3) as H34 by apply fresh_above_insert.
  set (p4 := fresh_addr m3) in *.
  destruct (next_alloc o3) as [[] o4]; cbn; [|intros [=]].
  destruct (Z.eqb_spec p4 NULL) as [E|_]; [unfold NULL in E; lia|].
  intros [= <- <-]. cbn.
  assert (sequenceTable (seq st) < p1) by (apply Hlt; eauto).
  assert (sequenceFontTable (seq st) < p1) by (apply Hlt; eauto).
  assert (sExtSeqFlags (seq st) < p1) by (apply Hlt; eauto).
  assert (sExtSeqLoadStatus (seq st) < p1) by (apply Hlt; eauto).
  rewrite !(lookup_free_if_owned_ne IS_RECOMP_ALLOC) by lia.
  assert (load_bytes m1 (sequenceFontTable (seq st))
          = load_bytes (mem st) (sequenceFontTable (seq st))) as Ef.
  { unfold load_bytes, m1. rewrite lookup_insert_ne by lia. done. }
  assert (load_bytes m2 (sExtSeqFlags (seq st))
          = load_bytes (mem st) (sExtSeqFlags (seq st))) as Eg.
  { unfold load_bytes, m2, m1. rewrite !lookup_insert_ne by lia. done. }
  assert (load_bytes m3 (sExtSeqLoadStatus (seq st))
          = load_bytes (mem st) (sExtSeqLoadStatus (seq st))) as Es.
  { unfold load_bytes, m3, m2, m1. rewrite !lookup_insert_ne by lia. done. }
  split_and!; try done.
  - unfold m3, m2, m1. rewrite !lookup_insert_ne by lia. rewrite lookup_insert_eq. reflexivity.
  - unfold m3, m2. rewrite !lookup_insert_ne by lia. rewrite lookup_insert_eq.
    by rewrite Ef.
  - unfold m3. rewrite !lookup_insert_ne by lia. rewrite lookup_insert_eq.
    by rewrite Eg.
  - rewrite lookup_insert_eq. by rewrite Es.
Qed.

Lemma grown_table_entry t oldCap newCap j :
  length (entries t) = Z.to_nat oldCap -> 0 <= oldCap <= newCap ->
  0 <= j < newCap ->
  entries (grown_table t oldCap newCap) !!! Z.to_nat j
  = if j <? oldCap then entries t !!! Z.to_nat j else zero_entry.
Proof.
  intros Hl Hc Hj. unfold grown_table. cbn [entries].
  rewrite take_ge by lia. apply list_lookup_total_correct.
  destruct (Z.ltb_spec j oldCap).
  - rewrite lookup_resize by lia. apply list_lookup_lookup_total_lt. lia.
  - apply lookup_resize_new; lia.
Qed.

(** X16: a growth of the sequence tables that succeeds doubles the
    capacity and loses nothing.  For a capacity of at most 4681 (so that
    the doubled font table still has u16 offsets), the sequence count,
    every table entry and every font that [AudioApi_GetSequenceFont]
    reads are as before, the new table slots hold zero entries, the font
    table is in the fixed-stride format of the new capacity, and the
    tables are well formed again. *)
Theorem grow_sequence_tables_keeps (IS_RECOMP_ALLOC : Z -> bool)
    (o : Oracle) (st st' : State) (o' : Oracle) (b : list Z) :
  wf_seq st ->
  mem st !! sequenceFontTable (seq st) = Some (BBytes b) ->
  font_table_ok b (sequenceTableCapacity (seq st)) ->
  sequenceTableCapacity (seq st) <= 4681 ->
  AudioApi_GrowSequenceTables IS_RECOMP_ALLOC o st = (true, st', o') ->
  sequenceTableCapacity (seq st') = 2 * sequenceTableCapacity (seq st)
  /\ seq_count st' = seq_count st
  /\ (forall j, 0 <= j < sequenceTableCapacity (seq st) ->
        seq_entry st' j = seq_entry st j)
  /\ (forall j, sequenceTableCapacity (seq st) <= j < sequenceTableCapacity (seq st') ->
        seq_entry st' j = zero_entry)
  /\ (forall s k, 0 <= s -> 0 <= k ->
        AudioApi_GetSequenceFont s k st' = AudioApi_GetSequenceFont s k st)
  /\ (exists b', mem st' !! sequenceFontTable (seq st') = Some (BBytes b')
                 /\ fixed_stride b' (sequenceTableCapacity (seq st')))
  /\ wf_seq st'.
Proof.
  intros Hwf Hb Hok Hmax Hgrow.
  destruct (grow_sequence_blocks IS_RECOMP_ALLOC o st st' o' Hwf Hgrow)
    as (Ht' & Hf' & Hg' & Hs' & Hc' & _).
  cbv zeta in Ht', Hf', Hg', Hs', Hc'.
  pose proof Hwf as [(t & Ht & Hlen) Hcount Hcap _ _ _].
  set (cap := sequenceTableCapacity (seq st)) in *.
  assert (u16 (Z.shiftl cap 1) = 2 * cap) as Hu.
  { rewrite Z.shiftl_mul_pow2 by lia. unfold u16. rewrite Z.mod_small; lia. }
  rewrite Hu in Ht', Hf', Hg', Hs', Hc'.
  rewrite (load_table_lookup _ _ _ Ht) in Ht'.
  rewrite (load_bytes_lookup _ _ _ Hb) in Hf'.
  destruct (rebuilt_font_table_spec b cap (2 * cap) Hok ltac:(lia) ltac:(lia))
    as (Hfs & Hkeep & Hzero).
  set (b' := rebuilt_font_table b cap (2 * cap)) in *.
  assert (seq_count st' = seq_count st) as Hcnt.
  { unfold seq_count. rewrite (load_table_lookup _ _ _ Ht'), (load_table_lookup _ _ _ Ht).
    reflexivity. }
  split; [exact Hc'|]. split; [exact Hcnt|]. split; [|split; [|split; [|split]]].
  - intros j Hj. unfold seq_entry, table_entry.
    rewrite (load_table_lookup _ _ _ Ht'), (load_table_lookup _ _ _ Ht).
    rewrite grown_table_entry by lia.
    destruct (Z.ltb_spec j cap); [done | lia].
  - intros j Hj. rewrite Hc' in Hj. unfold seq_entry, table_entry.
    rewrite (load_table_lookup _ _ _ Ht').
    rewrite grown_table_entry by lia.
    destruct (Z.ltb_spec j cap); [lia | done].
  - intros s k Hs Hk.
    rewrite (get_font_read st' b' s k Hf'), (get_font_read st b s k Hb), Hcnt.
    destruct (Z.leb_spec (seq_count st) s); [done|].
    pose proof (Hkeep s 0 ltac:(lia)) as H0. rewrite !Z.add_0_r in H0.
    pose proof (byte_at_range b (font_index b s) (fo_bytes _ _ Hok)) as Hn0.
    rewrite H0 by lia.
    destruct (Z.leb_spec (byte_at b (font_index b s)) k); [done|].
    apply Hkeep; lia.
  - exists b'. rewrite Hc'. done.
  - constructor.
    + exists (grown_table t cap (2 * cap)). split; [done|].
      rewrite Hc'. unfold grown_table. cbn [entries]. apply length_resize.
    + rewrite Hcnt, Hc'. lia.
    + rewrite Hc'. lia.
    + eauto.
    + eauto.
    + eauto.
Qed.

(** The state of [fonts_state] with its flags and load status arrays. *)
Definition grow_state : State :=
  mkState {[ 0x80100000 := BTable (mkTable 3 0 0
                                     [mkEntry 0x20 1 2 0 0 0 0; mkEntry 0x40 2 2 0 0 0 0;
                                      mkEntry 0x60 3 2 0 0 0 0; zero_entry]);
             0x80100100 := BBytes fonts_table;
             0x80100200 := BBytes [1; 2; 3; 0];
             0x80100300 := BBytes [2; 2; 0; 0] ]}
          AUDIOAPI_INIT_READY
          (mkSeq 0x80100000 0x80100100 3 0x80100200 0x80100300 4 no_queue false)
          (mkBank 0 0 no_queue).

Lemma grow_state_wf : wf_seq grow_state.
Proof.
  constructor.
  - eexists. split; [vm_compute; reflexivity | reflexivity].
  - vm_compute. split; intros E; discriminate E.
  - reflexivity.
  - eexists. vm_compute. reflexivity.
  - eexists. vm_compute. reflexivity.
  - eexists. vm_compute. reflexivity.
Qed.

Lemma fonts_table_ok : font_table_ok fonts_table 4.
Proof.
  constructor.
  - apply (fs_bytes _ _ fonts_table_fixed_stride).
  - intros s Hs.
    assert (s = 0 \/ s = 1 \/ s = 2 \/ s = 3) as [-> | [-> | [-> | ->]]] by lia;
      vm_compute; (split; [reflexivity|]); split;
      first [reflexivity | intros E; discriminate E].
Qed.

Lemma grow_sequence_tables_keeps_witness :
  let r := AudioApi_GrowSequenceTables in_recomp_heap [] grow_state in
  r.1.1 = true
  /\ sequenceTableCapacity (seq r.1.2) = 8
  /\ seq_entry r.1.2 1 = mkEntry 0x40 2 2 0 0 0 0
  /\ AudioApi_GetSequenceFont 2 3 r.1.2 = 4.
Proof.
  set (r := AudioApi_GrowSequenceTables in_recomp_heap [] grow_state).
  assert (r = (true, r.1.2, r.2)) as Hr by (vm_compute; reflexivity).
  destruct (grow_sequence_tables_keeps in_recomp_heap [] grow_state r.1.2 r.2
              fonts_table grow_state_wf) as (H1 & _ & H2 & _ & H3 & _).
  - reflexivity.
  - exact fonts_table_ok.
  - vm_compute. intros E; discriminate E.
  - exact Hr.
  - cbn zeta. split; [by rewrite Hr|]. split; [exact H1|].
    split.
    + rewrite H2; [reflexivity|]. vm_compute. split; [intros E; discriminate E | reflexivity].
    + rewrite H3 by lia. reflexivity.
Defined.

(** *** Restoring the entries of the ROM *)

(** [gSequenceTable] is the sequence table of the ROM. *)
Definition AudioApi_RestoreSequence (gSequenceTable : AudioTable) (seqId : Z)
    (st : State) : State :=
  if gAudioApiInitPhase st <? AUDIOAPI_INIT_READY then st else
  if numEntries gSequenceTable <=? seqId then st else
  set_mem st (update_table (sequenceTable (seq st))
                (set_entry seqId (entries gSequenceTable !!! Z.to_nat seqId))
                (mem st)).

(** [gSampleBankTable] is the sample bank table of the ROM. *)
Definition AudioApi_RestoreSampleBank (gSampleBankTable : AudioTable) (bankId : Z)
    (st : State) : State :=
  if gAudioApiInitPhase st <? AUDIOAPI_INIT_READY then st else
  if numEntries gSampleBankTable <=? bankId then st else
  set_mem st (update_table (sampleBankTable (bank st))
                (set_entry bankId (entries gSampleBankTable !!! Z.to_nat bankId))
                (mem st)).

Lemma table_eta t :
  mkTable (numEntries t) (unkMediumParam t) (tableRomAddr t) (entries t) = t.
Proof. by destruct t. Qed.

(** Writing [v] over a slot that was written before leaves one write; a
    write of the value that the slot holds leaves the memory as it is. *)
Lemma set_entry_twice m p t i e v :
  m !! p = Some (BTable t) -> 0 <= i ->
  update_table p (set_entry i v) (update_table p (set_entry i e) m)
  = update_table p (set_entry i v) m.
Proof.
  intros Hp Hi.
  rewrite (update_table_set_entry m p t i e Hp Hi).
  rewrite (update_table_set_entry _ p _ i v (lookup_insert_eq _ _ _) Hi).
  rewrite (update_table_set_entry m p t i v Hp Hi).
  cbn. rewrite insert_insert_eq, list_insert_insert_eq. reflexivity.
Qed.

Lemma set_entry_same m p t i :
  m !! p = Some (BTable t) -> 0 <= i ->
  update_table p (set_entry i (entries t !!! Z.to_nat i)) m = m.
Proof.
  intros Hp Hi. rewrite (update_table_set_entry m p t i _ Hp Hi).
  destruct (decide (Z.to_nat i < length (entries t))%nat) as [Hlt|Hge].
  - rewrite list_insert_id by (by apply list_lookup_lookup_total_lt).
    rewrite table_eta. by apply insert_id.
  - rewrite list_insert_ge by lia. rewrite table_eta. by apply insert_id.
Qed.

Lemma table_entry_after_write m p t i v j :
  m !! p = Some (BTable t) -> 0 <= i -> 0 <= j ->
  (Z.to_nat i < length (entries t))%nat ->
  table_entry (update_table p (set_entry i v) m) p j
  = if j =? i then v else table_entry m p j.
Proof.
  intros Hp Hi Hj Hlen. unfold table_entry.
  rewrite (update_table_set_entry m p t i v Hp Hi).
  unfold load_table. rewrite lookup_insert_eq, Hp. cbn.
  destruct (Z.eqb_spec j i) as [->|Hne].
  - by apply list_lookup_total_insert_eq.
  - apply list_lookup_total_insert_ne. lia.
Qed.

Lemma state_set_mem_same st : set_mem st (mem st) = st.
Proof. by destruct st. Qed.

(** X17: [AudioApi_RestoreSequence] undoes [AudioApi_ReplaceSequence].
    In the READY phase, for a vanilla sequence id of the live table,
    a replacement followed by a restore leaves the entry of the ROM table
    in the slot and every other slot and the count as they were; when the
    slot held the entry of the ROM before and the id is not
    NA_BGM_FROG_SONG, the state is back to what it was.  The restore
    writes the slot of NA_BGM_FROG_SONG too, which the replacement
    leaves alone.  Before the READY phase the restore does nothing. *)
Theorem replace_restore_sequence (gSequenceTable : AudioTable) (o : Oracle)
    (seqId : Z) (e : AudioTableEntry) (st : State) (t : AudioTable) :
  mem st !! sequenceTable (seq st) = Some (BTable t) ->
  0 <= seqId < numEntries gSequenceTable ->
  numEntries gSequenceTable <= numEntries t ->
  numEntries t <= Z.of_nat (length (entries t)) ->
  let v := entries gSequenceTable !!! Z.to_nat seqId in
  let st1 := (AudioApi_ReplaceSequence o seqId e st).1 in
  let st2 := AudioApi_RestoreSequence gSequenceTable seqId st1 in
  (gAudioApiInitPhase st < AUDIOAPI_INIT_READY ->
   AudioApi_RestoreSequence gSequenceTable seqId st = st)
  /\ (gAudioApiInitPhase st = AUDIOAPI_INIT_READY ->
      seq_entry st2 seqId = v
      /\ (seqId <> NA_BGM_FROG_SONG -> seq_entry st1 seqId = e)
      /\ (forall j, 0 <= j -> j <> seqId -> seq_entry st2 j = seq_entry st j)
      /\ seq_count st2 = seq_count st
      /\ (seqId <> NA_BGM_FROG_SONG -> seq_entry st seqId = v -> st2 = st)).
Proof.
  intros Ht Hid Hrom Hlen v st1 st2.
  split.
  { intros Hp. unfold AudioApi_RestoreSequence.
    destruct (Z.ltb_spec (gAudioApiInitPhase st) AUDIOAPI_INIT_READY); [done | lia]. }
  intros Hp.
  set (p := sequenceTable (seq st)) in *.
  assert (exists g,
             st1 = mkState (if seqId =? NA_BGM_FROG_SONG then mem st
                            else update_table p (set_entry seqId e) (mem st))
                           (gAudioApiInitPhase st) g (bank st)
             /\ sequenceTable g = p
             /\ (seqId <> NA_BGM_FROG_SONG -> g = seq st)) as (g & Hst1 & Hg & Hgs).
  { subst st1. unfold AudioApi_ReplaceSequence.
    destruct (Z.eqb_spec (gAudioApiInitPhase st) AUDIOAPI_INIT_NOT_READY) as [E|_];
      [rewrite Hp in E; discriminate E|].
    destruct (Z.eqb_spec (gAudioApiInitPhase st) AUDIOAPI_INIT_QUEUEING) as [E|_];
      [rewrite Hp in E; discriminate E|].
    destruct (Z.eqb_spec seqId NA_BGM_FROG_SONG) as [Ef|Ef]; cbn.
    - eexists. split; [reflexivity|]. split; [reflexivity | done].
    - fold p. rewrite (load_table_lookup _ _ _ Ht).
      destruct (Z.leb_spec (numEntries t) seqId); [lia|]. cbn.
      exists (seq st). done. }
  assert (st2 = mkState (update_table p (set_entry seqId v) (mem st))
                        (gAudioApiInitPhase st) g (bank st)) as Hst2.
  { subst st2. unfold AudioApi_RestoreSequence. rewrite Hst1. cbn.
    destruct (Z.ltb_spec (gAudioApiInitPhase st) AUDIOAPI_INIT_READY) as [E|_];
      [rewrite Hp in E; lia|].
    destruct (Z.leb_spec (numEntries gSequenceTable) seqId); [lia|].
    unfold set_mem. cbn. rewrite Hg. fold v.
    destruct (Z.eqb_spec seqId NA_BGM_FROG_SONG) as [_|_]; [reflexivity|].
    rewrite (set_entry_twice _ _ t); [reflexivity | exact Ht | lia]. }
  rewrite Hst2, Hst1. unfold seq_entry, seq_count. cbn. rewrite Hg.
  split.
  { rewrite (table_entry_after_write _ _ t) by (done || lia).
    by rewrite Z.eqb_refl. }
  split.
  { intros Hf. destruct (Z.eqb_spec seqId NA_BGM_FROG_SONG); [done|].
    rewrite (table_entry_after_write _ _ t) by (done || lia).
    by rewrite Z.eqb_refl. }
  split.
  { intros j Hj Hne. rewrite (table_entry_after_write _ _ t) by (done || lia).
    destruct (Z.eqb_spec j seqId); done. }
  split.
  { rewrite (update_table_set_entry _ _ t) by (done || lia).
    unfold load_table. rewrite lookup_insert_eq. fold p. by rewrite Ht. }
  intros Hf Hv. rewrite (Hgs Hf).
  unfold table_entry in Hv. fold p in Hv. rewrite (load_table_lookup _ _ _ Ht) in Hv.
  rewrite <- Hv, (set_entry_same _ _ t) by (done || lia).
  by destruct st.
Qed.

Definition rom_table : AudioTable :=
  mkTable 3 0 0 [mkEntry 0x20 1 2 0 0 0 0; mkEntry 0x40 2 2 0 0 0 0;
                 mkEntry 0x60 3 2 0 0 0 0].

Lemma replace_restore_sequence_witness :
  AudioApi_RestoreSequence rom_table 1
    (AudioApi_ReplaceSequence [] 1 (mkEntry 0x80300000 64 2 0 0 0 0) grow_state).1
  = grow_state.
Proof.
  destruct (replace_restore_sequence rom_table [] 1 (mkEntry 0x80300000 64 2 0 0 0 0)
              grow_state
              (mkTable 3 0 0
                 [mkEntry 0x20 1 2 0 0 0 0; mkEntry 0x40 2 2 0 0 0 0;
                  mkEntry 0x60 3 2 0 0 0 0; zero_entry]))
    as (_ & H).
  - reflexivity.
  - vm_compute. split; [intros E; discriminate E | reflexivity].
  - vm_compute. intros E; discriminate E.
  - vm_compute. intros E; discriminate E.
  - destruct H as (_ & _ & _ & _ & H); [reflexivity|].
    apply H; [intros E; discriminate E | reflexivity].
Defined.

(** X18: [AudioApi_RestoreSampleBank] undoes [AudioApi_ReplaceSampleBank].
    In the READY phase, for a vanilla bank id of the live table, the
    replacement puts the given entry in the slot and the restore puts the
    entry of the ROM table back; the other slots and the count stay as
    they were, and when the slot held the entry of the ROM before, the
    state is back to what it was.  Neither call requests memory.  Before
    the READY phase the restore does nothing. *)
Theorem replace_restore_sample_bank (gSampleBankTable : AudioTable) (o : Oracle)
    (bankId : Z) (e : AudioTableEntry) (st : State) (t : AudioTable) :
  mem st !! sampleBankTable (bank st) = Some (BTable t) ->
  0 <= bankId < numEntries gSampleBankTable ->
  numEntries gSampleBankTable <= numEntries t ->
  numEntries t <= Z.of_nat (length (entries t)) ->
  let v := entries gSampleBankTable !!! Z.to_nat bankId in
  let r := AudioApi_ReplaceSampleBank o bankId e st in
  let st2 := AudioApi_RestoreSampleBank gSampleBankTable bankId r.1 in
  (gAudioApiInitPhase st < AUDIOAPI_INIT_READY ->
   AudioApi_RestoreSampleBank gSampleBankTable bankId st = st)
  /\ (gAudioApiInitPhase st = AUDIOAPI_INIT_READY ->
      r.2 = o
      /\ bank_entry r.1 bankId = e
      /\ bank_entry st2 bankId = v
      /\ (forall j, 0 <= j -> j <> bankId -> bank_entry st2 j = bank_entry st j)
      /\ bank_count st2 = bank_count st
      /\ (bank_entry st bankId = v -> st2 = st)).
Proof.
  intros Ht Hid Hrom Hlen v r st2.
  split.
  { intros Hp. unfold AudioApi_RestoreSampleBank.
    destruct (Z.ltb_spec (gAudioApiInitPhase st) AUDIOAPI_INIT_READY); [done | lia]. }
  intros Hp.
  set (p := sampleBankTable (bank st)) in *.
  assert (r = (set_mem st (update_table p (set_entry bankId e) (mem st)), o)) as Hr.
  { subst r. unfold AudioApi_ReplaceSampleBank.
    destruct (Z.eqb_spec (gAudioApiInitPhase st) AUDIOAPI_INIT_NOT_READY) as [E|_];
      [rewrite Hp in E; discriminate E|].
    destruct (Z.eqb_spec (gAudioApiInitPhase st) AUDIOAPI_INIT_QUEUEING) as [E|_];
      [rewrite Hp in E; discriminate E|].
    fold p. rewrite (load_table_lookup _ _ _ Ht).
    destruct (Z.leb_spec (numEntries t) bankId); [lia | reflexivity]. }
  assert (st2 = set_mem st (update_table p (set_entry bankId v) (mem st))) as Hst2.
  { subst st2. unfold AudioApi_RestoreSampleBank. rewrite Hr. cbn.
    destruct (Z.ltb_spec (gAudioApiInitPhase st) AUDIOAPI_INIT_READY) as [E|_];
      [rewrite Hp in E; lia|].
    destruct (Z.leb_spec (numEntries gSampleBankTable) bankId); [lia|].
    unfold set_mem. cbn. fold p. fold v.
    rewrite (set_entry_twice _ _ t); [reflexivity | exact Ht | lia]. }
  rewrite Hst2, Hr. unfold bank_entry, bank_count. cbn. fold p.
  split; [reflexivity|].
  split.
  { rewrite (table_entry_after_write _ _ t) by (done || lia).
    by rewrite Z.eqb_refl. }
  split.
  { rewrite (table_entry_after_write _ _ t) by (done || lia).
    by rewrite Z.eqb_refl. }
  split.
  { intros j Hj Hne. rewrite (table_entry_after_write _ _ t) by (done || lia).
    destruct (Z.eqb_spec j bankId); done. }
  split.
  { rewrite (update_table_set_entry _ _ t) by (done || lia).
    unfold load_table. rewrite lookup_insert_eq. by rewrite Ht. }
  intros Hv. unfold table_entry in Hv. rewrite (load_table_lookup _ _ _ Ht) in Hv.
  rewrite <- Hv, (set_entry_same _ _ t) by (done || lia).
  apply state_set_mem_same.
Qed.

(** Two sample banks in the READY phase, as the ROM has them. *)
Definition banks_state : State :=
  mkState {[ 0x80100400 := BTable (mkTable 2 0 0
                                     [mkEntry 0x100 8 2 0 0 0 0;
                                      mkEntry 0x200 8 2 0 0 0 0]) ]}
          AUDIOAPI_INIT_READY
          (mkSeq 0 0 0 0 0 0 no_queue false)
          (mkBank 0x80100400 2 no_queue).

Definition rom_banks : AudioTable :=
  mkTable 2 0 0 [mkEntry 0x100 8 2 0 0 0 0; mkEntry 0x200 8 2 0 0 0 0].

Lemma replace_restore_sample_bank_witness :
  bank_entry (AudioApi_ReplaceSampleBank [] 1 (mkEntry 0x80300000 64 2 0 0 0 0)
                banks_state).1 1
  = mkEntry 0x80300000 64 2 0 0 0 0
  /\ AudioApi_RestoreSampleBank rom_banks 1
       (AudioApi_ReplaceSampleBank [] 1 (mkEntry 0x80300000 64 2 0 0 0 0)
          banks_state).1
     = banks_state.
Proof.
  destruct (replace_restore_sample_bank rom_banks [] 1
              (mkEntry 0x80300000 64 2 0 0 0 0) banks_state rom_banks)
    as (_ & H).
  - reflexivity.
  - vm_compute. split; [intros E; discriminate E | reflexivity].
  - vm_compute. intros E; discriminate E.
  - vm_compute. intros E; discriminate E.
  - destruct H as (_ & H1 & _ & _ & _ & H2); [reflexivity|].
    split; [exact H1 | apply H2; reflexivity].
Defined.

(** *** Initialisation *)

Definition set_font_table (st : State) (p : Z) : State :=
  set_seq st (mkSeq (sequenceTable (seq st)) p (numSequences (seq st))
                    (sExtSeqFlags (seq st)) (sExtSeqLoadStatus (seq st))
                    (sequenceTableCapacity (seq st)) (sequenceQueue (seq st))
                    (sLoggedFrogSongReplaceIgnore (seq st))).

(** [AudioApi_SequenceInit].  The state keeps the queue by value and has
    no value for a NULL queue: the result is [None] when
    [RecompQueue_Create] returns NULL. *)
Definition AudioApi_SequenceInit (IS_RECOMP_ALLOC : Z -> bool) (o : Oracle)
    (st : State) : option State * Oracle :=
  let '(queue, o) := Queue.RecompQueue_Create o in
  let capacity := sequenceTableCapacity (seq st) in
  let '(newSeqFontTable, st, o) :=
    AudioApi_RebuildSequenceFontTable o st capacity capacity in
  let st := if newSeqFontTable =? NULL then st
            else set_font_table st newSeqFontTable in
  let '(_, st, o) := AudioApi_GrowSequenceTables IS_RECOMP_ALLOC o st in
  let g := seq st in
  let n := s16 (sequenceTableCapacity g) in
  let st :=
    mkState (update_table (sequenceTable g) (set_numEntries n) (mem st))
            (gAudioApiInitPhase st)
            (mkSeq (sequenceTable g) (sequenceFontTable g) n
                   (sExtSeqFlags g) (sExtSeqLoadStatus g) (sequenceTableCapacity g)
                   (sequenceQueue g) (sLoggedFrogSongReplaceIgnore g))
            (bank st) in
  (q ← queue; Some (set_seq_queue st q), o).

Lemma grow_sequence_succeeds IS_RECOMP_ALLOC o st :
  Forall (fun b => b = true) o ->
  (AudioApi_GrowSequenceTables IS_RECOMP_ALLOC o st).1.1 = true
  /\ Forall (fun b => b = true) (AudioApi_GrowSequenceTables IS_RECOMP_ALLOC o st).2.
Proof.
  intros Ho.
  unfold AudioApi_GrowSequenceTables, AudioApi_RebuildSequenceFontTable, recomp_alloc.
  destruct (Queue.next_alloc_never_fails o Ho) as [Hok1 Ho1].
  destruct (next_alloc o) as [ok1 o1]. cbn in Hok1, Ho1. subst ok1. cbn.
  pose proof (fresh_positive (mem st)).
  destruct (Z.eqb_spec (fresh_addr (mem st)) NULL) as [E|_]; [unfold NULL in E; lia|].
  destruct (Queue.next_alloc_never_fails o1 Ho1) as [Hok2 Ho2].
  destruct (next_alloc o1) as [ok2 o2]. cbn in Hok2, Ho2. subst ok2. cbn.
  match goal with |- context [fresh_addr ?m =? NULL] =>
    pose proof (fresh_positive m);
    destruct (Z.eqb_spec (fresh_addr m) NULL) as [E|_]; [unfold NULL in E; lia|] end.
  destruct (Queue.next_alloc_never_fails o2 Ho2) as [Hok3 Ho3].
  destruct (next_alloc o2) as [ok3 o3]. cbn in Hok3, Ho3. subst ok3. cbn.
  match goal with |- context [fresh_addr ?m =? NULL] =>
    pose proof (fresh_positive m);
    destruct (Z.eqb_spec (fresh_addr m) NULL) as [E|_]; [unfold NULL in E; lia|] end.
  destruct (Queue.next_alloc_never_fails o3 Ho3) as [Hok4 Ho4].
  destruct (next_alloc o3) as [ok4 o4]. cbn in Hok4, Ho4. subst ok4. cbn.
  match goal with |- context [fresh_addr ?m =? NULL] =>
    pose proof (fresh_positive m);
    destruct (Z.eqb_spec (fresh_addr m) NULL) as [E|_]; [unfold NULL in E; lia|] end.
  cbn. done.
Qed.

(** The font lists that a rebuilt table has: those of the old table below
    the old capacity, empty ones from it on. *)
Lemma rebuilt_font_lists (old : list Z) (oldCapacity newCapacity s k : Z) :
  font_table_ok old oldCapacity ->
  0 <= oldCapacity <= newCapacity -> newCapacity <= 9362 ->
  0 <= s < newCapacity -> 0 <= k ->
  let new := rebuilt_font_table old oldCapacity newCapacity in
  (if byte_at new (font_index new s) <=? k then -1
   else byte_at new (font_index new s + (k + 1)))
  = if s <? oldCapacity
    then (if byte_at old (font_index old s) <=? k then -1
          else byte_at old (font_index old s + (k + 1)))
    else -1.
Proof.
  intros Hok Hcaps Hmax Hs Hk new.
  destruct (rebuilt_font_table_spec old oldCapacity newCapacity Hok Hcaps Hmax)
    as (Hfs & Hkeep & Hzero).
  fold new in Hfs, Hkeep, Hzero. unfold MAX_FONTS_PER_SEQUENCE in Hzero.
  destruct (Z.ltb_spec s oldCapacity) as [Hlt|Hge].
  - pose proof (Hkeep s 0 ltac:(lia)) as E. rewrite !Z.add_0_r in E.
    pose proof (byte_at_range old (font_index old s) (fo_bytes _ _ Hok)) as Hr.
    rewrite E by lia.
    destruct (Z.leb_spec (byte_at old (font_index old s)) k); [done|].
    apply Hkeep; lia.
  - pose proof (Hzero s 0 Hs ltac:(lia) ltac:(lia)) as E.
    rewrite Z.add_0_r in E. rewrite E.
    destruct (Z.leb_spec 0 k); [done | lia].
Qed.

(** X27: [AudioApi_SequenceInit] doubles the sequence tables and makes
    every slot a sequence.  When its allocations succeed (capacity at most
    4681, font table with at most four fonts per sequence), the capacity is
    doubled and the sequence count is set to it, so the slots above the old
    count become sequences: the old slots keep their entries, the new ones
    hold zero entries, the sequences counted before keep their fonts, the
    new slots have no fonts, the font table is in the fixed-stride format,
    the queue is the empty one of [RecompQueue_Create], and the tables are
    well formed.  After it, on the vanilla capacity of 0x80, the first id
    that [AudioApi_AddSequence] hands out is 256. *)
Theorem sequence_init_doubles (IS_RECOMP_ALLOC : Z -> bool) (o : Oracle)
    (st : State) (b : list Z) :
  wf_seq st ->
  mem st !! sequenceFontTable (seq st) = Some (BBytes b) ->
  font_table_ok b (sequenceTableCapacity (seq st)) ->
  sequenceTableCapacity (seq st) <= 4681 ->
  Forall (fun x => x = true) o ->
  let capacity := sequenceTableCapacity (seq st) in
  exists st',
    (AudioApi_SequenceInit IS_RECOMP_ALLOC o st).1 = Some st'
    /\ sequenceTableCapacity (seq st') = 2 * capacity
    /\ seq_count st' = 2 * capacity
    /\ numSequences (seq st') = 2 * capacity
    /\ (forall j, 0 <= j < capacity -> seq_entry st' j = seq_entry st j)
    /\ (forall j, capacity <= j < 2 * capacity -> seq_entry st' j = zero_entry)
    /\ (forall s k, 0 <= s < seq_count st -> 0 <= k ->
          AudioApi_GetSequenceFont s k st' = AudioApi_GetSequenceFont s k st)
    /\ (forall s k, capacity <= s -> 0 <= k -> AudioApi_GetSequenceFont s k st' = -1)
    /\ (exists b', mem st' !! sequenceFontTable (seq st') = Some (BBytes b')
                   /\ fixed_stride b' (2 * capacity))
    /\ sequenceQueue (seq st') = Queue.created_queue
    /\ gAudioApiInitPhase st' = gAudioApiInitPhase st
    /\ wf_seq st'
    /\ (capacity = NA_BGM_MAX ->
        gAudioApiInitPhase st <> AUDIOAPI_INIT_NOT_READY ->
        forall o2 e, Forall (fun x => x = true) o2 ->
          (AudioApi_AddSequence IS_RECOMP_ALLOC o2 e st').1.1 = 256).
Proof.
  intros Hwf Hb Hok Hmax Ho capacity.
  pose proof Hwf as [(t & Ht & Hlen) Hcount Hcap [bf Hf] [bg Hg] [bs Hs]].
  assert (u16 (Z.shiftl capacity 1) = 2 * capacity) as Hu.
  { rewrite Z.shiftl_mul_pow2 by lia. unfold u16. rewrite Z.mod_small; lia. }
  unfold AudioApi_SequenceInit.
  (* the queue *)
  unfold Queue.RecompQueue_Create.
  destruct (Queue.next_alloc_never_fails o Ho) as [Hk1 Ho1].
  destruct (next_alloc o) as [k1 o1]. cbn in Hk1, Ho1. subst k1. cbn [negb].
  destruct (Queue.next_alloc_never_fails o1 Ho1) as [Hk2 Ho2].
  destruct (next_alloc o1) as [k2 o2]. cbn in Hk2, Ho2. subst k2. cbn [negb].
  (* the font table in its new format *)
  unfold AudioApi_RebuildSequenceFontTable, recomp_alloc.
  destruct (Queue.next_alloc_never_fails o2 Ho2) as [Hk3 Ho3].
  destruct (next_alloc o2) as [k3 o3]. cbn in Hk3, Ho3. subst k3.
  rewrite (load_bytes_lookup _ _ _ Hb). fold capacity.
  assert (forall k, is_Some (mem st !! k) -> k < fresh_addr (mem st)) as Hlt
    by apply fresh_addr_spec.
  pose proof (fresh_positive (mem st)) as Hpos.
  set (p := fresh_addr (mem st)) in *.
  destruct (Z.eqb_spec p NULL) as [E|_]; [unfold NULL in E; lia|].
  set (b1 := rebuilt_font_table b capacity capacity).
  set (st1 := set_font_table (set_mem st (<[p := BBytes b1]> (mem st))) p).
  assert (sequenceTable (seq st) < p) as Hpt by (apply Hlt; eauto).
  assert (sExtSeqFlags (seq st) < p) as Hpg by (apply Hlt; eauto).
  assert (sExtSeqLoadStatus (seq st) < p) as Hps by (apply Hlt; eauto).
  assert (mem st1 !! sequenceTable (seq st1) = Some (BTable t)) as Ht1.
  { cbn. rewrite lookup_insert_ne by lia. exact Ht. }
  assert (mem st1 !! sequenceFontTable (seq st1) = Some (BBytes b1)) as Hb1
    by (cbn; apply lookup_insert_eq).
  assert (wf_seq st1) as Hwf1.
  { constructor.
    - exists t. split; [exact Ht1 | exact Hlen].
    - unfold seq_count. rewrite (load_table_lookup _ _ _ Ht1).
      unfold seq_count in Hcount. rewrite (load_table_lookup _ _ _ Ht) in Hcount.
      exact Hcount.
    - exact Hcap.
    - rewrite Hb1. eauto.
    - cbn. rewrite lookup_insert_ne by lia. eauto.
    - cbn. rewrite lookup_insert_ne by lia. eauto. }
  pose proof (rebuilt_font_table_ok b capacity capacity Hok ltac:(lia) ltac:(lia))
    as Hok1. fold b1 in Hok1.
  (* the growth *)
  destruct (grow_sequence_succeeds IS_RECOMP_ALLOC o3 st1 Ho3) as [Hgt _].
  destruct (AudioApi_GrowSequenceTables IS_RECOMP_ALLOC o3 st1) as [[ok st2] o4] eqn:Hgrow.
  cbn in Hgt. subst ok.
  destruct (grow_sequence_blocks IS_RECOMP_ALLOC o3 st1 st2 o4 Hwf1 Hgrow)
    as (Ht2 & Hf2 & Hg2 & Hs2 & Hc2 & _).
  destruct (grow_sequence_ok IS_RECOMP_ALLOC o3 st1 st2 o4 Hwf1 Hgrow)
    as (_ & _ & _ & _ & _ & Hp2 & Hq2 & _).
  cbv zeta in Ht2, Hf2, Hg2, Hs2, Hc2.
  change (sequenceTableCapacity (seq st1)) with capacity in Ht2, Hf2, Hg2, Hs2, Hc2.
  rewrite Hu in Ht2, Hf2, Hg2, Hs2, Hc2.
  rewrite (load_table_lookup _ _ _ Ht1) in Ht2.
  rewrite (load_bytes_lookup _ _ _ Hb1) in Hf2.
  set (b2 := rebuilt_font_table b1 capacity (2 * capacity)) in *.
  set (t2 := grown_table t capacity (2 * capacity)) in *.
  destruct (rebuilt_font_table_spec b1 capacity (2 * capacity) Hok1 ltac:(lia) ltac:(lia))
    as (Hfs2 & _ & _). fold b2 in Hfs2.
  assert (s16 (2 * capacity) = 2 * capacity) as Hs16 by (apply s16_small; lia).
  cbn [mbind option_bind]. rewrite Hc2, Hs16.
  set (m3 := update_table (sequenceTable (seq st2)) (set_numEntries (2 * capacity))
                          (mem st2)).
  eexists. split; [reflexivity|].
  assert (m3 !! sequenceTable (seq st2)
          = Some (BTable (set_numEntries (2 * capacity) t2))) as Ht3
    by (apply update_table_lookup; exact Ht2).
  assert (forall q, q <> sequenceTable (seq st2) -> m3 !! q = mem st2 !! q) as Hm3.
  { intros q Hq. unfold m3. by apply update_table_lookup_ne. }
  assert (sequenceFontTable (seq st2) <> sequenceTable (seq st2)) as Hne2.
  { intros E. rewrite E, Ht2 in Hf2. discriminate Hf2. }
  assert (m3 !! sequenceFontTable (seq st2) = Some (BBytes b2)) as Hf3
    by (rewrite Hm3 by done; exact Hf2).
  cbn [seq set_seq_queue set_seq mem sequenceTable sequenceFontTable numSequences
       sequenceTableCapacity sequenceQueue gAudioApiInitPhase bank sExtSeqFlags
       sExtSeqLoadStatus].
  unfold seq_count, seq_entry, table_entry.
  cbn [seq set_seq_queue set_seq mem sequenceTable sequenceFontTable numSequences
       sequenceTableCapacity sequenceQueue gAudioApiInitPhase bank sExtSeqFlags
       sExtSeqLoadStatus].
  rewrite (load_table_lookup _ _ _ Ht3), (load_table_lookup _ _ _ Ht).
  split; [reflexivity|].
  split; [cbn; exact Hs16|].
  split; [reflexivity|].
  split.
  { intros j Hj. cbn [entries set_numEntries]. unfold t2.
    rewrite grown_table_entry by lia.
    destruct (Z.ltb_spec j capacity); [done | lia]. }
  split.
  { intros j Hj. cbn [entries set_numEntries]. unfold t2.
    rewrite grown_table_entry by lia.
    destruct (Z.ltb_spec j capacity); [lia | done]. }
  assert (forall s k, 0 <= s -> 0 <= k ->
            AudioApi_GetSequenceFont s k
              (set_seq_queue
                 (mkState m3 (gAudioApiInitPhase st2)
                    (mkSeq (sequenceTable (seq st2)) (sequenceFontTable (seq st2))
                       (2 * capacity) (sExtSeqFlags (seq st2))
                       (sExtSeqLoadStatus (seq st2)) (2 * capacity)
                       (sequenceQueue (seq st2))
                       (sLoggedFrogSongReplaceIgnore (seq st2)))
                    (bank st2))
                 (Queue.mkQueue
                    (replicate (Z.to_nat Queue.QUEUE_INITIAL_CAPACITY) Queue.zero_cmd)
                    0 Queue.QUEUE_INITIAL_CAPACITY))
            = if 2 * capacity <=? s then -1
              else if s <? capacity
                   then (if byte_at b (font_index b s) <=? k then -1
                         else byte_at b (font_index b s + (k + 1)))
                   else -1) as Hget.
  { intros s k Hs0 Hk. unfold AudioApi_GetSequenceFont.
    cbn [seq set_seq_queue set_seq mem sequenceTable sequenceFontTable].
    rewrite (load_table_lookup _ _ _ Ht3), (load_bytes_lookup _ _ _ Hf3).
    cbn [numEntries set_numEntries]. rewrite Hs16.
    destruct (Z.leb_spec (2 * capacity) s); [done|].
    unfold b2.
    rewrite (rebuilt_font_lists b1 capacity (2 * capacity) s k Hok1) by lia.
    destruct (Z.ltb_spec s capacity); [|done].
    unfold b1.
    rewrite (rebuilt_font_lists b capacity capacity s k Hok) by lia.
    destruct (Z.ltb_spec s capacity); [done | lia]. }
  split.
  { intros s k Hsk Hk. rewrite Hget by lia.
    rewrite (get_font_read st b s k Hb).
    unfold seq_count in Hcount |- *.
    rewrite (load_table_lookup _ _ _ Ht) in Hcount |- *.
    destruct (Z.leb_spec (2 * capacity) s); [lia|].
    destruct (Z.ltb_spec s capacity); [|lia].
    destruct (Z.leb_spec (numEntries t) s); [lia | done]. }
  split.
  { intros s k Hsk Hk. rewrite Hget by lia.
    destruct (Z.leb_spec (2 * capacity) s); [done|].
    destruct (Z.ltb_spec s capacity); [lia | done]. }
  split; [exists b2; done|].
  split; [reflexivity|].
  split; [rewrite Hp2; reflexivity|].
  assert (length (entries t2) = Z.to_nat (2 * capacity)) as Hlen2
    by (unfold t2, grown_table; cbn [entries]; apply length_resize).
  assert (sExtSeqFlags (seq st2) <> sequenceTable (seq st2)) as Hneg.
  { intros E. rewrite E, Ht2 in Hg2. discriminate Hg2. }
  assert (sExtSeqLoadStatus (seq st2) <> sequenceTable (seq st2)) as Hnes.
  { intros E. rewrite E, Ht2 in Hs2. discriminate Hs2. }
  match goal with |- wf_seq ?s /\ _ => assert (wf_seq s) as Hwf3 end.
  { constructor; unfold seq_count;
      cbn [seq set_seq_queue set_seq mem sequenceTable sequenceFontTable
           sequenceTableCapacity sExtSeqFlags sExtSeqLoadStatus].
    - eexists. split; [exact Ht3|]. cbn [entries set_numEntries]. exact Hlen2.
    - rewrite (load_table_lookup _ _ _ Ht3). cbn [numEntries set_numEntries].
      rewrite Hs16. lia.
    - lia.
    - rewrite Hf3. eauto.
    - rewrite Hm3 by done. rewrite Hg2. eauto.
    - rewrite Hm3 by done. rewrite Hs2. eauto. }
  split; [exact Hwf3|].
  intros Hvan Hphase o5 e Ho5.
  unfold AudioApi_AddSequence.
  cbn [seq set_seq_queue set_seq mem sequenceTable sequenceFontTable numSequences
       sequenceTableCapacity sequenceQueue gAudioApiInitPhase bank].
  rewrite Hp2.
  change (gAudioApiInitPhase st1) with (gAudioApiInitPhase st).
  destruct (Z.eqb_spec (gAudioApiInitPhase st) AUDIOAPI_INIT_NOT_READY); [done|].
  rewrite (load_table_lookup _ _ _ Ht3). cbn [numEntries set_numEntries].
  rewrite Hs16. unfold capacity in Hvan. fold capacity in Hvan. rewrite Hvan.
  change (skip_sentinels 2 (2 * NA_BGM_MAX)) with 256.
  change (2 * NA_BGM_MAX <=? 256) with true. cbv iota.
  match goal with
  | |- context [AudioApi_GrowSequenceTables IS_RECOMP_ALLOC o5 ?s] =>
      destruct (grow_sequence_succeeds IS_RECOMP_ALLOC o5 s Ho5) as [Hgt5 _];
      destruct (AudioApi_GrowSequenceTables IS_RECOMP_ALLOC o5 s) as [[ok5 st5] o6]
  end.
  cbn in Hgt5. subst ok5. reflexivity.
Qed.

Lemma sequence_init_doubles_witness :
  exists st',
    (AudioApi_SequenceInit in_recomp_heap [] grow_state).1 = Some st'
    /\ seq_count st' = 8
    /\ seq_entry st' 1 = mkEntry 0x40 2 2 0 0 0 0
    /\ AudioApi_GetSequenceFont 2 3 st' = 4.
Proof.
  destruct (sequence_init_doubles in_recomp_heap [] grow_state fonts_table
              grow_state_wf) as (st' & H1 & _ & H2 & _ & H3 & _ & H4 & _).
  - reflexivity.
  - exact fonts_table_ok.
  - vm_compute. intros E; discriminate E.
  - apply Forall_nil_2.
  - exists st'. split; [exact H1|]. split; [exact H2|]. split.
    + rewrite H3; [reflexivity|]. vm_compute. split; [intros E; discriminate E | reflexivity].
    + rewrite H4; [reflexivity | | lia].
      vm_compute. split; [intros E; discriminate E | reflexivity].
Defined.

(** *** Growth of the sample bank table *)

(** X28: a growth of the sample bank table that succeeds doubles the
    capacity and loses nothing.  For a capacity of at most 32767 (so that
    the doubled u16 does not wrap), the bank count and every table entry
    are as before, the new slots hold zero entries, the table is well
    formed again, and the sequence globals and the phase are untouched.
    The old table is released exactly when IS_RECOMP_ALLOC holds of it. *)
Theorem grow_sample_bank_tables_keeps (IS_RECOMP_ALLOC : Z -> bool)
    (o : Oracle) (st st' : State) (o' : Oracle) :
  wf_bank st ->
  sampleBankTableCapacity (bank st) <= 32767 ->
  AudioApi_GrowSampleBankTables IS_RECOMP_ALLOC o st = (true, st', o') ->
  let capacity := sampleBankTableCapacity (bank st) in
  sampleBankTableCapacity (bank st') = 2 * capacity
  /\ bank_count st' = bank_count st
  /\ (forall j, 0 <= j < capacity -> bank_entry st' j = bank_entry st j)
  /\ (forall j, capacity <= j < 2 * capacity -> bank_entry st' j = zero_entry)
  /\ wf_bank st'
  /\ sampleBankTable (bank st') = fresh_addr (mem st)
  /\ mem st' !! sampleBankTable (bank st)
     = (if IS_RECOMP_ALLOC (sampleBankTable (bank st)) then None
        else mem st !! sampleBankTable (bank st))
  /\ seq st' = seq st
  /\ gAudioApiInitPhase st' = gAudioApiInitPhase st.
Proof.
  intros Hwf Hmax Hgrow capacity.
  pose proof Hwf as [(t & Ht & Hlen) Hcount Hcap].
  fold capacity in Hlen, Hcount, Hcap, Hmax.
  assert (u16 (Z.shiftl capacity 1) = 2 * capacity) as Hu.
  { rewrite Z.shiftl_mul_pow2 by lia. unfold u16. rewrite Z.mod_small; lia. }
  assert (forall k, is_Some (mem st !! k) -> k < fresh_addr (mem st)) as Hlt
    by apply fresh_addr_spec.
  pose proof (fresh_positive (mem st)) as Hpos.
  assert (sampleBankTable (bank st) < fresh_addr (mem st)) as Hold
    by (apply Hlt; eauto).
  unfold AudioApi_GrowSampleBankTables, recomp_alloc in Hgrow.
  destruct (next_alloc o) as [[] o1]; cbn in Hgrow; [|discriminate Hgrow].
  destruct (Z.eqb_spec (fresh_addr (mem st)) NULL) as [E|_]; [unfold NULL in E; lia|].
  injection Hgrow as <- <-. fold capacity. rewrite Hu.
  rewrite (load_table_lookup _ _ _ Ht).
  set (p := fresh_addr (mem st)) in *.
  set (t' := grown_table t capacity (2 * capacity)).
  assert (free_if_owned IS_RECOMP_ALLOC (sampleBankTable (bank st))
            (<[p := BTable t']> (mem st)) !! p = Some (BTable t')) as Hnew.
  { rewrite lookup_free_if_owned_ne by lia. apply lookup_insert_eq. }
  unfold bank_count, bank_entry, table_entry. cbn.
  rewrite (load_table_lookup _ _ _ Hnew), (load_table_lookup _ _ _ Ht).
  split; [reflexivity|]. split; [reflexivity|].
  split.
  { intros j Hj. unfold t'. rewrite grown_table_entry by lia.
    destruct (Z.ltb_spec j capacity); [done | lia]. }
  split.
  { intros j Hj. unfold t'. rewrite grown_table_entry by lia.
    destruct (Z.ltb_spec j capacity); [lia | done]. }
  split.
  { constructor; unfold bank_count; cbn.
    - exists t'. split; [exact Hnew|]. unfold t', grown_table. cbn [entries].
      apply length_resize.
    - rewrite (load_table_lookup _ _ _ Hnew). cbn.
      unfold bank_count in Hcount. rewrite (load_table_lookup _ _ _ Ht) in Hcount. lia.
    - lia. }
  split; [reflexivity|].
  split; [|done].
  unfold free_if_owned, recomp_free.
  destruct (IS_RECOMP_ALLOC (sampleBankTable (bank st))).
  - apply lookup_delete_eq.
  - apply lookup_insert_ne. lia.
Qed.

Lemma grow_sample_bank_tables_keeps_witness :
  let r := AudioApi_GrowSampleBankTables in_recomp_heap [] banks_state in
  r.1.1 = true
  /\ sampleBankTableCapacity (bank r.1.2) = 4
  /\ bank_entry r.1.2 1 = mkEntry 0x200 8 2 0 0 0 0
  /\ bank_entry r.1.2 3 = zero_entry.
Proof.
  set (r := AudioApi_GrowSampleBankTables in_recomp_heap [] banks_state).
  assert (r = (true, r.1.2, r.2)) as Hr by (vm_compute; reflexivity).
  assert (wf_bank banks_state) as Hwf.
  { constructor.
    - eexists. split; [vm_compute; reflexivity | reflexivity].
    - vm_compute. split; intros E; discriminate E.
    - reflexivity. }
  destruct (grow_sample_bank_tables_keeps in_recomp_heap [] banks_state r.1.2 r.2 Hwf)
    as (H1 & _ & H2 & H3 & _).
  - vm_compute. intros E; discriminate E.
  - exact Hr.
  - cbn zeta. split; [by rewrite Hr|]. split; [exact H1|]. split.
    + rewrite H2; [reflexivity|].
      vm_compute. split; [intros E; discriminate E | reflexivity].
    + apply H3. vm_compute. split; [intros E; discriminate E | reflexivity].
Defined.

End Tables.

(** ** src/utils/dynamicdataarray.c *)

Module DynArr.

(** [DynamicDataArray]: [data] is NULL or points to the buffer, which the
    array owns and which is kept here by value, as its bytes; the three
    sizes are [size_t]. *)
Record DynamicDataArray := mkArr {
  data : option (list Z);
  capacity : Z;
  count : Z;
  elementSize : Z
}.

Definition DEFAULT_CAPACITY : Z := 16.

Definition NEXT_CAPACITY (current : Z) : Z :=
  if current =? 0 then DEFAULT_CAPACITY else u32 (u32 (current + 1) * 3) / 2.

(** Reads and writes of [n] bytes at a byte offset of a buffer.  [None]
    is an access outside the buffer. *)
Definition read_at (buf : list Z) (off n : Z) : option (list Z) :=
  if off + n <=? Z.of_nat (length buf)
  then Some (take (Z.to_nat n) (drop (Z.to_nat off) buf))
  else None.

Definition write_at (buf : list Z) (off : Z) (src : list Z) : option (list Z) :=
  if off + Z.of_nat (length src) <=? Z.of_nat (length buf)
  then Some (list_inserts (Z.to_nat off) src buf)
  else None.

(** [memcpy(data + off, src, n)]; [None] when [data] is NULL or one of the
    two accesses is outside its buffer. *)
Definition memcpy_to (data : option (list Z)) (off : Z) (src : list Z) (n : Z)
  : option (list Z) :=
  buf ← data; bytes ← read_at src 0 n; write_at buf off bytes.

Definition set_count (dArr : DynamicDataArray) (n : Z) : DynamicDataArray :=
  mkArr (data dArr) (capacity dArr) n (elementSize dArr).

Definition set_data (dArr : DynamicDataArray) (buf : list Z) : DynamicDataArray :=
  mkArr (Some buf) (capacity dArr) (count dArr) (elementSize dArr).

(** The result is [None] when the code writes through a pointer that is
    NULL or outside its buffer: the allocation is not checked before
    [Lib_MemSet] and [memcpy] use it. *)
Definition resizeDynDataArr (o : Oracle) (dArr : DynamicDataArray) (newCapacity : Z)
  : option DynamicDataArray * Oracle :=
  if 0 <? newCapacity then
    let newByteSize := u32 (newCapacity * elementSize dArr) in
    let '(ok, o) := next_alloc o in
    let newData := if ok then Some (replicate (Z.to_nat newByteSize) 0) else None in
    if negb ok && (0 <? newByteSize) then (None, o) else
    let min := if newCapacity <? count dArr then newCapacity else count dArr in
    let newCount := if newCapacity <? count dArr then newCapacity else count dArr in
    let copied :=
      match data dArr with
      | Some old =>
          let n := u32 (min * elementSize dArr) in
          if n =? 0 then Some newData
          else Some <$> memcpy_to newData 0 old n
      | None => Some newData
      end in
    (newData ← copied;
     Some (mkArr newData newCapacity newCount (elementSize dArr)), o)
  else (Some dArr, o).

Definition resetStruct (dArr : DynamicDataArray) : DynamicDataArray :=
  mkArr None 0 0 0.

Definition DynDataArr_init (o : Oracle) (dArr : DynamicDataArray)
    (elementSize initialCapacity : Z) : option DynamicDataArray * Oracle :=
  let dArr := resetStruct dArr in
  let dArr := mkArr (data dArr) (capacity dArr) (count dArr) elementSize in
  if initialCapacity =? 0 then (Some dArr, o)
  else resizeDynDataArr o dArr initialCapacity.

Definition DynDataArr_clear (dArr : DynamicDataArray) : DynamicDataArray :=
  set_count dArr 0.

Definition DynDataArr_destroyMembers (dArr : DynamicDataArray) : DynamicDataArray :=
  resetStruct dArr.

(** The pointer returned, as a byte offset into [data]; [None] is NULL. *)
Definition DynDataArr_get (dArr : DynamicDataArray) (index : Z) : option Z :=
  if elementSize dArr <? 1 then None
  else Some (u32 (elementSize dArr * index)).

Definition DynDataArr_createElement (o : Oracle) (dArr : DynamicDataArray)
  : option (option Z * DynamicDataArray) * Oracle :=
  if elementSize dArr <? 1 then (Some (None, dArr), o) else
  let newCount := u32 (count dArr + 1) in
  let '(r, o) :=
    if capacity dArr <? newCount
    then resizeDynDataArr o dArr (NEXT_CAPACITY (capacity dArr))
    else (Some dArr, o) in
  (dArr ← r;
   Some (DynDataArr_get dArr (count dArr), set_count dArr newCount), o).

Definition DynDataArr_set (dArr : DynamicDataArray) (index : Z) (value : list Z)
  : option (bool * DynamicDataArray) :=
  if (elementSize dArr <? 1) || (count dArr <=? index) then Some (false, dArr) else
  off ← DynDataArr_get dArr index;
  buf ← memcpy_to (data dArr) off value (elementSize dArr);
  Some (true, set_data dArr buf).

Definition DynDataArr_push (o : Oracle) (dArr : DynamicDataArray) (value : list Z)
  : option DynamicDataArray * Oracle :=
  if elementSize dArr <? 1 then (Some dArr, o) else
  let '(r, o) := DynDataArr_createElement o dArr in
  ('(element, dArr) ← r;
   off ← element;
   buf ← memcpy_to (data dArr) off value (elementSize dArr);
   Some (set_data dArr buf), o).

Definition DynDataArr_pop (dArr : DynamicDataArray) : bool * DynamicDataArray :=
  if count dArr <? 1 then (false, dArr)
  else (true, set_count dArr (count dArr - 1)).

(** [n] iterations of the loop of [DynDataArr_removeByIndex] from [i]. *)
Fixpoint remove_loop (dArr : DynamicDataArray) (i : Z) (n : nat)
  : option DynamicDataArray :=
  match n with
  | O => Some dArr
  | S n' =>
      dst ← DynDataArr_get dArr i;
      src ← DynDataArr_get dArr (u32 (i + 1));
      buf ← data dArr;
      bytes ← read_at buf src (elementSize dArr);
      buf' ← write_at buf dst bytes;
      remove_loop (set_data dArr buf') (u32 (i + 1)) n'
  end.

Definition DynDataArr_removeByIndex (dArr : DynamicDataArray) (index : Z)
  : option (bool * DynamicDataArray) :=
  if (elementSize dArr <? 1) || (count dArr <=? index) then Some (false, dArr) else
  dArr' ← remove_loop dArr index (Z.to_nat (u32 (count dArr - 1) - index));
  Some (true, set_count dArr' (u32 (count dArr - 1))).

(** The loop of [DynDataArr_removeByValue] from [i], for [n] more
    elements: the index of the first element equal to [value].  The
    [elementSize] bytes that [Utils_MemCmp] may read are taken to lie
    within the two buffers ([None] otherwise). *)
Fixpoint find_value (dArr : DynamicDataArray) (value : list Z) (i : Z) (n : nat)
  : option (option Z) :=
  match n with
  | O => Some None
  | S n' =>
      off ← DynDataArr_get dArr i;
      buf ← data dArr;
      elem ← read_at buf off (elementSize dArr);
      v ← read_at value 0 (elementSize dArr);
      if Misc.Utils_MemCmp elem v (elementSize dArr) =? 0 then Some (Some i)
      else find_value dArr value (u32 (i + 1)) n'
  end.

Definition DynDataArr_removeByValue (dArr : DynamicDataArray) (value : list Z)
  : option (bool * DynamicDataArray) :=
  if elementSize dArr <? 1 then Some (false, dArr) else
  found ← find_value dArr value 0 (Z.to_nat (count dArr));
  match found with
  | Some i => r ← DynDataArr_removeByIndex dArr i; Some (true, r.2)
  | None => Some (false, dArr)
  end.


(** *** The elements of an array *)

(** The array as the code keeps it: elements of at least one byte, the
    count within the capacity, a buffer of [capacity] elements (or none
    when the capacity is 0), and a byte size that fits [size_t]. *)
Record wf (a : DynamicDataArray) : Prop := {
  wf_size : 1 <= elementSize a;
  wf_count : 0 <= count a <= capacity a;
  wf_fits : capacity a * elementSize a < 4294967296;
  wf_data : match data a with
            | Some buf => Z.of_nat (length buf) = capacity a * elementSize a
            | None => capacity a = 0
            end
}.

(** The [i]-th group of [es] bytes of a buffer. *)
Definition chunk (es : nat) (buf : list Z) (i : nat) : list Z :=
  take es (drop (es * i) buf).

(** The elements of the array, first to last. *)
Definition elems (a : DynamicDataArray) : list (list Z) :=
  match data a with
  | Some buf => chunk (Z.to_nat (elementSize a)) buf <$> seq 0 (Z.to_nat (count a))
  | None => []
  end.

Lemma chunk_lookup es buf i k :
  (k < es)%nat -> chunk es buf i !! k = buf !! (es * i + k)%nat.
Proof. intros H. unfold chunk. rewrite lookup_take_lt by done. apply lookup_drop. Qed.

Lemma chunk_length es buf i :
  (es * i + es <= length buf)%nat -> length (chunk es buf i) = es.
Proof. intros H. unfold chunk. rewrite length_take, length_drop. lia. Qed.

Lemma chunk_ext es buf buf' i j :
  (forall k, (k < es)%nat -> buf' !! (es * i + k)%nat = buf !! (es * j + k)%nat) ->
  chunk es buf' i = chunk es buf j.
Proof.
  intros H. apply list_eq. intros k.
  destruct (decide (k < es)%nat) as [Hk|Hk].
  - rewrite !chunk_lookup by done. by apply H.
  - unfold chunk. rewrite !lookup_take_ge by lia. done.
Qed.

Lemma chunk_inserts es buf v i :
  length v = es -> (es * i + es <= length buf)%nat ->
  chunk es (list_inserts (es * i) v buf) i = v
  /\ forall j, j <> i -> chunk es (list_inserts (es * i) v buf) j = chunk es buf j.
Proof.
  intros Hv Hlen. split.
  - apply list_eq. intros k.
    destruct (decide (k < es)%nat) as [Hk|Hk].
    + rewrite chunk_lookup by done.
      rewrite list_lookup_inserts by lia. f_equal. lia.
    + unfold chunk. rewrite lookup_take_ge by lia.
      symmetry. apply lookup_ge_None_2. lia.
  - intros j Hj. apply chunk_ext. intros k Hk.
    destruct (decide (j < i)%nat).
    + apply list_lookup_inserts_lt. nia.
    + apply list_lookup_inserts_ge. nia.
Qed.

Lemma elems_length a : wf a -> length (elems a) = Z.to_nat (count a).
Proof.
  intros [Hs Hc Hf Hd]. unfold elems. destruct (data a).
  - by rewrite length_fmap, length_seq.
  - cbn. lia.
Qed.

Lemma elems_lookup a buf j :
  data a = Some buf -> (j < Z.to_nat (count a))%nat ->
  elems a !! j = Some (chunk (Z.to_nat (elementSize a)) buf j).
Proof.
  intros Hd Hj. unfold elems. rewrite Hd, list_lookup_fmap.
  rewrite lookup_seq_lt by done. reflexivity.
Qed.

(** Two arrays have the same elements when their buffers agree on the
    groups below the count. *)
Lemma elems_eq a buf l :
  data a = Some buf ->
  length l = Z.to_nat (count a) ->
  (forall j, (j < Z.to_nat (count a))%nat ->
             l !! j = Some (chunk (Z.to_nat (elementSize a)) buf j)) ->
  elems a = l.
Proof.
  intros Hd Hl H. apply list_eq. intros j.
  destruct (decide (j < Z.to_nat (count a))%nat) as [Hj|Hj].
  - rewrite (elems_lookup a buf j Hd Hj). symmetry. by apply H.
  - rewrite !lookup_ge_None_2; [done | lia |].
    unfold elems. rewrite Hd, length_fmap, length_seq. lia.
Qed.

Lemma u32_small x : 0 <= x < 4294967296 -> u32 x = x.
Proof. intros H. unfold u32. by apply Z.mod_small. Qed.

(** The offset of an element of the buffer and the two accesses to it. *)
Lemma get_offset a i :
  wf a -> 0 <= i < capacity a ->
  DynDataArr_get a i = Some (elementSize a * i)
  /\ Z.to_nat (elementSize a * i) = (Z.to_nat (elementSize a) * Z.to_nat i)%nat
  /\ elementSize a * i + elementSize a <= capacity a * elementSize a.
Proof.
  intros [Hs Hc Hf Hd] Hi. unfold DynDataArr_get.
  destruct (Z.ltb_spec (elementSize a) 1); [lia|].
  rewrite u32_small by nia. split; [done|]. split; [|nia].
  rewrite Z2Nat.inj_mul by lia. done.
Qed.

Lemma read_element a buf i :
  wf a -> data a = Some buf -> 0 <= i < capacity a ->
  read_at buf (elementSize a * i) (elementSize a)
  = Some (chunk (Z.to_nat (elementSize a)) buf (Z.to_nat i)).
Proof.
  intros Hwf Hd Hi. destruct (get_offset a i Hwf Hi) as (_ & Hn & Hle).
  destruct Hwf as [Hs Hc Hf Hl]. rewrite Hd in Hl.
  unfold read_at. destruct (Z.leb_spec (elementSize a * i + elementSize a)
                                       (Z.of_nat (length buf))); [|lia].
  unfold chunk. by rewrite Hn.
Qed.

Lemma write_element a buf i v :
  wf a -> data a = Some buf -> 0 <= i < capacity a ->
  Z.of_nat (length v) = elementSize a ->
  let es := Z.to_nat (elementSize a) in
  exists buf',
    write_at buf (elementSize a * i) v = Some buf'
    /\ length buf' = length buf
    /\ chunk es buf' (Z.to_nat i) = v
    /\ forall j, j <> Z.to_nat i -> chunk es buf' j = chunk es buf j.
Proof.
  intros Hwf Hd Hi Hv es. destruct (get_offset a i Hwf Hi) as (_ & Hn & Hle).
  destruct Hwf as [Hs Hc Hf Hl]. rewrite Hd in Hl.
  unfold write_at. rewrite Hv.
  destruct (Z.leb_spec (elementSize a * i + elementSize a)
                       (Z.of_nat (length buf))); [|lia].
  eexists. split; [reflexivity|]. rewrite Hn. fold es.
  split; [apply length_inserts|].
  apply chunk_inserts; [lia | nia].
Qed.

Lemma read_value (value : list Z) n :
  0 <= n <= Z.of_nat (length value) ->
  read_at value 0 n = Some (take (Z.to_nat n) value)
  /\ Z.of_nat (length (take (Z.to_nat n) value)) = n.
Proof.
  intros H. unfold read_at. destruct (Z.leb_spec (0 + n) (Z.of_nat (length value))); [|lia].
  rewrite drop_0. split; [done|]. rewrite length_take. lia.
Qed.


Lemma wf_has_buffer a :
  wf a -> 0 < capacity a -> exists buf, data a = Some buf.
Proof.
  intros [Hs Hc Hf Hd] Hcap. destruct (data a) as [buf|]; [eauto | lia].
Qed.

Lemma wf_set_data a buf :
  wf a -> Z.of_nat (length buf) = capacity a * elementSize a -> wf (set_data a buf).
Proof. intros [Hs Hc Hf Hd] Hl. by constructor. Qed.

(** X22: [DynDataArr_set] overwrites one element.  For an index below
    the count it returns true, the element at the index becomes the first
    [elementSize] bytes of the value and the other elements, the count and
    the capacity stay; for an index at or past the count it returns false
    and changes nothing. *)
Theorem set_overwrites_element (a : DynamicDataArray) (index : Z) (value : list Z) :
  wf a -> 0 <= index -> elementSize a <= Z.of_nat (length value) ->
  (count a <= index -> DynDataArr_set a index value = Some (false, a))
  /\ (index < count a ->
      exists a',
        DynDataArr_set a index value = Some (true, a')
        /\ wf a' /\ count a' = count a /\ capacity a' = capacity a
        /\ elems a'
           = <[Z.to_nat index := take (Z.to_nat (elementSize a)) value]> (elems a)).
Proof.
  intros Hwf Hi Hv. pose proof Hwf as [Hs Hc Hf Hd].
  unfold DynDataArr_set.
  destruct (Z.ltb_spec (elementSize a) 1); [lia|]. cbn [orb].
  split.
  { intros Hge. destruct (Z.leb_spec (count a) index); [done | lia]. }
  intros Hlt. destruct (Z.leb_spec (count a) index); [lia|].
  destruct (wf_has_buffer a Hwf ltac:(lia)) as [buf Hbuf].
  destruct (get_offset a index Hwf ltac:(lia)) as (-> & _ & _). cbn.
  unfold memcpy_to. rewrite Hbuf. cbn.
  destruct (read_value value (elementSize a) ltac:(lia)) as [-> Hlv]. cbn.
  destruct (write_element a buf index _ Hwf Hbuf ltac:(lia) Hlv)
    as (buf' & -> & Hl' & Hci & Hcj). cbn.
  eexists. split; [reflexivity|].
  rewrite Hbuf in Hd.
  split; [apply wf_set_data; [done | lia]|]. split; [done|]. split; [done|].
  apply (elems_eq (set_data a buf') buf'); [done | |].
  - rewrite length_insert. rewrite elems_length by done. done.
  - intros j Hj. change (count (set_data a buf')) with (count a) in Hj.
    change (elementSize (set_data a buf')) with (elementSize a).
    destruct (decide (j = Z.to_nat index)) as [->|Hne].
    + rewrite list_lookup_insert_eq by (rewrite elems_length by done; lia).
      by rewrite Hci.
    + rewrite list_lookup_insert_ne by done.
      rewrite (elems_lookup a buf j Hbuf Hj). by rewrite Hcj.
Qed.


Lemma chunk_zeros es n j :
  (es * j + es <= n)%nat -> chunk es (replicate n 0) j = replicate es 0.
Proof.
  intros H. apply list_eq. intros k.
  destruct (decide (k < es)%nat) as [Hk|Hk].
  - rewrite chunk_lookup by done.
    rewrite !lookup_replicate_2 by lia. done.
  - unfold chunk. rewrite lookup_take_ge by lia.
    symmetry. apply lookup_ge_None_2. rewrite length_replicate. lia.
Qed.

(** The buffer that [resizeDynDataArr] fills: zeros, then the first [n]
    bytes of the old buffer on top. *)
Lemma resized_chunks es (old : list Z) (n size : nat) :
  (n <= length old)%nat -> (n <= size)%nat ->
  let buf' := list_inserts 0 (take n old) (replicate size 0) in
  length buf' = size
  /\ (forall j, (es * j + es <= n)%nat -> chunk es buf' j = chunk es old j)
  /\ (forall j, (n <= es * j)%nat -> (es * j + es <= size)%nat ->
                chunk es buf' j = replicate es 0).
Proof.
  intros Hn Hs buf'.
  assert (length (take n old) = n) as Lt by (rewrite length_take; lia).
  split; [unfold buf'; by rewrite length_inserts, length_replicate|].
  split.
  - intros j Hj. apply chunk_ext. intros k Hk. unfold buf'.
    rewrite list_lookup_inserts by (rewrite ?length_replicate; lia).
    rewrite lookup_take_lt by lia. f_equal. lia.
  - intros j Hj Hj'. rewrite <- (chunk_zeros es size j Hj').
    apply chunk_ext. intros k Hk. unfold buf'.
    apply list_lookup_inserts_ge. lia.
Qed.

Lemma resize_spec o a nc :
  wf a -> 0 < nc -> nc * elementSize a < 4294967296 ->
  (next_alloc o).1 = true ->
  exists a' buf',
    resizeDynDataArr o a nc = (Some a', (next_alloc o).2)
    /\ wf a' /\ data a' = Some buf'
    /\ capacity a' = nc /\ count a' = Z.min (count a) nc
    /\ elementSize a' = elementSize a
    /\ elems a' = take (Z.to_nat nc) (elems a)
    /\ (forall j, Z.min (count a) nc <= Z.of_nat j < nc ->
          chunk (Z.to_nat (elementSize a)) buf' j
          = replicate (Z.to_nat (elementSize a)) 0).
Proof.
  intros Hwf Hnc Hfit Hok. pose proof Hwf as [Hs Hc Hf Hd].
  set (es := Z.to_nat (elementSize a)).
  set (mn := Z.min (count a) nc).
  set (size := Z.to_nat (nc * elementSize a)).
  assert (exists old,
             (Z.to_nat (mn * elementSize a) <= length old)%nat
             /\ (forall buf, data a = Some buf -> buf = old)
             /\ (data a = None -> mn = 0)) as (old & Hold & Hsame & Hnone).
  { assert (0 <= mn <= capacity a) as Hmn0 by (unfold mn; lia).
    assert (0 <= mn * elementSize a <= capacity a * elementSize a) as Hmn1 by nia.
    destruct (data a) as [buf|] eqn:Hbuf.
    - cbn in Hd.
      exists buf. split; [lia|]. split; [by intros ? [= ->] | done].
    - cbn in Hd. assert (mn = 0) as Hmn by lia.
      exists []. rewrite Hmn. split; [cbn; lia|]. split; [done | done]. }
  assert (0 <= mn <= nc /\ mn <= capacity a) as [Hmn Hmc] by (unfold mn; lia).
  assert (0 <= mn * elementSize a <= nc * elementSize a) as Hme by nia.
  assert (Z.to_nat (mn * elementSize a) <= size)%nat as Hsz by (unfold size; lia).
  destruct (resized_chunks es old (Z.to_nat (mn * elementSize a)) size Hold Hsz)
    as (Hlen & Hkeep & Hzero).
  set (buf' := list_inserts 0 (take (Z.to_nat (mn * elementSize a)) old)
                            (replicate size 0)) in *.
  assert (resizeDynDataArr o a nc
          = (Some (mkArr (Some buf') nc mn (elementSize a)), (next_alloc o).2)) as Hres.
  { unfold resizeDynDataArr.
    destruct (Z.ltb_spec 0 nc); [|lia].
    destruct (next_alloc o) as [ok o'] eqn:Ho. cbn in Hok. subst ok.
    cbn [negb andb fst snd].
    rewrite (u32_small (nc * elementSize a)) by lia. fold size.
    assert ((if nc <? count a then nc else count a) = mn) as ->.
    { unfold mn. destruct (Z.ltb_spec nc (count a)); lia. }
    destruct (data a) as [buf|] eqn:Hbuf.
    - specialize (Hsame buf eq_refl). subst buf.
      rewrite (u32_small (mn * elementSize a)) by lia.
      destruct (Z.eqb_spec (mn * elementSize a) 0) as [E|E].
      + cbn. unfold buf'. rewrite E. cbn. reflexivity.
      + unfold memcpy_to. cbn.
        unfold read_at.
        destruct (Z.leb_spec (0 + mn * elementSize a) (Z.of_nat (length old))); [|lia].
        rewrite drop_0. cbn. unfold write_at. rewrite length_take, length_replicate.
        match goal with
        | |- context [?x <=? ?y] => destruct (Z.leb_spec x y); [|lia]
        end.
        cbn. reflexivity.
    - rewrite (Hnone eq_refl). cbn. unfold buf'. rewrite (Hnone eq_refl). cbn.
      reflexivity. }
  exists (mkArr (Some buf') nc mn (elementSize a)), buf'.
  split; [exact Hres|].
  assert (wf (mkArr (Some buf') nc mn (elementSize a))) as Hwf'.
  { constructor; cbn; [done | lia | done | lia]. }
  split; [exact Hwf'|]. split; [done|]. split; [done|]. split; [done|]. split; [done|].
  split.
  - apply (elems_eq _ buf'); [done | |]; cbn [count elementSize].
    + rewrite length_take, elems_length by done. lia.
    + intros j Hj. fold es.
      destruct (data a) as [buf|] eqn:Hbuf; [|rewrite (Hnone eq_refl) in Hj; lia].
      specialize (Hsame buf eq_refl). subst buf.
      rewrite lookup_take_lt by lia.
      rewrite (elems_lookup a old j Hbuf) by lia. fold es.
      rewrite Hkeep; [done|]. subst es. nia.
  - intros j Hj. apply Hzero; subst es size; nia.
Qed.


Lemma next_capacity_grows cap :
  0 <= cap -> 3 * (cap + 1) < 4294967296 ->
  NEXT_CAPACITY cap = (if cap =? 0 then 16 else (cap + 1) * 3 / 2)
  /\ cap < NEXT_CAPACITY cap.
Proof.
  intros H0 H1. unfold NEXT_CAPACITY, DEFAULT_CAPACITY.
  destruct (Z.eqb_spec cap 0) as [->|Hne]; [lia|].
  rewrite (u32_small (cap + 1)) by lia. rewrite u32_small by lia.
  split; [done|].
  assert (2 * (cap + 1) <= (cap + 1) * 3) as Hle by lia.
  pose proof (Z.div_le_mono _ _ 2 ltac:(lia) Hle) as Hd.
  replace (2 * (cap + 1)) with ((cap + 1) * 2) in Hd by lia.
  rewrite Z.div_mul in Hd by lia. lia.
Qed.

Lemma array_eta a : mkArr (data a) (capacity a) (count a) (elementSize a) = a.
Proof. by destruct a. Qed.

(** What [DynDataArr_createElement] does on an array whose growth, if it
    is due, gets its allocation. *)
Lemma create_spec o a :
  wf a ->
  3 * (capacity a + 1) < 4294967296 ->
  NEXT_CAPACITY (capacity a) * elementSize a < 4294967296 ->
  count a < capacity a \/ (next_alloc o).1 = true ->
  let grows := capacity a <=? count a in
  exists a1 buf1,
    DynDataArr_createElement o a
    = (Some (Some (elementSize a * count a), a1),
       if grows then (next_alloc o).2 else o)
    /\ wf a1 /\ data a1 = Some buf1
    /\ count a1 = count a + 1
    /\ capacity a1 = (if grows then NEXT_CAPACITY (capacity a) else capacity a)
    /\ elementSize a1 = elementSize a
    /\ (forall j, (j < Z.to_nat (count a))%nat ->
          elems a !! j = Some (chunk (Z.to_nat (elementSize a)) buf1 j))
    /\ (grows = true ->
        chunk (Z.to_nat (elementSize a)) buf1 (Z.to_nat (count a))
        = replicate (Z.to_nat (elementSize a)) 0)
    /\ (grows = false -> a1 = set_count a (count a + 1)).
Proof.
  intros Hwf H3 Hfit Hok grows. pose proof Hwf as [Hs Hc Hf Hd].
  destruct (next_capacity_grows (capacity a) ltac:(lia) H3) as [_ Hnc].
  unfold DynDataArr_createElement.
  destruct (Z.ltb_spec (elementSize a) 1); [lia|].
  rewrite (u32_small (count a + 1)) by nia.
  subst grows.
  destruct (Z.leb_spec (capacity a) (count a)) as [Hfull|Hroom].
  - destruct (Z.ltb_spec (capacity a) (count a + 1)); [|lia].
    destruct Hok as [|Hok]; [lia|].
    destruct (resize_spec o a (NEXT_CAPACITY (capacity a)) Hwf ltac:(lia) Hfit Hok)
      as (a1 & buf1 & -> & Hwf1 & Hd1 & Hcap1 & Hcnt1 & Hes1 & Hel1 & Hz1).
    rewrite Z.min_l in Hcnt1 by lia. cbn.
    exists (set_count a1 (count a + 1)), buf1.
    unfold DynDataArr_get. rewrite Hes1, Hcnt1.
    destruct (Z.ltb_spec (elementSize a) 1); [lia|].
    rewrite u32_small by nia.
    split; [reflexivity|].
    destruct Hwf1 as [Hs1 Hc1 Hf1 Hl1]. rewrite Hd1 in Hl1.
    split; [constructor; cbn; rewrite ?Hd1; lia|].
    split; [done|]. split; [done|]. split; [done|]. split; [done|].
    split; [|split; [|done]].
    + intros j Hj.
      assert (elems a1 !! j = Some (chunk (Z.to_nat (elementSize a1)) buf1 j)) as E
        by (apply elems_lookup; [done | lia]).
      rewrite Hel1, Hes1 in E. rewrite lookup_take_lt in E by lia. done.
    + intros _. apply Hz1. lia.
  - destruct (Z.ltb_spec (capacity a) (count a + 1)); [lia|]. cbn.
    destruct (wf_has_buffer a Hwf ltac:(lia)) as [buf Hbuf].
    exists (set_count a (count a + 1)), buf.
    unfold DynDataArr_get.
    destruct (Z.ltb_spec (elementSize a) 1); [lia|].
    rewrite u32_small by nia.
    split; [reflexivity|]. rewrite Hbuf in Hd.
    split; [constructor; cbn; rewrite ?Hbuf; lia|].
    split; [done|]. split; [done|]. split; [done|]. split; [done|].
    split; [|split; [done | done]].
    intros j Hj. by apply elems_lookup.
Qed.

(** X21: [DynDataArr_push] appends.  On a well-formed array, with a
    value of at least [elementSize] bytes and sizes that fit [size_t]:
    when there is room, or the array is full and the allocation of the
    grown buffer succeeds, the elements afterwards are the elements before
    followed by the first [elementSize] bytes of the value, the array is
    well formed, and the capacity is kept or, on growth, becomes
    NEXT_CAPACITY (16 for an empty array, else (capacity + 1) * 3 / 2),
    which is larger.  When the array is full and the allocation fails, the
    code writes through the NULL pointer it got. *)
Theorem push_appends (o : Oracle) (a : DynamicDataArray) (value : list Z) :
  wf a ->
  elementSize a <= Z.of_nat (length value) ->
  3 * (capacity a + 1) < 4294967296 ->
  NEXT_CAPACITY (capacity a) * elementSize a < 4294967296 ->
  let grows := capacity a <=? count a in
  (count a < capacity a \/ (next_alloc o).1 = true ->
   exists a',
     DynDataArr_push o a value = (Some a', if grows then (next_alloc o).2 else o)
     /\ wf a'
     /\ elems a' = elems a ++ [take (Z.to_nat (elementSize a)) value]
     /\ capacity a' = (if grows then NEXT_CAPACITY (capacity a) else capacity a)
     /\ capacity a < NEXT_CAPACITY (capacity a))
  /\ (count a = capacity a -> (next_alloc o).1 = false ->
      DynDataArr_push o a value = (None, (next_alloc o).2)).
Proof.
  intros Hwf Hv H3 Hfit grows. pose proof Hwf as [Hs Hc Hf Hd].
  destruct (next_capacity_grows (capacity a) ltac:(lia) H3) as [_ Hnc].
  split.
  - intros Hok.
    destruct (create_spec o a Hwf H3 Hfit Hok)
      as (a1 & buf1 & Hcr & Hwf1 & Hd1 & Hcnt1 & Hcap1 & Hes1 & Hold & _ & _).
    fold grows in Hcr, Hcap1.
    unfold DynDataArr_push.
    destruct (Z.ltb_spec (elementSize a) 1); [lia|].
    rewrite Hcr. cbn. unfold memcpy_to. rewrite Hd1, Hes1. cbn.
    destruct (read_value value (elementSize a) ltac:(lia)) as [-> Hlv]. cbn.
    assert (capacity a < capacity a1 \/ count a < capacity a1) as Hroom.
    { rewrite Hcap1. subst grows. destruct (Z.leb_spec (capacity a) (count a)); lia. }
    rewrite <- Hes1 in Hlv |- *.
    destruct (write_element a1 buf1 (count a) _ Hwf1 Hd1 ltac:(lia) Hlv)
      as (buf' & -> & Hl' & Hci & Hcj). cbn.
    rewrite Hes1 in Hci, Hcj, Hlv.
    eexists. split; [reflexivity|].
    pose proof Hwf1 as [Hs1 Hc1 Hf1 Hl1]. rewrite Hd1 in Hl1.
    split; [apply wf_set_data; [done | lia]|].
    split; [|split; [done | done]].
    apply (elems_eq (set_data a1 buf') buf'); [done | |].
    + change (count (set_data a1 buf')) with (count a1).
      rewrite length_app, elems_length by done. cbn. lia.
    + change (count (set_data a1 buf')) with (count a1).
      change (elementSize (set_data a1 buf')) with (elementSize a1).
      rewrite Hes1, Hcnt1. intros j Hj.
      destruct (decide (j = Z.to_nat (count a))) as [->|Hne].
      * rewrite lookup_app_r by (rewrite elems_length by done; lia).
        rewrite elems_length, Nat.sub_diag by done. cbn. by rewrite Hci.
      * rewrite lookup_app_l by (rewrite elems_length by done; lia).
        rewrite Hold by lia. by rewrite Hcj.
  - intros Hfull Hfail. unfold DynDataArr_push, DynDataArr_createElement.
    destruct (Z.ltb_spec (elementSize a) 1); [lia|].
    rewrite (u32_small (count a + 1)) by nia.
    destruct (Z.ltb_spec (capacity a) (count a + 1)); [|lia].
    unfold resizeDynDataArr.
    destruct (Z.ltb_spec 0 (NEXT_CAPACITY (capacity a))); [|lia].
    destruct (next_alloc o) as [ok o'] eqn:Ho. cbn in Hfail. subst ok.
    cbn [negb andb].
    rewrite (u32_small (NEXT_CAPACITY (capacity a) * elementSize a)) by nia.
    destruct (Z.ltb_spec 0 (NEXT_CAPACITY (capacity a) * elementSize a)); [|nia].
    reflexivity.
Qed.

(** X25: [DynDataArr_pop] takes the last element off without touching
    the buffer, and [DynDataArr_createElement] does not clear the slot it
    hands out.  On an empty array the pop returns false.  Otherwise it
    returns true, the elements are the former ones without the last, the
    capacity stays, and a [DynDataArr_createElement] right after it
    returns the slot of the popped element and gives back the very array
    from before the pop, the bytes of the popped element included. *)
Theorem pop_then_create_restores (o : Oracle) (a : DynamicDataArray) :
  wf a ->
  (count a = 0 -> DynDataArr_pop a = (false, a))
  /\ (1 <= count a ->
      DynDataArr_pop a = (true, set_count a (count a - 1))
      /\ wf (DynDataArr_pop a).2
      /\ capacity (DynDataArr_pop a).2 = capacity a
      /\ elems (DynDataArr_pop a).2 = take (Z.to_nat (count a - 1)) (elems a)
      /\ DynDataArr_createElement o (DynDataArr_pop a).2
         = (Some (Some (elementSize a * (count a - 1)), a), o)).
Proof.
  intros Hwf. pose proof Hwf as [Hs Hc Hf Hd]. unfold DynDataArr_pop.
  split.
  { intros ->. reflexivity. }
  intros H1. destruct (Z.ltb_spec (count a) 1); [lia|]. cbn [snd].
  destruct (wf_has_buffer a Hwf ltac:(lia)) as [buf Hbuf]. rewrite Hbuf in Hd.
  assert (wf (set_count a (count a - 1))) as Hwf'.
  { constructor; cbn; rewrite ?Hbuf; lia. }
  split; [done|]. split; [done|]. split; [done|]. split.
  - apply (elems_eq _ buf); [done | |]; cbn [count set_count elementSize].
    + rewrite length_take, elems_length by done. lia.
    + intros j Hj. rewrite lookup_take_lt by lia. apply elems_lookup; [done | lia].
  - unfold DynDataArr_createElement. cbn [elementSize set_count count capacity].
    destruct (Z.ltb_spec (elementSize a) 1); [lia|].
    replace (count a - 1 + 1) with (count a) by lia.
    rewrite (u32_small (count a)) by nia.
    destruct (Z.ltb_spec (capacity a) (count a)); [lia|]. cbn.
    unfold DynDataArr_get, set_count. cbn.
    destruct (Z.ltb_spec (elementSize a) 1); [lia|].
    rewrite u32_small by nia. by rewrite array_eta.
Qed.

(** X26: [resizeDynDataArr] keeps the first [newCapacity] elements.
    A new capacity of 0 changes nothing.  For a positive one, when the
    allocation succeeds, the capacity is the new one, the count is the
    smaller of the old count and the new capacity, the elements are the
    first ones of before, and the slots past the count hold zeros; when the
    allocation fails, the code writes through the NULL pointer it got. *)
Theorem resize_keeps_prefix (o : Oracle) (a : DynamicDataArray) (newCapacity : Z) :
  wf a ->
  newCapacity * elementSize a < 4294967296 ->
  (newCapacity = 0 -> resizeDynDataArr o a newCapacity = (Some a, o))
  /\ (0 < newCapacity -> (next_alloc o).1 = false ->
      resizeDynDataArr o a newCapacity = (None, (next_alloc o).2))
  /\ (0 < newCapacity -> (next_alloc o).1 = true ->
      exists a' buf',
        resizeDynDataArr o a newCapacity = (Some a', (next_alloc o).2)
        /\ wf a' /\ data a' = Some buf'
        /\ capacity a' = newCapacity
        /\ count a' = Z.min (count a) newCapacity
        /\ elementSize a' = elementSize a
        /\ elems a' = take (Z.to_nat newCapacity) (elems a)
        /\ (forall j, Z.min (count a) newCapacity <= Z.of_nat j < newCapacity ->
              chunk (Z.to_nat (elementSize a)) buf' j
              = replicate (Z.to_nat (elementSize a)) 0)).
Proof.
  intros Hwf Hfit. pose proof Hwf as [Hs Hc Hf Hd].
  split; [|split].
  - intros ->. reflexivity.
  - intros Hnc Hfail. unfold resizeDynDataArr.
    destruct (Z.ltb_spec 0 newCapacity); [|lia].
    destruct (next_alloc o) as [ok o'] eqn:Ho. cbn in Hfail. subst ok.
    cbn [negb andb].
    rewrite (u32_small (newCapacity * elementSize a)) by nia.
    destruct (Z.ltb_spec 0 (newCapacity * elementSize a)); [|nia].
    reflexivity.
  - intros Hnc Hok. by apply resize_spec.
Qed.


(** The loop of [DynDataArr_removeByIndex]: the elements from [i] on move
    down by one, the last of them stays where it is. *)
Lemma remove_loop_spec n : forall a i buf,
  wf a -> data a = Some buf -> 0 <= i -> i + Z.of_nat n < capacity a ->
  let es := Z.to_nat (elementSize a) in
  exists buf',
    remove_loop a i n = Some (set_data a buf')
    /\ length buf' = length buf
    /\ (forall j : nat, Z.of_nat j < i -> chunk es buf' j = chunk es buf j)
    /\ (forall j : nat, i <= Z.of_nat j < i + Z.of_nat n ->
          chunk es buf' j = chunk es buf (S j))
    /\ (forall j : nat, i + Z.of_nat n <= Z.of_nat j -> chunk es buf' j = chunk es buf j).
Proof.
  induction n as [|n IH]; intros a i buf Hwf Hbuf Hi Hn es.
  - exists buf. cbn [remove_loop]. split.
    + unfold set_data. rewrite <- Hbuf. by rewrite array_eta.
    + split; [done|]. split; [done|]. split; [lia | done].
  - pose proof Hwf as [Hs Hc Hf Hd]. rewrite Hbuf in Hd.
    cbn [remove_loop].
    rewrite (u32_small (i + 1)) by nia.
    destruct (get_offset a i Hwf ltac:(lia)) as (-> & _ & _).
    destruct (get_offset a (i + 1) Hwf ltac:(lia)) as (-> & _ & _).
    cbn. rewrite Hbuf. cbn.
    rewrite (read_element a buf (i + 1) Hwf Hbuf) by lia. cbn. fold es.
    assert (Z.of_nat (length (chunk es buf (Z.to_nat (i + 1)))) = elementSize a) as Hlv.
    { rewrite chunk_length; subst es; nia. }
    destruct (write_element a buf i _ Hwf Hbuf ltac:(lia) Hlv)
      as (buf1 & -> & Hl1 & Hci & Hcj). cbn.
    fold es in Hci, Hcj.
    destruct (IH (set_data a buf1) (i + 1) buf1) as (buf' & Hrun & Hl' & Hlo & Hmid & Hhi).
    + apply wf_set_data; [done | lia].
    + done.
    + lia.
    + cbn. lia.
    + change (elementSize (set_data a buf1)) with (elementSize a) in Hlo, Hmid, Hhi.
      fold es in Hlo, Hmid, Hhi.
      exists buf'. split; [exact Hrun|]. split; [lia|].
      split; [|split].
      * intros j Hj. rewrite Hlo by lia. apply Hcj. lia.
      * intros j Hj. destruct (decide (Z.of_nat j = i)) as [E|E].
        -- rewrite Hlo by lia. replace j with (Z.to_nat i) by lia.
           rewrite Hci. f_equal. lia.
        -- rewrite Hmid by lia. apply Hcj. lia.
      * intros j Hj. rewrite Hhi by lia. apply Hcj. lia.
Qed.

Lemma remove_by_index_spec a index :
  wf a -> 0 <= index < count a ->
  exists a',
    DynDataArr_removeByIndex a index = Some (true, a')
    /\ wf a' /\ count a' = count a - 1 /\ capacity a' = capacity a
    /\ elementSize a' = elementSize a
    /\ elems a' = delete (Z.to_nat index) (elems a).
Proof.
  intros Hwf Hi. pose proof Hwf as [Hs Hc Hf Hd].
  destruct (wf_has_buffer a Hwf ltac:(lia)) as [buf Hbuf]. rewrite Hbuf in Hd.
  unfold DynDataArr_removeByIndex.
  destruct (Z.ltb_spec (elementSize a) 1); [lia|].
  destruct (Z.leb_spec (count a) index); [lia|]. cbn [orb].
  rewrite (u32_small (count a - 1)) by nia.
  destruct (remove_loop_spec (Z.to_nat (count a - 1 - index)) a index buf Hwf Hbuf
              ltac:(lia) ltac:(lia)) as (buf' & -> & Hl' & Hlo & Hmid & Hhi).
  cbn. eexists. split; [reflexivity|].
  split; [constructor; cbn; lia|].
  split; [done|]. split; [done|]. split; [done|].
  apply (elems_eq _ buf'); [done | |]; cbn [count set_count set_data elementSize].
  - rewrite length_delete by (apply lookup_lt_is_Some; rewrite elems_length by done; lia).
    rewrite elems_length by done. lia.
  - intros j Hj. destruct (decide (j < Z.to_nat index)%nat) as [Hlt|Hge].
    + rewrite list_lookup_delete_lt by done.
      rewrite (elems_lookup a buf j Hbuf) by lia. by rewrite Hlo by lia.
    + rewrite list_lookup_delete_ge by lia.
      rewrite (elems_lookup a buf (S j) Hbuf) by lia. by rewrite Hmid by lia.
Qed.

(** X23: [DynDataArr_removeByIndex] deletes one element and keeps the
    order of the others.  For an index below the count it returns true
    and the elements afterwards are the elements before without the one at
    the index; the count drops by one and the capacity stays.  For an
    index at or past the count it returns false and changes nothing. *)
Theorem remove_by_index_deletes (a : DynamicDataArray) (index : Z) :
  wf a -> 0 <= index ->
  (count a <= index -> DynDataArr_removeByIndex a index = Some (false, a))
  /\ (index < count a ->
      exists a',
        DynDataArr_removeByIndex a index = Some (true, a')
        /\ wf a' /\ count a' = count a - 1 /\ capacity a' = capacity a
        /\ elems a' = delete (Z.to_nat index) (elems a)).
Proof.
  intros Hwf Hi. split.
  - intros Hge. unfold DynDataArr_removeByIndex.
    destruct (Z.leb_spec (count a) index); [|lia].
    by rewrite orb_true_r.
  - intros Hlt.
    destruct (remove_by_index_spec a index Hwf ltac:(lia))
      as (a' & H1 & H2 & H3 & H4 & _ & H5).
    exists a'. done.
Qed.

(** The loop of [DynDataArr_removeByValue]: the first index from [i] on
    whose element is [value], if there is one. *)
Lemma find_value_spec n : forall a value i buf,
  wf a -> data a = Some buf ->
  Forall (fun x => 0 <= x < 256) buf -> Forall (fun x => 0 <= x < 256) value ->
  elementSize a <= Z.of_nat (length value) ->
  0 <= i -> i + Z.of_nat n <= capacity a ->
  let es := Z.to_nat (elementSize a) in
  let v := take es value in
  (exists k : nat,
      find_value a value i n = Some (Some (Z.of_nat k))
      /\ i <= Z.of_nat k < i + Z.of_nat n
      /\ chunk es buf k = v
      /\ forall j : nat, i <= Z.of_nat j < Z.of_nat k -> chunk es buf j <> v)
  \/ (find_value a value i n = Some None
      /\ forall j : nat, i <= Z.of_nat j < i + Z.of_nat n -> chunk es buf j <> v).
Proof.
  induction n as [|n IH]; intros a value i buf Hwf Hbuf Hbb Hvb Hv Hi Hn es v.
  - right. split; [reflexivity | lia].
  - pose proof Hwf as [Hs Hc Hf Hd]. rewrite Hbuf in Hd.
    cbn [find_value].
    destruct (get_offset a i Hwf ltac:(lia)) as (-> & _ & _).
    cbn. rewrite Hbuf. cbn.
    rewrite (read_element a buf i Hwf Hbuf) by lia. cbn.
    destruct (read_value value (elementSize a) ltac:(lia)) as [-> Hlv]. cbn.
    fold es. fold v. fold v in Hlv.
    assert (length (chunk es buf (Z.to_nat i)) = es) as Hlc
      by (apply chunk_length; subst es; nia).
    assert (length v = es) as Hlv' by (unfold v, es; rewrite length_take; lia).
    destruct (Misc.memcmp_loop_spec es (chunk es buf (Z.to_nat i)) v) as [Hz _].
    { unfold chunk. by apply Forall_take, Forall_drop. }
    { unfold v. by apply Forall_take. }
    { lia. }
    { lia. }
    rewrite !take_ge in Hz by lia.
    unfold Misc.Utils_MemCmp. fold es.
    destruct (Z.eqb_spec (Misc.Utils_MemCmp_loop (chunk es buf (Z.to_nat i)) v es) 0)
      as [E|E].
    + left. exists (Z.to_nat i). rewrite Z2Nat.id by lia.
      split; [reflexivity|]. split; [lia|]. split; [by apply Hz | lia].
    + assert (chunk es buf (Z.to_nat i) <> v) as Hne by (intros E'; by apply E, Hz).
      rewrite (u32_small (i + 1)) by nia.
      destruct (IH a value (i + 1) buf Hwf Hbuf Hbb Hvb Hv ltac:(lia) ltac:(lia))
        as [(k & Hf' & Hk & Hck & Hfirst) | [Hf' Hnone]].
      * left. exists k. split; [exact Hf'|]. split; [lia|]. split; [exact Hck|].
        intros j Hj. destruct (decide (Z.of_nat j = i)) as [Ej|Ej].
        -- replace j with (Z.to_nat i) by lia. exact Hne.
        -- apply Hfirst. lia.
      * right. split; [exact Hf'|].
        intros j Hj. destruct (decide (Z.of_nat j = i)) as [Ej|Ej].
        -- replace j with (Z.to_nat i) by lia. exact Hne.
        -- apply Hnone. lia.
Qed.

(** X24: [DynDataArr_removeByValue] removes the first element equal
    to the value.  When no element has the first [elementSize] bytes of
    the value, it returns false and changes nothing; otherwise it returns
    true and removes the first such element, keeping the others in their
    order, later duplicates included.  (The buffer and the value hold
    bytes.) *)
Theorem remove_by_value_first_match (a : DynamicDataArray) (value : list Z) :
  wf a ->
  match data a with
  | Some buf => Forall (fun x => 0 <= x < 256) buf
  | None => True
  end ->
  Forall (fun x => 0 <= x < 256) value ->
  elementSize a <= Z.of_nat (length value) ->
  let v := take (Z.to_nat (elementSize a)) value in
  (v ∉ elems a -> DynDataArr_removeByValue a value = Some (false, a))
  /\ (forall l1 l2, elems a = l1 ++ v :: l2 -> v ∉ l1 ->
        exists a',
          DynDataArr_removeByValue a value = Some (true, a')
          /\ wf a' /\ capacity a' = capacity a
          /\ elems a' = l1 ++ l2).
Proof.
  intros Hwf Hbb Hvb Hv v. pose proof Hwf as [Hs Hc Hf Hd].
  unfold DynDataArr_removeByValue.
  destruct (Z.ltb_spec (elementSize a) 1); [lia|].
  destruct (data a) as [buf|] eqn:Hbuf.
  2:{ assert (count a = 0) as Hc0 by lia. rewrite Hc0. cbn.
      split; [done|]. intros l1 l2 Hel _.
      unfold elems in Hel. rewrite Hbuf in Hel. by destruct l1. }
  destruct (find_value_spec (Z.to_nat (count a)) a value 0 buf Hwf Hbuf Hbb Hvb Hv
              ltac:(lia) ltac:(lia))
    as [(k & Hfind & Hk & Hck & Hfirst) | [Hfind Hnone]];
    cbv zeta in *; fold v in Hck, Hfirst || fold v in Hnone; rewrite Hfind; cbn.
  - split.
    + intros Hnot. exfalso. apply Hnot.
      apply (list_elem_of_lookup_2 _ k). rewrite (elems_lookup a buf k Hbuf) by lia.
      by rewrite Hck.
    + intros l1 l2 Hel Hl1.
      assert (k = length l1) as ->.
      { destruct (decide (k < length l1)%nat) as [Hlt|Hge].
        - exfalso. apply Hl1. apply (list_elem_of_lookup_2 _ k).
          assert (elems a !! k = Some v) as E
            by (rewrite (elems_lookup a buf k Hbuf) by lia; by rewrite Hck).
          rewrite Hel, lookup_app_l in E by done. exact E.
        - destruct (decide (length l1 < k)%nat) as [Hgt|Hle]; [|lia].
          exfalso. apply (Hfirst (length l1)); [lia|].
          assert (elems a !! length l1 = Some v) as E
            by (rewrite Hel; apply list_lookup_middle; done).
          rewrite (elems_lookup a buf (length l1) Hbuf) in E by lia.
          by injection E. }
      destruct (remove_by_index_spec a (Z.of_nat (length l1)) Hwf ltac:(lia))
        as (a' & -> & Hwf' & _ & Hcap' & _ & Hel').
      cbn. exists a'. split; [done|]. split; [done|]. split; [done|].
      rewrite Hel', Hel, Nat2Z.id. apply delete_middle.
  - split; [done|].
    intros l1 l2 Hel _. exfalso.
    assert (length (elems a) = Z.to_nat (count a)) as Hlen by by apply elems_length.
    rewrite Hel, length_app in Hlen. cbn in Hlen.
    apply (Hnone (length l1)); [lia|].
    assert (elems a !! length l1 = Some v) as E
      by (rewrite Hel; apply list_lookup_middle; done).
    rewrite (elems_lookup a buf (length l1) Hbuf) in E by lia.
    by injection E.
Qed.


(** *** Examples *)

(** Elements of two bytes: (1,2), (3,4), (5,6), and room for a fourth. *)
Definition three_pairs : DynamicDataArray :=
  mkArr (Some [1; 2; 3; 4; 5; 6; 0; 0]) 4 3 2.

(** A full array of two elements. *)
Definition two_pairs_full : DynamicDataArray :=
  mkArr (Some [1; 2; 3; 4]) 2 2 2.

Lemma three_pairs_wf : wf three_pairs.
Proof. constructor; cbn; lia. Qed.

Lemma two_pairs_full_wf : wf two_pairs_full.
Proof. constructor; cbn; lia. Qed.

Lemma push_appends_witness :
  exists a',
    DynDataArr_push [] two_pairs_full [7; 8] = (Some a', [])
    /\ elems a' = [[1; 2]; [3; 4]; [7; 8]]
    /\ capacity a' = 4.
Proof.
  destruct (push_appends [] two_pairs_full [7; 8] two_pairs_full_wf) as [H _].
  - cbn. lia.
  - cbn. lia.
  - vm_compute. reflexivity.
  - destruct H as (a' & H1 & _ & H2 & H3 & _); [right; reflexivity|].
    exists a'. split; [exact H1|]. split; [exact H2 | exact H3].
Defined.

Lemma set_overwrites_element_witness :
  exists a',
    DynDataArr_set three_pairs 1 [9; 9] = Some (true, a')
    /\ elems a' = [[1; 2]; [9; 9]; [5; 6]].
Proof.
  destruct (set_overwrites_element three_pairs 1 [9; 9] three_pairs_wf) as [_ H].
  - lia.
  - cbn. lia.
  - destruct H as (a' & H1 & _ & _ & _ & H2); [cbn; lia|].
    exists a'. split; [exact H1 | exact H2].
Defined.

Lemma remove_by_index_deletes_witness :
  exists a',
    DynDataArr_removeByIndex three_pairs 0 = Some (true, a')
    /\ elems a' = [[3; 4]; [5; 6]].
Proof.
  destruct (remove_by_index_deletes three_pairs 0 three_pairs_wf) as [_ H].
  - lia.
  - destruct H as (a' & H1 & _ & _ & _ & H2); [cbn; lia|].
    exists a'. split; [exact H1 | exact H2].
Defined.

Lemma remove_by_value_first_match_witness :
  exists a',
    DynDataArr_removeByValue three_pairs [3; 4] = Some (true, a')
    /\ elems a' = [[1; 2]; [5; 6]].
Proof.
  destruct (remove_by_value_first_match three_pairs [3; 4] three_pairs_wf) as [_ H].
  - cbn. repeat (apply Forall_cons_2; [lia|]). apply Forall_nil_2.
  - repeat (apply Forall_cons_2; [lia|]). apply Forall_nil_2.
  - cbn. lia.
  - destruct (H [[1; 2]] [[5; 6]]) as (a' & H1 & _ & _ & H2).
    + reflexivity.
    + intros E. apply list_elem_of_singleton in E. discriminate E.
    + exists a'. split; [exact H1 | exact H2].
Defined.

Lemma pop_then_create_restores_witness :
  DynDataArr_pop three_pairs = (true, mkArr (Some [1; 2; 3; 4; 5; 6; 0; 0]) 4 2 2)
  /\ DynDataArr_createElement [] (DynDataArr_pop three_pairs).2
     = (Some (Some 4, three_pairs), []).
Proof.
  destruct (pop_then_create_restores [] three_pairs three_pairs_wf) as [_ H].
  destruct H as (H1 & _ & _ & _ & H2); [cbn; lia|].
  split; [exact H1 | exact H2].
Defined.

Lemma resize_keeps_prefix_witness :
  exists a',
    resizeDynDataArr [] three_pairs 2 = (Some a', [])
    /\ elems a' = [[1; 2]; [3; 4]]
    /\ count a' = 2.
Proof.
  destruct (resize_keeps_prefix [] three_pairs 2 three_pairs_wf) as (_ & _ & H).
  - cbn. lia.
  - destruct H as (a' & buf' & H1 & _ & _ & _ & H2 & _ & H3 & _);
      [lia | reflexivity |].
    exists a'. split; [exact H1|]. split; [exact H3 | exact H2].
Defined.

End DynArr.
